(** * Web-Data-Scraping-Assistant: the extraction and pagination engine

    A shallow embedding of the backend services
    ([app/services/*.py], [app/core/errors.py], [app/api/analyze.py])
    and the properties of its specification, checked against the code.

    Conventions of the embedding:
    - a Python [str] is a [string]; its characters are code points below 256;
    - a Python [int] is a [Z];
    - a decoded JSON value, a request parameter and a record field are a
      [value]; a [dict] keeps its insertion order, so it is an association
      list updated in place ([dict_set]);
    - a function that can raise returns a [result];
    - a function that calls back into its caller, or talks to the network,
      threads an explicit state. *)

From Stdlib Require Import ZArith List Ascii String Bool Lia DecimalString.
From Stdlib Require Import Sorted.
From stdpp Require Import base gmap strings list.

Set Warnings "-register-all".

Local Open Scope Z_scope.
Local Open Scope string_scope.
Local Open Scope list_scope.

(** ** Python values, dictionaries, strings and exceptions *)

Module Py.

(** [Any]: what [json.loads] produces, and what a record or a parameter
    dictionary holds.  A [VFloat] carries the bits of the double. *)
Inductive value : Type :=
| VNone
| VBool (b : bool)
| VInt (z : Z)
| VFloat (bits : Z)
| VStr (s : string)
| VList (items : list value)
| VDict (items : list (string * value)).

(** A [dict] with [str] keys, in insertion order. *)
Definition pydict : Type := list (string * value).

Fixpoint dict_get {A} (k : string) (d : list (string * A)) : option A :=
  match d with
  | [] => None
  | (k', v) :: d' => if String.eqb k k' then Some v else dict_get k d'
  end.

(** [k in d] *)
Definition dict_has {A} (k : string) (d : list (string * A)) : bool :=
  match dict_get k d with Some _ => true | None => false end.

(** [d[k] = v]: an existing key keeps its position, a new key goes last. *)
Fixpoint dict_set {A} (k : string) (v : A) (d : list (string * A))
  : list (string * A) :=
  match d with
  | [] => [(k, v)]
  | (k', v') :: d' =>
      if String.eqb k k' then (k, v) :: d' else (k', v') :: dict_set k v d'
  end.

(** [d.pop(k, None)] *)
Fixpoint dict_pop {A} (k : string) (d : list (string * A))
  : list (string * A) :=
  match d with
  | [] => []
  | (k', v') :: d' =>
      if String.eqb k k' then d' else (k', v') :: dict_pop k d'
  end.

(** [d.update(e)] *)
Definition dict_update {A} (d e : list (string * A)) : list (string * A) :=
  fold_left (fun acc kv => dict_set (fst kv) (snd kv) acc) e d.

Definition dict_keys {A} (d : list (string * A)) : list string := map fst d.
Definition dict_values {A} (d : list (string * A)) : list A := map snd d.

(** [copy.deepcopy]: values of the embedding are immutable, a copy is the
    value itself. *)
Definition deepcopy {A} (x : A) : A := x.

(** [str(n)] for an [int]. *)
Definition str_of_Z (z : Z) : string := NilZero.string_of_int (Z.to_int z).

Definition len {A} (l : list A) : Z := Z.of_nat (List.length l).
Definition str_len (s : string) : Z := Z.of_nat (String.length s).

(** [s.startswith(p)] *)
Definition startswith (s p : string) : bool := String.prefix p s.

(** [p in s] for strings. *)
Fixpoint str_contains (p s : string) : bool :=
  String.prefix p s
  || match s with
     | EmptyString => false
     | String _ s' => str_contains p s'
     end.

(** [s.replace(old, new)], all occurrences, left to right, not
    overlapping.  [skip] counts the characters of a matched [old] still
    to be dropped. *)
Fixpoint replace_from (old new s : string) (skip : nat) : string :=
  match s with
  | EmptyString => EmptyString
  | String c s' =>
      match skip with
      | S k => replace_from old new s' k
      | O =>
          if String.prefix old s
          then new +:+ replace_from old new s' (String.length old - 1)
          else String c (replace_from old new s' 0)
      end
  end.

(** With an empty [old], Python puts [new] before every character and at
    the end. *)
Fixpoint intersperse_str (new s : string) : string :=
  match s with
  | EmptyString => new
  | String c s' => new +:+ String c (intersperse_str new s')
  end.

Definition replace (s old new : string) : string :=
  match old with
  | EmptyString => intersperse_str new s
  | _ => replace_from old new s 0
  end.

Definition code (c : ascii) : Z := Z.of_nat (nat_of_ascii c).

Definition in_range (lo hi : Z) (c : ascii) : bool :=
  ((lo <=? code c) && (code c <=? hi))%Z.

(** [str.lower] on one character: the capital letters of ASCII and of
    Latin-1 move up by 32.  Strings here are sequences of code points
    below 256; above that, [str.lower] has cases of its own (the
    Kelvin sign U+212A lowers to "k"), which are outside the model. *)
Definition lower_char (c : ascii) : ascii :=
  if in_range 65 90 c || in_range 192 214 c || in_range 216 222 c
  then ascii_of_nat (nat_of_ascii c + 32)
  else c.

Fixpoint lower (s : string) : string :=
  match s with
  | EmptyString => EmptyString
  | String c s' => String (lower_char c) (lower s')
  end.

(** The character class [[a-z0-9]]. *)
Definition is_lower_alnum (c : ascii) : bool :=
  in_range 97 122 c || in_range 48 57 c.

(** Exceptions: the classes of [app/core/errors.py], and the foreign
    ones the services meet. *)
Inductive exn_class : Type :=
| WdspError
| FetchError
| ParseError
| ValueError
| Foreign (name : string).

Definition class_name (c : exn_class) : string :=
  match c with
  | WdspError => "WdspError"
  | FetchError => "FetchError"
  | ParseError => "ParseError"
  | ValueError => "ValueError"
  | Foreign n => n
  end.

Record exn : Type := Exn { exn_class_of : exn_class; message : string }.

Inductive result (A : Type) : Type :=
| Ok (a : A)
| Raise (e : exn).
Arguments Ok {A} a.
Arguments Raise {A} e.

(** [r] is an exception whose class is named [name]. *)
Definition raises_class {A} (r : result A) (name : string) : Prop :=
  exists e, r = Raise e /\ class_name (exn_class_of e) = name.

Lemma dict_get_set_eq {A} k (v : A) d : dict_get k (dict_set k v d) = Some v.
Proof.
  induction d as [|[k' v'] d IH]; simpl.
  - by rewrite String.eqb_refl.
  - destruct (String.eqb k k') eqn:E; simpl; rewrite ?String.eqb_refl, ?E; auto.
Qed.

Lemma dict_get_set_ne {A} k k' (v : A) d :
  k <> k' -> dict_get k' (dict_set k v d) = dict_get k' d.
Proof.
  intros Hne. induction d as [|[k0 v0] d IH]; simpl.
  - destruct (String.eqb k' k) eqn:E; auto.
    apply String.eqb_eq in E. congruence.
  - destruct (String.eqb k k0) eqn:E; simpl.
    + apply String.eqb_eq in E. subst k0.
      destruct (String.eqb k' k) eqn:E'; auto.
      apply String.eqb_eq in E'. congruence.
    + destruct (String.eqb k' k0); auto.
Qed.

End Py.

Import Py.

(** ** Batch identifier injection ([app/api/analyze.py]) *)

Module Analyze.

(** [_inject_identifier(identifier, var_name, url, params, body)] *)
Definition _inject_identifier
    (identifier var_name url : string) (params : pydict)
    (body : option pydict) : string * pydict * option pydict :=
  (* URL replacement: support {var_name} syntax *)
  let new_url := replace url ("{" +:+ var_name +:+ "}") identifier in
  (* Params *)
  let new_params := deepcopy params in
  let new_params :=
    if dict_has var_name new_params
    then dict_set var_name (VStr identifier) new_params
    else new_params in
  (* Body *)
  let new_body :=
    match body with
    | Some b => Some (deepcopy b)
    | None => None
    end in
  let new_body :=
    match new_body with
    | Some ((_ :: _) as b) =>
        let b :=
          if dict_has var_name b
          then dict_set var_name (VStr identifier) b
          else b in
        (* GraphQL variables *)
        match dict_get "variables" b with
        | Some (VDict vars) =>
            if dict_has var_name vars
            then Some (dict_set "variables"
                         (VDict (dict_set var_name (VStr identifier) vars)) b)
            else Some b
        | _ => Some b
        end
    | other => other
    end in
  (new_url, new_params, new_body).

(** C8. Injecting the identifier "42" for the variable "id" into the URL
    "https://x/{id}", the query parameters {"id": "x"} and the body
    {"variables": {"id": "x"}} returns the URL "https://x/42", the
    parameters {"id": "42"} and the body {"variables": {"id": "42"}}. *)
Theorem inject_identifier_example :
  _inject_identifier "42" "id" "https://x/{id}"
    [("id", VStr "x")]
    (Some [("variables", VDict [("id", VStr "x")])])
  = ("https://x/42",
     [("id", VStr "42")],
     Some [("variables", VDict [("id", VStr "42")])]).
Proof. vm_compute. reflexivity. Qed.


(** *** What the injection leaves alone *)

Lemma replace_absent (s old new : string) :
  old <> EmptyString -> str_contains old s = false -> replace s old new = s.
Proof.
  intros Hold. unfold replace. destruct old as [|o old]; [done|]. clear Hold.
  induction s as [|c s IH]; [done|].
  cbn [str_contains replace_from]. intros Habsent.
  apply orb_false_iff in Habsent as [Hprefix Hrest].
  rewrite Hprefix. by rewrite IH.
Qed.

Lemma set_present_keys {A} k (v : A) d :
  dict_has k d = true -> dict_keys (dict_set k v d) = dict_keys d.
Proof.
  unfold dict_has, dict_keys.
  induction d as [|[k' v'] d IH]; simpl; [done|].
  destruct (String.eqb k k') eqn:E.
  - apply String.eqb_eq in E. by subst.
  - intros Hd. simpl. by rewrite IH.
Qed.

(** [d[k] = v] for a key that may be missing: done only when present. *)
Lemma set_if_present_keys {A} k (v : A) d :
  dict_keys (if dict_has k d then dict_set k v d else d) = dict_keys d.
Proof.
  destruct (dict_has k d) eqn:Hk; [|done]. by apply set_present_keys.
Qed.

Lemma set_if_present_other {A} k k' (v : A) d :
  k <> k' ->
  dict_get k' (if dict_has k d then dict_set k v d else d) = dict_get k' d.
Proof.
  intros Hne. destruct (dict_has k d); [|done]. by apply dict_get_set_ne.
Qed.

(** The injection adds no key, removes none and moves none, in the
    parameters and in the body; every entry of the parameters under a
    key other than the variable is as before, and so is every entry of
    the body under a key other than the variable and "variables"; a
    missing body stays missing.  When the parameters have the variable,
    its new value is the identifier. *)
Theorem inject_identifier_keeps_shape (identifier var_name url : string)
    (params : pydict) (body : option pydict) :
  dict_keys (snd (fst (_inject_identifier identifier var_name url params body)))
  = dict_keys params
  /\ (forall k,
        k <> var_name ->
        dict_get k
          (snd (fst (_inject_identifier identifier var_name url params body)))
        = dict_get k params)
  /\ (dict_has var_name params = true ->
      dict_get var_name
        (snd (fst (_inject_identifier identifier var_name url params body)))
      = Some (VStr identifier))
  /\ match body,
           snd (_inject_identifier identifier var_name url params body) with
     | None, None => True
     | Some b, Some new_body =>
         dict_keys new_body = dict_keys b
         /\ forall k,
              k <> var_name -> k <> "variables" ->
              dict_get k new_body = dict_get k b
     | _, _ => False
     end.
Proof.
  unfold _inject_identifier, deepcopy. cbn [fst snd].
  split; [apply set_if_present_keys|].
  split; [intros k Hk; by apply set_if_present_other|].
  split.
  { intros Hhas. rewrite Hhas. apply dict_get_set_eq. }
  destruct body as [[|entry b]|]; [done| |done].
  set (old := entry :: b).
  set (new := if dict_has var_name old
              then dict_set var_name (VStr identifier) old else old).
  assert (dict_keys new = dict_keys old) as Hkeys
    by apply set_if_present_keys.
  assert (forall k, k <> var_name -> dict_get k new = dict_get k old)
    as Hother by (intros k Hk; by apply set_if_present_other).
  destruct (dict_get "variables" new) as [[|?|?|?|?|?|vars]|] eqn:Hvars;
    try (split; [exact Hkeys|intros k Hk _; by apply Hother]).
  destruct (dict_has var_name vars);
    [|split; [exact Hkeys|intros k Hk _; by apply Hother]].
  split.
  - rewrite set_present_keys; [done|]. unfold dict_has. by rewrite Hvars.
  - intros k Hk Hv. rewrite dict_get_set_ne by done. by apply Hother.
Qed.

(** The injection changes nothing at all when the URL has no
    placeholder for the variable, the parameters do not have it, and
    the body (if there is one) has it neither at the top nor under a
    "variables" object. *)
Theorem inject_identifier_without_variable (identifier var_name url : string)
    (params : pydict) (body : option pydict) :
  str_contains ("{" +:+ var_name +:+ "}") url = false ->
  dict_has var_name params = false ->
  (forall b, body = Some b ->
     dict_has var_name b = false
     /\ forall vars,
          dict_get "variables" b = Some (VDict vars) ->
          dict_has var_name vars = false) ->
  _inject_identifier identifier var_name url params body
  = (url, params, body).
Proof.
  intros Hurl Hparams Hbody. unfold _inject_identifier, deepcopy.
  rewrite replace_absent by done. rewrite Hparams.
  destruct body as [[|entry b]|]; [done| |done].
  destruct (Hbody _ eq_refl) as [Htop Hvars]. rewrite Htop.
  destruct (dict_get "variables" (entry :: b)) as [[|?|?|?|?|?|vars]|];
    try done.
  by rewrite (Hvars vars eq_refl).
Qed.

Lemma inject_identifier_without_variable_witness :
  _inject_identifier "42" "id" "https://x/items?page={page}"
    [("page", VStr "1")]
    (Some [("query", VStr "q"); ("variables", VDict [("first", VInt 10)])])
  = ("https://x/items?page={page}",
     [("page", VStr "1")],
     Some [("query", VStr "q"); ("variables", VDict [("first", VInt 10)])]).
Proof.
  apply (inject_identifier_without_variable "42" "id").
  - vm_compute. reflexivity.
  - reflexivity.
  - intros b [= <-]. split; [reflexivity|].
    intros vars Hvars. vm_compute in Hvars. injection Hvars as <-.
    reflexivity.
Defined.

End Analyze.

(** ** The pagination engine ([app/services/pagination.py]) *)

Module Pagination.

(** [app/schemas/pagination.py]: the three variants of [Pagination]. *)
Inductive Pagination : Type :=
| PageParamPagination (param : string) (start end_ : Z)
| OffsetPagination (offset_param limit_param : string)
    (limit max_pages start_offset : Z)
| CursorPagination (cursor_param cursor_field : string)
    (max_pages : Z) (initial_cursor : option string).

Record PaginationRunResult : Type := {
  pages_fetched : Z;
  records_total : Z;
  stopped_reason : string
}.

(** Dictionaries are objects: the engine and its caller hold references
    to them.  A [loc] names a dictionary of the heap. *)
Definition loc : Type := positive.

(** The state a run threads: the heap of dictionaries, and whatever the
    caller's closures own ([user]): the network, a cursor holder, a trace. *)
Record state (U : Type) : Type := State {
  heap : gmap loc pydict;
  user : U
}.
Arguments State {U} heap user.
Arguments heap {U} s.
Arguments user {U} s.

(** A computation that may raise and may change the state. *)
Definition action (U A : Type) : Type := state U -> result A * state U.

Definition ret {U A} (a : A) : action U A := fun st => (Ok a, st).

Definition bind {U A B} (m : action U A) (k : A -> action U B)
  : action U B :=
  fun st =>
    match m st with
    | (Ok a, st') => k a st'
    | (Raise e, st') => (Raise e, st')
    end.

Notation "'let*' x ':=' m 'in' k" := (bind m (fun x => k))
  (at level 10, x name, m at level 100, k at level 200).

Section Engine.
Context {U : Type}.

Definition load (l : loc) (st : state U) : pydict :=
  default [] (heap st !! l).

Definition store (l : loc) (d : pydict) (st : state U) : state U :=
  State (<[l := d]> (heap st)) (user st).

(** [params[k] = v] *)
Definition setitem (l : loc) (k : string) (v : value) : action U unit :=
  fun st => (Ok tt, store l (dict_set k v (load l st)) st).

(** [params.pop(k, None)] *)
Definition popitem (l : loc) (k : string) : action U unit :=
  fun st => (Ok tt, store l (dict_pop k (load l st)) st).

Definition contains (l : loc) (k : string) : action U bool :=
  fun st => (Ok (dict_has k (load l st)), st).

(** [dict(base_params or {})]: a new dictionary object with the entries
    of the caller's one. *)
Definition copy_params (base_params : option loc) : action U loc :=
  fun st =>
    let entries :=
      match base_params with
      | Some b => load b st
      | None => []
      end in
    let l := fresh (dom (heap st)) in
    (Ok l, store l entries st).

Definition finish (all_records : list pydict) (pages_fetched : Z)
    (reason : string) : action U (list pydict * PaginationRunResult) :=
  ret (all_records,
       {| pages_fetched := pages_fetched;
          records_total := len all_records;
          stopped_reason := reason |}).

Variable fetch_page : loc -> action U (list pydict).
Variable cursor_getter : option (action U (option string)).
Variable cursor_setter : option (option string -> action U unit).

(** [for page in range(start, end + 1)]: [n] pages are left, [page] is
    the next one. *)
Fixpoint page_loop (param : string) (params : loc) (n : nat) (page : Z)
    (pages_fetched : Z) (all_records : list pydict)
  : action U (list pydict * PaginationRunResult) :=
  match n with
  | O => finish all_records pages_fetched "end_reached"
  | S n' =>
      let* _ := setitem params param (VInt page) in
      let* records := fetch_page params in
      let pages_fetched := pages_fetched + 1 in
      match records with
      | [] => finish all_records pages_fetched "empty_page"
      | _ => page_loop param params n' (page + 1) pages_fetched
               (all_records ++ records)
      end
  end.

(** [for _ in range(max_pages)] of the offset variant. *)
Fixpoint offset_loop (offset_param limit_param : string) (limit : Z)
    (params : loc) (n : nat) (offset : Z)
    (pages_fetched : Z) (all_records : list pydict)
  : action U (list pydict * PaginationRunResult) :=
  match n with
  | O => finish all_records pages_fetched "max_pages"
  | S n' =>
      let* _ := setitem params offset_param (VInt offset) in
      let* _ := setitem params limit_param (VInt limit) in
      let* records := fetch_page params in
      let pages_fetched := pages_fetched + 1 in
      match records with
      | [] => finish all_records pages_fetched "empty_page"
      | _ => offset_loop offset_param limit_param limit params n'
               (offset + limit) pages_fetched (all_records ++ records)
      end
  end.

(** [for _ in range(max_pages)] of the cursor variant. *)
Fixpoint cursor_loop (cursor_param : string) (params : loc) (n : nat)
    (cursor : option string)
    (pages_fetched : Z) (all_records : list pydict)
  : action U (list pydict * PaginationRunResult) :=
  match n with
  | O => finish all_records pages_fetched "max_pages"
  | S n' =>
      let* _ := match cursor with
           | Some c => setitem params cursor_param (VStr c)
           | None =>
               let* present := contains params cursor_param in
               if present then popitem params cursor_param else ret tt
           end in
      let* records := fetch_page params in
      let pages_fetched := pages_fetched + 1 in
      match records with
      | [] => finish all_records pages_fetched "empty_page"
      | _ =>
          let all_records := all_records ++ records in
          match cursor_getter with
          | None => finish all_records pages_fetched "missing_cursor_getter"
          | Some getter =>
              let* cursor := getter in
              let* _ := match cursor_setter with
                   | Some setter => setter cursor
                   | None => ret tt
                   end in
              match cursor with
              | None => finish all_records pages_fetched "cursor_missing"
              | Some _ =>
                  cursor_loop cursor_param params n' cursor
                    pages_fetched all_records
              end
          end
      end
  end.

(** [run_pagination(pagination=, fetch_page=, base_params=,
    cursor_getter=, cursor_setter=)]; [range(n)] has [Z.to_nat n]
    elements. *)
Definition run_pagination (pagination : Pagination)
    (base_params : option loc)
  : action U (list pydict * PaginationRunResult) :=
  let* params := copy_params base_params in
  match pagination with
  | PageParamPagination param start end_ =>
      page_loop param params (Z.to_nat (end_ + 1 - start)) start 0 []
  | OffsetPagination offset_param limit_param limit max_pages start_offset =>
      offset_loop offset_param limit_param limit params
        (Z.to_nat max_pages) start_offset 0 []
  | CursorPagination cursor_param cursor_field max_pages initial_cursor =>
      cursor_loop cursor_param params (Z.to_nat max_pages) initial_cursor 0 []
  end.

End Engine.

(** A page-fetch callback that records, at every call, the parameters
    it was handed (the dictionary as it is at the call), in front of the
    caller's own state. *)
Definition recording {U} (fetch_page : loc -> action U (list pydict))
  : loc -> action (list pydict * U) (list pydict) :=
  fun params st =>
    let seen := load params st in
    let '(r, st') := fetch_page params (State (heap st) (snd (user st))) in
    (r, State (heap st') (fst (user st) ++ [seen], user st')).

(** The parameters of the calls made so far. *)
Definition calls {U} (st : state (list pydict * U)) : list pydict :=
  fst (user st).

(** *** Frame: the caller's dictionary *)

(** [m] leaves the dictionary at [b] as it found it. *)
Definition preserves {U A} (b : loc) (m : action U A) : Prop :=
  forall st, heap (m st).2 !! b = heap st !! b.

Section Frame.
Context {U : Type}.
Variable b : loc.

Lemma preserves_ret {A} (a : A) : preserves (U := U) b (ret a).
Proof. by intros st. Qed.

Lemma preserves_bind {A B} (m : action U A) (k : A -> action U B) :
  preserves b m -> (forall a, preserves b (k a)) -> preserves b (bind m k).
Proof.
  intros Hm Hk st. unfold bind. specialize (Hm st).
  destruct (m st) as [[a|e] st1]; simpl in *; [|done].
  by rewrite (Hk a st1).
Qed.

Lemma preserves_finish (all_records : list pydict) n reason :
  preserves (U := U) b (finish all_records n reason).
Proof. apply preserves_ret. Qed.

Lemma preserves_store l d (st : state U) :
  l <> b -> heap (store l d st) !! b = heap st !! b.
Proof. intros Hne. simpl. by rewrite lookup_insert_ne. Qed.

Lemma preserves_setitem l k v : l <> b -> preserves (U := U) b (setitem l k v).
Proof. intros Hne st. by apply preserves_store. Qed.

Lemma preserves_popitem l k : l <> b -> preserves (U := U) b (popitem l k).
Proof. intros Hne st. by apply preserves_store. Qed.

Lemma preserves_contains l k : preserves (U := U) b (contains l k).
Proof. by intros st. Qed.

Variable fetch_page : loc -> action U (list pydict).
Variable cursor_getter : option (action U (option string)).
Variable cursor_setter : option (option string -> action U unit).

Hypothesis fetch_page_frame : forall l, l <> b -> preserves b (fetch_page l).
Hypothesis getter_frame : forall g, cursor_getter = Some g -> preserves b g.
Hypothesis setter_frame :
  forall s c, cursor_setter = Some s -> preserves b (s c).

Lemma preserves_page_loop param params n page pf all_records :
  params <> b ->
  preserves b (page_loop fetch_page param params n page pf all_records).
Proof.
  intros Hne. revert page pf all_records.
  induction n as [|n IH]; intros page pf all_records; simpl.
  - apply preserves_finish.
  - apply preserves_bind; [by apply preserves_setitem|intros _].
    apply preserves_bind; [by apply fetch_page_frame|intros records].
    destruct records; [apply preserves_finish|apply IH].
Qed.

Lemma preserves_offset_loop op lp limit params n offset pf all_records :
  params <> b ->
  preserves b
    (offset_loop fetch_page op lp limit params n offset pf all_records).
Proof.
  intros Hne. revert offset pf all_records.
  induction n as [|n IH]; intros offset pf all_records; simpl.
  - apply preserves_finish.
  - apply preserves_bind; [by apply preserves_setitem|intros _].
    apply preserves_bind; [by apply preserves_setitem|intros _].
    apply preserves_bind; [by apply fetch_page_frame|intros records].
    destruct records; [apply preserves_finish|apply IH].
Qed.

Lemma preserves_cursor_loop cp params n cursor pf all_records :
  params <> b ->
  preserves b
    (cursor_loop fetch_page cursor_getter cursor_setter
       cp params n cursor pf all_records).
Proof.
  intros Hne. revert cursor pf all_records.
  induction n as [|n IH]; intros cursor pf all_records; simpl.
  - apply preserves_finish.
  - apply preserves_bind.
    { destruct cursor; [by apply preserves_setitem|].
      apply preserves_bind; [apply preserves_contains|intros present].
      destruct present; [by apply preserves_popitem|apply preserves_ret]. }
    intros _.
    apply preserves_bind; [by apply fetch_page_frame|intros records].
    destruct records; [apply preserves_finish|].
    destruct cursor_getter as [g|] eqn:Hg; [|apply preserves_finish].
    apply preserves_bind; [by apply getter_frame|intros next].
    apply preserves_bind.
    { destruct cursor_setter as [s|] eqn:Hs;
        [by apply setter_frame|apply preserves_ret]. }
    intros _. destruct next; [apply IH|apply preserves_finish].
Qed.

End Frame.

(** The engine's own dictionary is a new object. *)
Lemma copy_params_fresh {U} (base : option loc) (st : state U)
    (l : loc) (st' : state U) :
  copy_params base st = (Ok l, st') ->
  heap st !! l = None /\
  forall b, is_Some (heap st !! b) -> l <> b /\ heap st' !! b = heap st !! b.
Proof.
  unfold copy_params. intros [= <- <-].
  pose proof (is_fresh (dom (heap st))) as Hfresh.
  split; [by apply not_elem_of_dom|].
  intros b Hb. apply elem_of_dom in Hb.
  assert (fresh (dom (heap st)) <> b) as Hne
    by (intros Heq; rewrite Heq in Hfresh; done).
  split; [done|]. by apply preserves_store.
Qed.

(** C10. For a run of any variant the dictionary the caller passed as
    [base_params] holds after the run what it held before: the engine
    writes its page, offset, limit and cursor keys into a copy of its
    own, and that copy, never the caller's dictionary, is what the
    callbacks are handed.  (The callbacks are the caller's code; they
    are assumed not to write to the caller's dictionary behind the
    engine's back.) *)
Theorem base_params_unchanged {U}
    (fetch_page : loc -> action U (list pydict))
    (cursor_getter : option (action U (option string)))
    (cursor_setter : option (option string -> action U unit))
    (pagination : Pagination) (b : loc) (st : state U) :
  is_Some (heap st !! b) ->
  (forall l, l <> b -> preserves b (fetch_page l)) ->
  (forall g, cursor_getter = Some g -> preserves b g) ->
  (forall s c, cursor_setter = Some s -> preserves b (s c)) ->
  heap (run_pagination fetch_page cursor_getter cursor_setter
          pagination (Some b) st).2 !! b
  = heap st !! b.
Proof.
  intros Hb Hfp Hget Hset. unfold run_pagination, bind.
  destruct (copy_params (Some b) st) as [[l|e] st1] eqn:Hcopy;
    [|discriminate Hcopy].
  destruct (copy_params_fresh _ _ _ _ Hcopy) as [_ Hfresh].
  destruct (Hfresh b Hb) as [Hne Hst1]. rewrite <- Hst1.
  destruct pagination.
  - by apply preserves_page_loop.
  - by apply preserves_offset_loop.
  - by apply preserves_cursor_loop.
Qed.

Lemma base_params_unchanged_witness :
  heap (run_pagination (U := unit)
          (fun _ st => (Ok [[("id", VInt 7)]], st)) None None
          (PageParamPagination "page" 1 3) (Some 1%positive)
          (State {[1%positive := [("q", VStr "x")]]} tt)).2 !! 1%positive
  = heap (State (U := unit) {[1%positive := [("q", VStr "x")]]} tt)
      !! 1%positive.
Proof.
  apply base_params_unchanged.
  - simpl. rewrite lookup_singleton_eq. eexists. reflexivity.
  - intros l _ st. reflexivity.
  - intros g Hg. discriminate Hg.
  - intros s c Hs. discriminate Hs.
Defined.

(** *** Cursor pagination without a cursor getter *)

Lemma recording_calls {U} (fetch_page : loc -> action U (list pydict))
    params st out st' :
  recording fetch_page params st = (out, st') ->
  calls st' = calls st ++ [load params st].
Proof.
  unfold recording, calls.
  destruct (fetch_page params _) as [r st1]. by intros [= <- <-].
Qed.

(** C2. In a cursor run without a cursor getter (and [max_pages >= 1], as
    the schema requires) the engine calls [fetch_page] exactly once and
    stops.  The stop reason is "missing_cursor_getter" when that page
    has records; it is "empty_page" when the page is empty, and an
    exception of the callback is passed on. *)
Theorem cursor_without_getter_one_page {U}
    (fetch_page : loc -> action U (list pydict))
    (cursor_setter : option (option string -> action (list pydict * U) unit))
    (cursor_param cursor_field : string) (max_pages : Z)
    (initial_cursor : option string) (base_params : option loc)
    (st : state (list pydict * U)) :
  1 <= max_pages ->
  exists params st1 out st2,
    recording fetch_page params st1 = (out, st2) /\
    calls st2 = calls st ++ [load params st1] /\
    run_pagination (recording fetch_page) None cursor_setter
      (CursorPagination cursor_param cursor_field max_pages initial_cursor)
      base_params st
    = (match out with
       | Raise e => Raise e
       | Ok [] =>
           Ok ([], {| pages_fetched := 1; records_total := 0;
                      stopped_reason := "empty_page" |})
       | Ok records =>
           Ok (records,
               {| pages_fetched := 1; records_total := len records;
                  stopped_reason := "missing_cursor_getter" |})
       end, st2).
Proof.
  intros Hmax.
  destruct (Z.to_nat max_pages) as [|n] eqn:Hn; [lia|].
  unfold run_pagination, bind at 1.
  destruct (copy_params base_params st) as [[params|e] st0] eqn:Hcopy;
    [|discriminate Hcopy].
  assert (calls st0 = calls st) as Hcalls0
    by (unfold copy_params in Hcopy; by injection Hcopy as <- <-).
  rewrite Hn. simpl. unfold bind at 1.
  set (place := match initial_cursor with
                | Some c => setitem params cursor_param (VStr c)
                | None => _
                end).
  destruct (place st0) as [[[]|e] st1] eqn:Hplace.
  2:{ exfalso. subst place. destruct initial_cursor; [discriminate Hplace|].
      unfold bind, contains in Hplace.
      destruct (dict_has _ _); discriminate Hplace. }
  assert (calls st1 = calls st0) as Hcalls1.
  { subst place. destruct initial_cursor.
    - by injection Hplace as <-.
    - unfold bind, contains in Hplace.
      destruct (dict_has _ _); by injection Hplace as <-. }
  unfold bind.
  destruct (recording fetch_page params st1) as [out st2] eqn:Hrec.
  exists params, st1, out, st2. split; [done|]. split.
  - rewrite (recording_calls _ _ _ _ _ Hrec). congruence.
  - destruct out as [[|r records]|e]; reflexivity.
Qed.

Lemma cursor_without_getter_one_page_witness :
  exists params st1 out st2,
    recording (U := unit) (fun _ st => (Ok [[("id", VInt 7)]], st))
      params st1 = (out, st2) /\
    calls st2 = calls (State ∅ ([], tt)) ++ [load params st1] /\
    run_pagination (recording (fun _ st => (Ok [[("id", VInt 7)]], st)))
      None None (CursorPagination "after" "next" 3 None) None
      (State ∅ ([], tt))
    = (match out with
       | Raise e => Raise e
       | Ok [] =>
           Ok ([], {| pages_fetched := 1; records_total := 0;
                      stopped_reason := "empty_page" |})
       | Ok records =>
           Ok (records,
               {| pages_fetched := 1; records_total := len records;
                  stopped_reason := "missing_cursor_getter" |})
       end, st2).
Proof.
  apply (cursor_without_getter_one_page
           (fun _ st => (Ok [[("id", VInt 7)]], st)) None
           "after" "next" 3 None None (State ∅ ([], tt))).
  lia.
Defined.

(** The claim as the specification has it fails on an empty first page:
    the run stops with "empty_page". *)
Lemma cursor_without_getter_empty_page :
  exists records run,
    (run_pagination (U := list pydict * unit)
       (recording (fun _ st => (Ok [], st))) None None
       (CursorPagination "after" "next" 3 None) None
       (State ∅ ([], tt))).1
    = Ok (records, run)
    /\ pages_fetched run = 1
    /\ stopped_reason run = "empty_page"
    /\ stopped_reason run <> "missing_cursor_getter".
Proof.
  eexists _, _. split; [vm_compute; reflexivity|].
  split; [reflexivity|]. split; [reflexivity|discriminate].
Qed.

(** *** Offset pagination *)

(** The offsets of [n] consecutive pages. *)
Fixpoint offsets_from (n : nat) (offset limit : Z) : list Z :=
  match n with
  | O => []
  | S n' => offset :: offsets_from n' (offset + limit) limit
  end.

Lemma load_store {U} l d (st : state U) : load l (store l d st) = d.
Proof. unfold load, store. simpl. by rewrite lookup_insert_eq. Qed.

Section OffsetPages.
Context {U : Type}.
Variable fetch_page : loc -> action U (list pydict).
Variables offset_param limit_param : string.
Variable limit : Z.

Hypothesis distinct_params : offset_param <> limit_param.
Hypothesis pages_not_empty :
  forall l s, exists records s',
    fetch_page l s = (Ok records, s') /\ records <> [].

Lemma offset_loop_all_pages params n :
  forall offset pf all_records (st : state (list pydict * U)),
  exists records st' seen,
    offset_loop (recording fetch_page) offset_param limit_param limit
      params n offset pf all_records st
    = (Ok (records,
           {| pages_fetched := pf + Z.of_nat n;
              records_total := len records;
              stopped_reason := "max_pages" |}), st')
    /\ calls st' = calls st ++ seen
    /\ map (dict_get offset_param) seen
       = map (fun o => Some (VInt o)) (offsets_from n offset limit).
Proof.
  induction n as [|n IH]; intros offset pf all_records st.
  - exists all_records, st, []. simpl.
    rewrite Z.add_0_r, app_nil_r. done.
  - cbn [offset_loop]. unfold bind, setitem.
    set (st1 := store params _ st).
    set (st2 := store params _ st1).
    destruct (recording fetch_page params st2) as [out st3] eqn:Hrec.
    pose proof (recording_calls _ _ _ _ _ Hrec) as Hcalls.
    unfold recording in Hrec.
    destruct (pages_not_empty params (State (heap st2) (user st2).2))
      as (records & s' & Hfp & Hne).
    rewrite Hfp in Hrec. injection Hrec as <- <-.
    destruct records as [|r records]; [done|].
    destruct (IH (offset + limit) (pf + 1) (all_records ++ r :: records)
                (State (heap s') ((user st).1 ++ [load params st2], user s')))
      as (recs & st' & seen & Hrun & Hseen & Hoff).
    exists recs, st', (load params st2 :: seen).
    split.
    { replace (pf + Z.of_nat (S n)) with (pf + 1 + Z.of_nat n) by lia.
      exact Hrun. }
    split.
    { rewrite Hseen. unfold calls. simpl. by rewrite <- app_assoc. }
    simpl. rewrite Hoff. f_equal.
    subst st2 st1. rewrite !load_store.
    rewrite dict_get_set_ne by congruence.
    apply dict_get_set_eq.
Qed.

End OffsetPages.

(** C5. An offset run with [start_offset = 0], [limit = 20] and
    [max_pages = 5], with two different names for the offset and the
    limit parameter, in which every page has records, fetches 5 pages
    and stops with "max_pages"; the values [fetch_page] finds under the
    offset parameter at its five calls are 0, 20, 40, 60, 80. *)
Theorem offset_five_pages {U}
    (fetch_page : loc -> action U (list pydict))
    (cursor_getter : option (action (list pydict * U) (option string)))
    (cursor_setter : option (option string -> action (list pydict * U) unit))
    (offset_param limit_param : string) (base_params : option loc)
    (st : state (list pydict * U)) :
  offset_param <> limit_param ->
  (forall l s, exists records s',
      fetch_page l s = (Ok records, s') /\ records <> []) ->
  exists records st' seen,
    run_pagination (recording fetch_page) cursor_getter cursor_setter
      (OffsetPagination offset_param limit_param 20 5 0) base_params st
    = (Ok (records,
           {| pages_fetched := 5; records_total := len records;
              stopped_reason := "max_pages" |}), st')
    /\ calls st' = calls st ++ seen
    /\ map (dict_get offset_param) seen
       = [Some (VInt 0); Some (VInt 20); Some (VInt 40);
          Some (VInt 60); Some (VInt 80)].
Proof.
  intros Hne Hpages. unfold run_pagination, bind at 1.
  destruct (copy_params base_params st) as [[params|e] st0] eqn:Hcopy;
    [|discriminate Hcopy].
  assert (calls st0 = calls st) as Hcalls0
    by (unfold copy_params in Hcopy; by injection Hcopy as <- <-).
  destruct (offset_loop_all_pages fetch_page offset_param limit_param 20
              Hne Hpages params (Z.to_nat 5) 0 0 [] st0)
    as (records & st' & seen & Hrun & Hseen & Hoff).
  exists records, st', seen. rewrite Hrun. split; [done|].
  split; [congruence|exact Hoff].
Qed.

Lemma offset_five_pages_witness :
  exists records st' seen,
    run_pagination (U := list pydict * unit)
      (recording (fun _ st => (Ok [[("id", VInt 7)]], st))) None None
      (OffsetPagination "offset" "limit" 20 5 0) None (State ∅ ([], tt))
    = (Ok (records,
           {| pages_fetched := 5; records_total := len records;
              stopped_reason := "max_pages" |}), st')
    /\ calls st' = calls (State ∅ ([], tt)) ++ seen
    /\ map (dict_get "offset") seen
       = [Some (VInt 0); Some (VInt 20); Some (VInt 40);
          Some (VInt 60); Some (VInt 80)].
Proof.
  apply (offset_five_pages (U := unit)
           (fun _ st => (Ok [[("id", VInt 7)]], st)) None None
           "offset" "limit" None (State ∅ ([], tt))).
  - discriminate.
  - intros l s. eexists _, _. split; [reflexivity|discriminate].
Defined.

(** The claim as the specification has it fails when one name serves as
    offset and as limit parameter: the limit is written over the offset
    before every call. *)
Lemma offset_same_param_counterexample :
  map (dict_get "n")
    (calls (run_pagination (U := list pydict * unit)
              (recording (fun _ st => (Ok [[("id", VInt 7)]], st)))
              None None
              (OffsetPagination "n" "n" 20 5 0) None
              (State ∅ ([], tt))).2)
  = [Some (VInt 20); Some (VInt 20); Some (VInt 20);
     Some (VInt 20); Some (VInt 20)]
  /\ map (dict_get "n")
       (calls (run_pagination (U := list pydict * unit)
                 (recording (fun _ st => (Ok [[("id", VInt 7)]], st)))
                 None None
                 (OffsetPagination "n" "n" 20 5 0) None
                 (State ∅ ([], tt))).2)
     <> [Some (VInt 0); Some (VInt 20); Some (VInt 40);
         Some (VInt 60); Some (VInt 80)].
Proof. split; [vm_compute; reflexivity|vm_compute; discriminate]. Qed.

(** *** What every run reports *)

(** The number of iterations a variant allows. *)
Definition page_budget (pagination : Pagination) : Z :=
  match pagination with
  | PageParamPagination _ start end_ => Z.max 0 (end_ + 1 - start)
  | OffsetPagination _ _ _ max_pages _ => Z.max 0 max_pages
  | CursorPagination _ _ max_pages _ => Z.max 0 max_pages
  end.

(** The stop reasons a variant can report. *)
Definition reasons_of (pagination : Pagination) : list string :=
  match pagination with
  | PageParamPagination _ _ _ => ["end_reached"; "empty_page"]
  | OffsetPagination _ _ _ _ _ => ["max_pages"; "empty_page"]
  | CursorPagination _ _ _ _ =>
      ["max_pages"; "empty_page"; "missing_cursor_getter"; "cursor_missing"]
  end.

(** A report that fits the records returned with it. *)
Definition consistent (reasons : list string) (low high : Z)
    (before : list pydict)
    (out : list pydict * PaginationRunResult) : Prop :=
  records_total (snd out) = len (fst out)
  /\ In (stopped_reason (snd out)) reasons
  /\ low <= pages_fetched (snd out) <= high
  /\ exists more, fst out = before ++ more.

Section Reports.
Context {U : Type}.
Variable fetch_page : loc -> action U (list pydict).
Variable cursor_getter : option (action U (option string)).
Variable cursor_setter : option (option string -> action U unit).

Lemma finish_consistent reasons low high before all_records pf reason
    (st st' : state U) out :
  finish all_records pf reason st = (Ok out, st') ->
  In reason reasons -> low <= pf <= high ->
  (exists more, all_records = before ++ more) ->
  consistent reasons low high before out.
Proof.
  intros [= <- <-] Hreason Hpf Hmore. unfold consistent.
  cbn [fst snd records_total stopped_reason pages_fetched].
  repeat split; try done; lia.
Qed.

Lemma page_loop_consistent param params n :
  forall page pf all_records (st st' : state U) out,
    page_loop fetch_page param params n page pf all_records st
    = (Ok out, st') ->
    consistent ["end_reached"; "empty_page"] pf (pf + Z.of_nat n)
      all_records out.
Proof.
  induction n as [|n IH]; intros page pf all_records st st' out Hrun.
  - eapply finish_consistent; [exact Hrun|by left|lia|].
    exists []. by rewrite app_nil_r.
  - cbn [page_loop] in Hrun. unfold bind, setitem in Hrun.
    destruct (fetch_page params _) as [[records|e] st1]; [|done].
    destruct records as [|r records].
    + eapply finish_consistent; [exact Hrun|by right; left|lia|].
      exists []. by rewrite app_nil_r.
    + apply IH in Hrun as (Htotal & Hreason & Hpf & more & Hmore).
      repeat split; [done|done|lia|lia|].
      exists ((r :: records) ++ more). by rewrite Hmore, app_assoc.
Qed.

Lemma offset_loop_consistent op lp limit params n :
  forall offset pf all_records (st st' : state U) out,
    offset_loop fetch_page op lp limit params n offset pf all_records st
    = (Ok out, st') ->
    consistent ["max_pages"; "empty_page"] pf (pf + Z.of_nat n)
      all_records out.
Proof.
  induction n as [|n IH]; intros offset pf all_records st st' out Hrun.
  - eapply finish_consistent; [exact Hrun|by left|lia|].
    exists []. by rewrite app_nil_r.
  - cbn [offset_loop] in Hrun. unfold bind, setitem in Hrun.
    destruct (fetch_page params _) as [[records|e] st1]; [|done].
    destruct records as [|r records].
    + eapply finish_consistent; [exact Hrun|by right; left|lia|].
      exists []. by rewrite app_nil_r.
    + apply IH in Hrun as (Htotal & Hreason & Hpf & more & Hmore).
      repeat split; [done|done|lia|lia|].
      exists ((r :: records) ++ more). by rewrite Hmore, app_assoc.
Qed.

Lemma cursor_loop_consistent cp params n :
  forall cursor pf all_records (st st' : state U) out,
    cursor_loop fetch_page cursor_getter cursor_setter cp params n cursor
      pf all_records st
    = (Ok out, st') ->
    consistent
      ["max_pages"; "empty_page"; "missing_cursor_getter"; "cursor_missing"]
      pf (pf + Z.of_nat n) all_records out.
Proof.
  induction n as [|n IH]; intros cursor pf all_records st st' out Hrun.
  - eapply finish_consistent; [exact Hrun|by left|lia|].
    exists []. by rewrite app_nil_r.
  - cbn [cursor_loop] in Hrun. unfold bind at 1 in Hrun.
    match type of Hrun with
    | match ?x with _ => _ end = _ => destruct x as [[[]|e] st0]; [|done]
    end.
    unfold bind at 1 in Hrun.
    destruct (fetch_page params st0) as [[records|e] st1]; [|done].
    destruct records as [|r records].
    + eapply finish_consistent; [exact Hrun|by right; left|lia|].
      exists []. by rewrite app_nil_r.
    + destruct cursor_getter as [getter|].
      2:{ eapply finish_consistent;
            [exact Hrun|by right; right; left|lia|by eexists]. }
      unfold bind at 1 in Hrun.
      destruct (getter st1) as [[next|e] st2]; [|done].
      unfold bind at 1 in Hrun.
      match type of Hrun with
      | match ?x with _ => _ end = _ => destruct x as [[[]|e] st3]; [|done]
      end.
      destruct next as [c|].
      * apply IH in Hrun as (Htotal & Hreason & Hpf & more & Hmore).
        repeat split; [done|done|lia|lia|].
        exists ((r :: records) ++ more). by rewrite Hmore, app_assoc.
      * eapply finish_consistent;
          [exact Hrun|by right; right; right; left|lia|by eexists].
Qed.

(** Whatever the callbacks do, a run that returns reports the length of
    the records it returns, a number of pages between 0 and the budget
    of its variant, and one of the stop reasons of its variant. *)
Theorem run_report_consistent (pagination : Pagination)
    (base_params : option loc) (st st' : state U)
    (records : list pydict) (report : PaginationRunResult) :
  run_pagination fetch_page cursor_getter cursor_setter pagination
    base_params st = (Ok (records, report), st') ->
  records_total report = len records
  /\ In (stopped_reason report) (reasons_of pagination)
  /\ 0 <= pages_fetched report <= page_budget pagination.
Proof.
  unfold run_pagination, bind at 1.
  destruct (copy_params base_params st) as [[params|e] st0]; [|done].
  intros Hrun.
  assert (consistent (reasons_of pagination) 0 (page_budget pagination) []
            (records, report)) as (Htotal & Hreason & Hpf & _);
    [|done].
  destruct pagination; cbn [reasons_of page_budget].
  - apply page_loop_consistent in Hrun.
    by replace (Z.max 0 (end_ + 1 - start))
      with (0 + Z.of_nat (Z.to_nat (end_ + 1 - start))) by lia.
  - apply offset_loop_consistent in Hrun.
    by replace (Z.max 0 max_pages)
      with (0 + Z.of_nat (Z.to_nat max_pages)) by lia.
  - apply cursor_loop_consistent in Hrun.
    by replace (Z.max 0 max_pages)
      with (0 + Z.of_nat (Z.to_nat max_pages)) by lia.
Qed.

End Reports.

Lemma run_report_consistent_witness :
  records_total
    {| pages_fetched := 2; records_total := 1; stopped_reason := "empty_page" |}
  = len [[("id", VInt 7)]]
  /\ In "empty_page" (reasons_of (PageParamPagination "page" 1 3))
  /\ 0 <= 2 <= page_budget (PageParamPagination "page" 1 3).
Proof.
  apply (run_report_consistent (U := bool)
           (fun _ st =>
              (Ok (if user st then [[("id", VInt 7)]] else []),
               State (heap st) false))
           None None (PageParamPagination "page" 1 3) None
           (State ∅ true)
           (State {[1%positive := [("page", VInt 2)]]} false)).
  vm_compute. reflexivity.
Defined.

(** *** The pages a run asks for *)

Lemma offsets_from_nth n :
  forall offset limit,
    offsets_from n offset limit
    = map (fun i => offset + Z.of_nat i * limit) (seq 0 n).
Proof.
  induction n as [|n IH]; intros offset limit; [done|].
  cbn [offsets_from seq map]. f_equal; [lia|].
  rewrite IH, <- seq_shift, map_map. apply map_ext. intros i. lia.
Qed.

Section AllPages.
Context {U : Type}.
Variable fetch_page : loc -> action U (list pydict).
Variable param : string.

Hypothesis pages_not_empty :
  forall l s, exists records s',
    fetch_page l s = (Ok records, s') /\ records <> [].

Lemma page_loop_all_pages params n :
  forall page pf all_records (st : state (list pydict * U)),
  exists records st' seen,
    page_loop (recording fetch_page) param params n page pf all_records st
    = (Ok (records,
           {| pages_fetched := pf + Z.of_nat n;
              records_total := len records;
              stopped_reason := "end_reached" |}), st')
    /\ calls st' = calls st ++ seen
    /\ map (dict_get param) seen
       = map (fun p => Some (VInt p)) (offsets_from n page 1).
Proof.
  induction n as [|n IH]; intros page pf all_records st.
  - exists all_records, st, []. simpl.
    rewrite Z.add_0_r, app_nil_r. done.
  - cbn [page_loop]. unfold bind, setitem.
    set (st1 := store params _ st).
    destruct (recording fetch_page params st1) as [out st2] eqn:Hrec.
    unfold recording in Hrec.
    destruct (pages_not_empty params (State (heap st1) (user st1).2))
      as (records & s' & Hfp & Hne).
    rewrite Hfp in Hrec. injection Hrec as <- <-.
    destruct records as [|r records]; [done|].
    destruct (IH (page + 1) (pf + 1) (all_records ++ r :: records)
                (State (heap s') ((user st).1 ++ [load params st1], user s')))
      as (recs & st' & seen & Hrun & Hseen & Hpages).
    exists recs, st', (load params st1 :: seen).
    split.
    { replace (pf + Z.of_nat (S n)) with (pf + 1 + Z.of_nat n) by lia.
      exact Hrun. }
    split.
    { rewrite Hseen. unfold calls. simpl. by rewrite <- app_assoc. }
    simpl. rewrite Hpages. f_equal.
    subst st1. rewrite load_store. apply dict_get_set_eq.
Qed.

End AllPages.

(** A page-number run in which every page has records asks for the
    pages start, start + 1, ..., end, in this order and each once, and
    stops with "end_reached" after end + 1 - start pages; with end
    below start it asks for nothing. *)
Theorem page_run_asks_every_page {U}
    (fetch_page : loc -> action U (list pydict))
    (cursor_getter : option (action (list pydict * U) (option string)))
    (cursor_setter : option (option string -> action (list pydict * U) unit))
    (param : string) (start end_ : Z) (base_params : option loc)
    (st : state (list pydict * U)) :
  (forall l s, exists records s',
      fetch_page l s = (Ok records, s') /\ records <> []) ->
  exists records st' seen,
    run_pagination (recording fetch_page) cursor_getter cursor_setter
      (PageParamPagination param start end_) base_params st
    = (Ok (records,
           {| pages_fetched := Z.max 0 (end_ + 1 - start);
              records_total := len records;
              stopped_reason := "end_reached" |}), st')
    /\ calls st' = calls st ++ seen
    /\ map (dict_get param) seen
       = map (fun i => Some (VInt (start + Z.of_nat i)))
           (seq 0 (Z.to_nat (end_ + 1 - start))).
Proof.
  intros Hpages. unfold run_pagination, bind at 1.
  destruct (copy_params base_params st) as [[params|e] st0] eqn:Hcopy;
    [|discriminate Hcopy].
  assert (calls st0 = calls st) as Hcalls0
    by (unfold copy_params in Hcopy; by injection Hcopy as <- <-).
  destruct (page_loop_all_pages fetch_page param Hpages params
              (Z.to_nat (end_ + 1 - start)) start 0 [] st0)
    as (records & st' & seen & Hrun & Hseen & Hasked).
  exists records, st', seen. split.
  { rewrite Hrun. repeat f_equal. lia. }
  split; [congruence|].
  rewrite Hasked, offsets_from_nth, map_map. apply map_ext. intros i.
  do 2 f_equal. lia.
Qed.

Lemma page_run_asks_every_page_witness :
  exists records st' seen,
    run_pagination (U := list pydict * unit)
      (recording (fun _ st => (Ok [[("id", VInt 7)]], st))) None None
      (PageParamPagination "page" 3 5) None (State ∅ ([], tt))
    = (Ok (records,
           {| pages_fetched := Z.max 0 (5 + 1 - 3);
              records_total := len records;
              stopped_reason := "end_reached" |}), st')
    /\ calls st' = calls (State ∅ ([], tt)) ++ seen
    /\ map (dict_get "page") seen
       = map (fun i => Some (VInt (3 + Z.of_nat i)))
           (seq 0 (Z.to_nat (5 + 1 - 3))).
Proof.
  apply (page_run_asks_every_page (U := unit)
           (fun _ st => (Ok [[("id", VInt 7)]], st)) None None
           "page" 3 5 None (State ∅ ([], tt))).
  intros l s. eexists _, _. split; [reflexivity|discriminate].
Defined.

(** An offset run with two different parameter names in which every
    page has records makes max_pages calls and stops with "max_pages";
    call number i (from 0) finds start_offset + i * limit under the
    offset parameter. *)
Theorem offset_run_advances_by_limit {U}
    (fetch_page : loc -> action U (list pydict))
    (cursor_getter : option (action (list pydict * U) (option string)))
    (cursor_setter : option (option string -> action (list pydict * U) unit))
    (offset_param limit_param : string) (limit max_pages start_offset : Z)
    (base_params : option loc) (st : state (list pydict * U)) :
  offset_param <> limit_param ->
  (forall l s, exists records s',
      fetch_page l s = (Ok records, s') /\ records <> []) ->
  exists records st' seen,
    run_pagination (recording fetch_page) cursor_getter cursor_setter
      (OffsetPagination offset_param limit_param limit max_pages start_offset)
      base_params st
    = (Ok (records,
           {| pages_fetched := Z.max 0 max_pages;
              records_total := len records;
              stopped_reason := "max_pages" |}), st')
    /\ calls st' = calls st ++ seen
    /\ map (dict_get offset_param) seen
       = map (fun i => Some (VInt (start_offset + Z.of_nat i * limit)))
           (seq 0 (Z.to_nat max_pages)).
Proof.
  intros Hne Hpages. unfold run_pagination, bind at 1.
  destruct (copy_params base_params st) as [[params|e] st0] eqn:Hcopy;
    [|discriminate Hcopy].
  assert (calls st0 = calls st) as Hcalls0
    by (unfold copy_params in Hcopy; by injection Hcopy as <- <-).
  destruct (offset_loop_all_pages fetch_page offset_param limit_param limit
              Hne Hpages params (Z.to_nat max_pages) start_offset 0 [] st0)
    as (records & st' & seen & Hrun & Hseen & Hoff).
  exists records, st', seen. split.
  { rewrite Hrun. repeat f_equal. lia. }
  split; [congruence|].
  by rewrite Hoff, offsets_from_nth, map_map.
Qed.

Lemma offset_run_advances_by_limit_witness :
  exists records st' seen,
    run_pagination (U := list pydict * unit)
      (recording (fun _ st => (Ok [[("id", VInt 7)]], st))) None None
      (OffsetPagination "skip" "take" 25 3 10) None (State ∅ ([], tt))
    = (Ok (records,
           {| pages_fetched := Z.max 0 3;
              records_total := len records;
              stopped_reason := "max_pages" |}), st')
    /\ calls st' = calls (State ∅ ([], tt)) ++ seen
    /\ map (dict_get "skip") seen
       = map (fun i => Some (VInt (10 + Z.of_nat i * 25)))
           (seq 0 (Z.to_nat 3)).
Proof.
  apply (offset_run_advances_by_limit (U := unit)
           (fun _ st => (Ok [[("id", VInt 7)]], st)) None None
           "skip" "take" 25 3 10 None (State ∅ ([], tt))).
  - discriminate.
  - intros l s. eexists _, _. split; [reflexivity|discriminate].
Defined.

(** *** A server that answers from a script *)

(** A page-fetch callback that hands out the pages of a list, one per
    call, and an empty page once the list is used up. *)
Definition scripted : loc -> action (list (list pydict)) (list pydict) :=
  fun _ st =>
    match user st with
    | [] => (Ok [], st)
    | page :: rest => (Ok page, State (heap st) rest)
    end.

Lemma page_loop_scripted param params (full : list (list pydict)) rest :
  Forall (fun page => page <> []) full ->
  forall n page pf all_records (st : state (list (list pydict))),
    (List.length full < n)%nat ->
    user st = full ++ [] :: rest ->
    exists st',
      page_loop scripted param params n page pf all_records st
      = (Ok (all_records ++ concat full,
             {| pages_fetched := pf + len full + 1;
                records_total := len (all_records ++ concat full);
                stopped_reason := "empty_page" |}), st')
      /\ user st' = rest.
Proof.
  induction 1 as [|first full Hfirst Hfull IH];
    intros n page pf all_records st Hlen Hscript.
  - destruct n as [|n]; [simpl in Hlen; lia|].
    cbn [page_loop]. unfold bind, setitem. unfold scripted at 1.
    cbn [user store]. rewrite Hscript. cbn [app]. eexists. split.
    + unfold finish, ret. cbn [concat]. rewrite app_nil_r.
      replace (pf + len (@nil (list pydict)) + 1) with (pf + 1)
        by (unfold len; simpl; lia).
      reflexivity.
    + reflexivity.
  - destruct n as [|n]; [simpl in Hlen; lia|].
    cbn [page_loop]. unfold bind, setitem. unfold scripted at 1.
    cbn [user store]. rewrite Hscript. cbn [app].
    destruct first as [|r first]; [done|].
    destruct (IH n (page + 1) (pf + 1) (all_records ++ r :: first)
                (State (<[params := dict_set param (VInt page)
                                      (load params st)]> (heap st))
                   (full ++ [] :: rest)))
      as (st' & Hrun & Hrest); [simpl in Hlen; lia|done|].
    exists st'. split; [|done]. etransitivity; [exact Hrun|].
    cbn [concat]. rewrite <- app_assoc.
    replace (pf + len ((r :: first) :: full) + 1)
      with (pf + 1 + len full + 1)
      by (unfold len; cbn [List.length]; lia).
    reflexivity.
Qed.

(** When the first empty page comes after k pages with records, a
    page-number run with room for more than k pages makes k + 1 calls,
    returns the records of the k pages, in order, and stops with
    "empty_page"; the pages after the empty one are not asked for. *)
Theorem page_run_stops_at_empty_page
    (param : string) (start end_ : Z) (base_params : option loc)
    (full rest : list (list pydict)) (h : gmap loc pydict) :
  Forall (fun page => page <> []) full ->
  len full < end_ + 1 - start ->
  exists st',
    run_pagination scripted None None
      (PageParamPagination param start end_) base_params
      (State h (full ++ [] :: rest))
    = (Ok (concat full,
           {| pages_fetched := len full + 1;
              records_total := len (concat full);
              stopped_reason := "empty_page" |}), st')
    /\ user st' = rest.
Proof.
  intros Hfull Hlen. unfold run_pagination, bind at 1.
  destruct (copy_params base_params _) as [[params|e] st0] eqn:Hcopy;
    [|discriminate Hcopy].
  assert (user st0 = full ++ [] :: rest) as Huser
    by (unfold copy_params in Hcopy; by injection Hcopy as <- <-).
  destruct (page_loop_scripted param params full rest Hfull
              (Z.to_nat (end_ + 1 - start)) start 0 [] st0)
    as (st' & Hrun & Hrest); [unfold len in Hlen; lia|done|].
  exists st'. split; [|done]. rewrite Hrun. done.
Qed.

Lemma page_run_stops_at_empty_page_witness :
  exists st',
    run_pagination scripted None None
      (PageParamPagination "page" 1 3) None
      (State ∅ ([[ [("id", VInt 1)]; [("id", VInt 2)] ]]
                ++ [] :: [[ [("id", VInt 3)] ]]))
    = (Ok (concat [[ [("id", VInt 1)]; [("id", VInt 2)] ]],
           {| pages_fetched := len [[ [("id", VInt 1)]; [("id", VInt 2)] ]] + 1;
              records_total :=
                len (concat [[ [("id", VInt 1)]; [("id", VInt 2)] ]]);
              stopped_reason := "empty_page" |}), st')
    /\ user st' = [[ [("id", VInt 3)] ]].
Proof.
  apply (page_run_stops_at_empty_page "page" 1 3 None
           [[ [("id", VInt 1)]; [("id", VInt 2)] ]]
           [[ [("id", VInt 3)] ]] ∅).
  - repeat constructor; discriminate.
  - vm_compute. reflexivity.
Defined.

(** *** Following a cursor *)

(** The answers of a cursor API: the records of a page, and the cursor
    of the next one. *)
Definition cursor_script : Type := list (list pydict * option string).

(** The closures of the XHR pass over a scripted API: the page fetch
    keeps the cursor of the answer in the holder, the getter reads the
    holder and the setter writes it. *)
Definition scripted_cursor_page
  : loc -> action (cursor_script * option string) (list pydict) :=
  fun _ st =>
    match fst (user st) with
    | [] => (Ok [], State (heap st) ([], None))
    | (records, next) :: rest => (Ok records, State (heap st) (rest, next))
    end.

Definition held_cursor
  : action (cursor_script * option string) (option string) :=
  fun st => (Ok (snd (user st)), st).

Definition hold_cursor (c : option string)
  : action (cursor_script * option string) unit :=
  fun st => (Ok tt, State (heap st) (fst (user st), c)).

(** A callback of the caller, under the record of the calls. *)
Definition lifted {U A} (m : action U A) : action (list pydict * U) A :=
  fun st =>
    let '(r, st') := m (State (heap st) (snd (user st))) in
    (r, State (heap st') (fst (user st), user st')).

(** The parameters as the cursor loop leaves them before a call. *)
Definition placed (cursor_param : string) (cursor : option string)
    (d : pydict) : pydict :=
  match cursor with
  | Some c => dict_set cursor_param (VStr c) d
  | None => if dict_has cursor_param d then dict_pop cursor_param d else d
  end.

Lemma dict_get_not_key {A} k (d : list (string * A)) :
  ~ In k (dict_keys d) -> dict_get k d = None.
Proof.
  induction d as [|[k' v] d IH]; [done|]. simpl. intros Hnot.
  destruct (String.eqb k k') eqn:E.
  - apply String.eqb_eq in E. subst. exfalso. apply Hnot. by left.
  - apply IH. intros Hin. apply Hnot. by right.
Qed.

(** In a dictionary with each key once, a popped key is gone. *)
Lemma dict_get_pop {A} k (d : list (string * A)) :
  NoDup (dict_keys d) -> dict_get k (dict_pop k d) = None.
Proof.
  induction d as [|[k' v] d IH]; [done|]. simpl. intros Hnodup.
  apply NoDup_cons in Hnodup as [Hnot Hnodup].
  destruct (String.eqb k k') eqn:E.
  - apply String.eqb_eq in E. subst k'.
    apply dict_get_not_key. by rewrite <- list_elem_of_In.
  - simpl. rewrite E. by apply IH.
Qed.

Lemma placed_cursor cp cursor (d : pydict) :
  NoDup (dict_keys d) ->
  dict_get cp (placed cp cursor d) = option_map VStr cursor.
Proof.
  intros Hnodup. destruct cursor as [c|]; simpl.
  - apply dict_get_set_eq.
  - unfold dict_has. destruct (dict_get cp d) eqn:Hget; [|done].
    by apply dict_get_pop.
Qed.

(** The state as the cursor loop leaves it before a call. *)
Definition after_place {U} (cursor_param : string) (cursor : option string)
    (params : loc) (st : state U) : state U :=
  match cursor with
  | Some c => store params (dict_set cursor_param (VStr c) (load params st)) st
  | None =>
      if dict_has cursor_param (load params st)
      then store params (dict_pop cursor_param (load params st)) st
      else st
  end.

Lemma load_after_place {U} cp cursor params (st : state U) :
  load params (after_place cp cursor params st)
  = placed cp cursor (load params st).
Proof.
  unfold after_place, placed. destruct cursor as [c|].
  - apply load_store.
  - destruct (dict_has cp (load params st)); [apply load_store|done].
Qed.

Lemma user_after_place {U} cp cursor params (st : state U) :
  user (after_place cp cursor params st) = user st.
Proof.
  unfold after_place. destruct cursor as [c|]; [done|].
  by destruct (dict_has cp (load params st)).
Qed.

Section Chain.
Variable cursor_param : string.
Variable params : loc.
Variables (last : list pydict) (rest : cursor_script).
Hypothesis last_not_empty : last <> [].

Definition chain (pages : list (list pydict * string)) : cursor_script :=
  map (fun p => (fst p, Some (snd p))) pages ++ (last, None) :: rest.

Lemma cursor_loop_chain (pages : list (list pydict * string)) :
  Forall (fun p => fst p <> []) pages ->
  forall n cursor pf all_records
         (st : state (list pydict * (cursor_script * option string))),
    (List.length pages < n)%nat ->
    fst (snd (user st)) = chain pages ->
    dict_get cursor_param (placed cursor_param cursor (load params st))
    = option_map VStr cursor ->
    exists st' seen,
      cursor_loop (recording scripted_cursor_page)
        (Some (lifted held_cursor))
        (Some (fun c => lifted (hold_cursor c)))
        cursor_param params n cursor pf all_records st
      = (Ok (all_records ++ concat (map fst pages) ++ last,
             {| pages_fetched := pf + len pages + 1;
                records_total :=
                  len (all_records ++ concat (map fst pages) ++ last);
                stopped_reason := "cursor_missing" |}), st')
      /\ calls st' = calls st ++ seen
      /\ map (dict_get cursor_param) seen
         = map (option_map VStr)
             (cursor :: map (fun p => Some (snd p)) pages)
      /\ fst (snd (user st')) = rest.
Proof.
  induction 1 as [|[records c] pages Hfirst Hpages IH];
    intros n cursor pf all_records st Hlen Hscript Hplaced;
    (destruct n as [|n]; [simpl in Hlen; lia|]).
  - cbn [cursor_loop]. unfold bind at 1.
    set (place := match cursor with Some c => _ | None => _ end).
    assert (place st = (Ok tt, after_place cursor_param cursor params st))
      as ->.
    { subst place. destruct cursor as [c|]; [done|].
      unfold bind, contains, after_place.
      by destruct (dict_has cursor_param (load params st)). }
    unfold bind at 1. unfold recording at 1. unfold scripted_cursor_page at 1.
    cbn [user heap fst snd]. rewrite user_after_place, Hscript.
    cbn [chain map app].
    destruct last as [|r last']; [done|].
    unfold bind at 1. cbn.
    eexists _, [_]. split; [|split; [|split]].
    + unfold finish, ret.
      replace (pf + len (@nil (list pydict * string)) + 1) with (pf + 1)
        by (unfold len; simpl; lia).
      reflexivity.
    + reflexivity.
    + cbn [map]. rewrite load_after_place. by rewrite Hplaced.
    + reflexivity.
  - cbn [cursor_loop]. unfold bind at 1.
    set (place := match cursor with Some c => _ | None => _ end).
    assert (place st = (Ok tt, after_place cursor_param cursor params st))
      as ->.
    { subst place. destruct cursor as [c0|]; [done|].
      unfold bind, contains, after_place.
      by destruct (dict_has cursor_param (load params st)). }
    unfold bind at 1. unfold recording at 1. unfold scripted_cursor_page at 1.
    cbn [user heap fst snd]. rewrite user_after_place, Hscript.
    cbn [chain map app fst snd].
    cbn [fst] in Hfirst.
    destruct records as [|r records]; [done|].
    unfold bind at 1. unfold lifted at 1, held_cursor at 1.
    cbn [user heap fst snd].
    unfold bind at 1. unfold lifted at 1, hold_cursor at 1.
    cbn [user heap fst snd].
    edestruct (IH n (Some c) (pf + 1) (all_records ++ r :: records))
      as (st' & seen & Hrun & Hseen & Hcursors & Hrest);
      [simpl in Hlen; lia| | |].
    3:{ exists st', (placed cursor_param cursor (load params st) :: seen).
        split; [|split; [|split]].
        - etransitivity; [exact Hrun|].
          cbn [map concat fst]. rewrite <- !app_assoc.
          replace (pf + len ((r :: records, c) :: pages) + 1)
            with (pf + 1 + len pages + 1)
            by (unfold len; cbn [List.length]; lia).
          reflexivity.
        - rewrite Hseen. unfold calls. cbn [user fst].
          rewrite load_after_place. by rewrite <- app_assoc.
        - cbn [map]. rewrite Hcursors, Hplaced. reflexivity.
        - exact Hrest. }
    + reflexivity.
    + apply dict_get_set_eq.
Qed.

End Chain.

(** A cursor run over an API that answers k pages with records and a
    next cursor, then a page with records and no cursor, with room for
    more than k pages: it makes k + 1 calls, returns the records of the
    k + 1 pages in order and stops with "cursor_missing".  The first
    call carries the initial cursor (no cursor key at all when there is
    none, even if the base parameters had one), and every later call
    carries the cursor the page before it answered. *)
Theorem cursor_run_follows_cursors
    (cursor_param cursor_field : string) (max_pages : Z)
    (initial_cursor : option string) (base_params : option loc)
    (pages : list (list pydict * string)) (last : list pydict)
    (rest : cursor_script) (holder : option string)
    (h : gmap loc pydict) :
  (forall b, base_params = Some b ->
             NoDup (dict_keys (default [] (h !! b)))) ->
  Forall (fun p => fst p <> []) pages ->
  last <> [] ->
  len pages < max_pages ->
  exists st' seen,
    run_pagination (recording scripted_cursor_page)
      (Some (lifted held_cursor)) (Some (fun c => lifted (hold_cursor c)))
      (CursorPagination cursor_param cursor_field max_pages initial_cursor)
      base_params (State h ([], (chain last rest pages, holder)))
    = (Ok (concat (map fst pages) ++ last,
           {| pages_fetched := len pages + 1;
              records_total := len (concat (map fst pages) ++ last);
              stopped_reason := "cursor_missing" |}), st')
    /\ calls st' = seen
    /\ map (dict_get cursor_param) seen
       = map (option_map VStr)
           (initial_cursor :: map (fun p => Some (snd p)) pages)
    /\ fst (snd (user st')) = rest.
Proof.
  intros Hbase Hpages Hlast Hlen. unfold run_pagination, bind at 1.
  destruct (copy_params base_params _) as [[params|e] st0] eqn:Hcopy;
    [|discriminate Hcopy].
  unfold copy_params in Hcopy. injection Hcopy as <- <-.
  set (st0 := store _ _ _).
  destruct (cursor_loop_chain cursor_param (fresh (dom h)) last rest Hlast
              pages Hpages (Z.to_nat max_pages) initial_cursor 0 [] st0)
    as (st' & seen & Hrun & Hseen & Hcursors & Hrest).
  - unfold len in Hlen. lia.
  - reflexivity.
  - apply placed_cursor. subst st0. rewrite load_store.
    destruct base_params as [b|]; [by apply Hbase|constructor].
  - exists st', seen. split; [|done].
    etransitivity; [exact Hrun|]. reflexivity.
Qed.

Lemma cursor_run_follows_cursors_witness :
  exists st' seen,
    run_pagination (recording scripted_cursor_page)
      (Some (lifted held_cursor)) (Some (fun c => lifted (hold_cursor c)))
      (CursorPagination "after" "next" 5 None)
      (Some 1%positive)
      (State {[1%positive := [("after", VStr "stale"); ("q", VStr "x")]]}
         ([], (chain [[("id", VInt 3)]] []
                 [([[("id", VInt 1)]], "c1"); ([[("id", VInt 2)]], "c2")],
               None)))
    = (Ok (concat (map fst [([[("id", VInt 1)]], "c1");
                            ([[("id", VInt 2)]], "c2")])
           ++ [[("id", VInt 3)]],
           {| pages_fetched :=
                len [([[("id", VInt 1)]], "c1"); ([[("id", VInt 2)]], "c2")]
                + 1;
              records_total :=
                len (concat (map fst [([[("id", VInt 1)]], "c1");
                                      ([[("id", VInt 2)]], "c2")])
                     ++ [[("id", VInt 3)]]);
              stopped_reason := "cursor_missing" |}), st')
    /\ calls st' = seen
    /\ map (dict_get "after") seen
       = map (option_map VStr)
           (None :: map (fun p => Some (snd p))
                      [([[("id", VInt 1)]], "c1");
                       ([[("id", VInt 2)]], "c2")])
    /\ fst (snd (user st')) = [].
Proof.
  apply (cursor_run_follows_cursors "after" "next" 5 None (Some 1%positive)
           [([[("id", VInt 1)]], "c1"); ([[("id", VInt 2)]], "c2")]
           [[("id", VInt 3)]] [] None
           {[1%positive := [("after", VStr "stale"); ("q", VStr "x")]]}).
  - intros b [= <-]. rewrite lookup_singleton_eq. simpl.
    apply (bool_decide_unpack _). vm_compute. exact I.
  - repeat constructor; discriminate.
  - discriminate.
  - vm_compute. reflexivity.
Defined.

(** *** A server that fails *)

(** A page-fetch callback that hands out the outcomes of a list, one
    per call: a page, or an exception. *)
Definition scripted_outcomes
  : loc -> action (list (result (list pydict))) (list pydict) :=
  fun _ st =>
    match user st with
    | [] => (Ok [], st)
    | outcome :: rest => (outcome, State (heap st) rest)
    end.

Lemma offset_loop_raises op lp limit params (full : list (list pydict))
    (e : exn) rest :
  Forall (fun page => page <> []) full ->
  forall n offset pf all_records (st : state (list (result (list pydict)))),
    (List.length full < n)%nat ->
    user st = map Ok full ++ Raise e :: rest ->
    exists st',
      offset_loop scripted_outcomes op lp limit params n offset pf
        all_records st
      = (Raise e, st')
      /\ user st' = rest.
Proof.
  induction 1 as [|first full Hfirst Hfull IH];
    intros n offset pf all_records st Hlen Hscript;
    (destruct n as [|n]; [simpl in Hlen; lia|]);
    cbn [offset_loop]; unfold bind, setitem; unfold scripted_outcomes at 1;
    cbn [user store]; rewrite Hscript; cbn [map app].
  - eexists. split; reflexivity.
  - destruct first as [|r first]; [done|].
    edestruct (IH n (offset + limit) (pf + 1) (all_records ++ r :: first))
      as (st' & Hrun & Hrest); [simpl in Hlen; lia| |].
    2:{ exists st'. split; [exact Hrun|exact Hrest]. }
    reflexivity.
Qed.

(** When the page fetch raises after k pages with records, an offset
    run with room for more than k pages passes the exception on after
    k + 1 calls: it returns no records, those of the k pages included,
    and asks for nothing more. *)
Theorem offset_run_passes_exception_on
    (offset_param limit_param : string) (limit max_pages start_offset : Z)
    (base_params : option loc) (full : list (list pydict)) (e : exn)
    (rest : list (result (list pydict))) (h : gmap loc pydict) :
  Forall (fun page => page <> []) full ->
  len full < max_pages ->
  exists st',
    run_pagination scripted_outcomes None None
      (OffsetPagination offset_param limit_param limit max_pages start_offset)
      base_params (State h (map Ok full ++ Raise e :: rest))
    = (Raise e, st')
    /\ user st' = rest.
Proof.
  intros Hfull Hlen. unfold run_pagination, bind at 1.
  destruct (copy_params base_params _) as [[params|e'] st0] eqn:Hcopy;
    [|discriminate Hcopy].
  assert (user st0 = map Ok full ++ Raise e :: rest) as Huser
    by (unfold copy_params in Hcopy; by injection Hcopy as <- <-).
  apply (offset_loop_raises offset_param limit_param limit params full e rest
           Hfull (Z.to_nat max_pages) start_offset 0 [] st0);
    [unfold len in Hlen; lia|done].
Qed.

Lemma offset_run_passes_exception_on_witness :
  exists st',
    run_pagination scripted_outcomes None None
      (OffsetPagination "offset" "limit" 20 5 0) None
      (State ∅ (map Ok [[ [("id", VInt 1)] ]]
                ++ Raise (Exn FetchError "Failed to fetch URL after 1 attempts: timed out")
                   :: [Ok [[("id", VInt 2)]]]))
    = (Raise (Exn FetchError "Failed to fetch URL after 1 attempts: timed out"),
       st')
    /\ user st' = [Ok [[("id", VInt 2)]]].
Proof.
  apply (offset_run_passes_exception_on "offset" "limit" 20 5 0 None
           [[ [("id", VInt 1)] ]]
           (Exn FetchError "Failed to fetch URL after 1 attempts: timed out")
           [Ok [[("id", VInt 2)]]] ∅).
  - repeat constructor; discriminate.
  - vm_compute. reflexivity.
Defined.

End Pagination.

(** ** The SSRF guard ([app/services/url_safety.py]) *)

Module UrlSafety.

(** What the guard reads of [urllib.parse.urlparse(url)]. *)
Record ParseResult : Type := {
  scheme : string;
  hostname : option string
}.

Inductive address_family : Type :=
| AF_INET
| AF_INET6
| AF_other (n : Z).

(** An entry of [socket.getaddrinfo]: the family and [sockaddr[0]]. *)
Record addrinfo : Type := {
  family : address_family;
  sockaddr_host : string
}.

(** [socket.getaddrinfo(host, None)]: the entries, or [socket.gaierror]
    with its text. *)
Inductive getaddrinfo_result : Type :=
| Resolved (infos : list addrinfo)
| gaierror (text : string).

(** [ipaddress.ip_address]: an address of version 4 or 6. *)
Inductive ip_obj : Type :=
| IPv4Address (n : Z)
| IPv6Address (n : Z).

Definition version (o : ip_obj) : Z :=
  match o with
  | IPv4Address _ => 4
  | IPv6Address _ => 6
  end.

(** [s.split(sep)] for a separator of one character. *)
Fixpoint split_char (sep : ascii) (s : string) : list string :=
  match s with
  | EmptyString => [EmptyString]
  | String c s' =>
      if Ascii.eqb c sep then EmptyString :: split_char sep s'
      else match split_char sep s' with
           | p :: ps => String c p :: ps
           | [] => [String c EmptyString]
           end
  end.

Definition is_digit (c : ascii) : bool :=
  let n := Z.of_nat (nat_of_ascii c) in ((48 <=? n) && (n <=? 57))%Z.

Fixpoint decimal_value (acc : Z) (s : string) : Z :=
  match s with
  | EmptyString => acc
  | String c s' =>
      decimal_value (10 * acc + (Z.of_nat (nat_of_ascii c) - 48)) s'
  end.

Fixpoint all_chars (p : ascii -> bool) (s : string) : bool :=
  match s with
  | EmptyString => true
  | String c s' => p c && all_chars p s'
  end.

(** An octet of a dotted quad, as [IPv4Address] reads it: one to three
    decimal digits, no leading zero, at most 255. *)
Definition parse_octet (s : string) : option Z :=
  match s with
  | EmptyString => None
  | String c rest =>
      if negb (all_chars is_digit s) then None
      else if (3 <? str_len s)%Z then None
      else if Ascii.eqb c "0" && negb (String.eqb s "0") then None
      else let v := decimal_value 0 s in
           if (255 <? v)%Z then None else Some v
  end.

Definition parse_ipv4 (s : string) : option Z :=
  match map parse_octet (split_char "." s) with
  | [Some a; Some b; Some c; Some d] =>
      Some (((a * 256 + b) * 256 + c) * 256 + d)
  | _ => None
  end.

Definition _PRIVATE_IP_PREFIXES : list string := ["127."; "10."; "192.168."].

Section Guard.

(** The standard library and the resolver, as the guard sees them:
    [urlparse] on the URLs it reads, and [getaddrinfo] answering with
    addresses or with [socket.gaierror].  The [ValueError] of the one
    and the [UnicodeError] of the other, which the guard does not
    catch, are outside the model. *)
Variable urlparse : string -> ParseResult.
Variable getaddrinfo : string -> getaddrinfo_result.
Variable parse_ipv6 : string -> option Z.
Variables is_loopback is_private is_link_local is_multicast is_reserved
  : ip_obj -> bool.

(** [ip_address(ip)]: an IPv4 address if the text reads as one, else an
    IPv6 address, else [ValueError] ([None]). *)
Definition ip_address (ip : string) : option ip_obj :=
  match parse_ipv4 ip with
  | Some n => Some (IPv4Address n)
  | None =>
      match parse_ipv6 ip with
      | Some n => Some (IPv6Address n)
      | None => None
      end
  end.

Definition _is_private_or_local (ip : string) : bool :=
  match ip_address ip with
  | None => true
  | Some obj =>
      if is_loopback obj || is_private obj || is_link_local obj
         || is_multicast obj || is_reserved obj
      then true
      else if (version obj =? 4)%Z
              && existsb (fun p => startswith ip p) _PRIVATE_IP_PREFIXES
      then true
      else false
  end.

Definition fetch_error {A} (msg : string) : result A :=
  Raise (Exn FetchError msg).

Definition validate_public_http_url (url : string) : result unit :=
  let parsed := urlparse url in
  if negb (String.eqb (scheme parsed) "http"
           || String.eqb (scheme parsed) "https")
  then fetch_error "Only http/https URLs are allowed"
  else
    match hostname parsed with
    | None | Some EmptyString => fetch_error "Invalid URL: missing host"
    | Some host =>
        if String.eqb host "localhost"
        then fetch_error "Blocked host: localhost"
        else Ok tt
    end.

Definition resolve_and_block_private_hosts (url : string) : result unit :=
  match validate_public_http_url url with
  | Raise e => Raise e
  | Ok _ =>
      match hostname (urlparse url) with
      | None | Some EmptyString => fetch_error "Invalid URL: missing host"
      | Some host =>
          match getaddrinfo host with
          | gaierror exc =>
              fetch_error ("DNS resolution failed for host '" +:+ host
                           +:+ "': " +:+ exc)
          | Resolved infos =>
              let ips :=
                flat_map
                  (fun info =>
                     match family info with
                     | AF_INET => [sockaddr_host info]
                     | AF_INET6 => [sockaddr_host info]
                     | AF_other _ => []
                     end) infos in
              match ips with
              | [] =>
                  fetch_error ("No IP addresses resolved for host '"
                               +:+ host +:+ "'")
              | _ =>
                  if existsb _is_private_or_local ips
                  then fetch_error
                         ("Blocked host '" +:+ host
                          +:+ "' (resolves to private/internal IP)")
                  else Ok tt
              end
          end
      end
  end.

(** The only answer of the resolver for [host] is the address [ip]. *)
Definition resolves_only_to (host ip : string) : Prop :=
  exists infos,
    getaddrinfo host = Resolved infos /\ infos <> [] /\
    forall info, In info infos ->
      family info = AF_INET /\ sockaddr_host info = ip.

Lemma loopback_is_private_or_local : _is_private_or_local "127.0.0.1" = true.
Proof.
  unfold _is_private_or_local, ip_address.
  replace (parse_ipv4 "127.0.0.1") with (Some 2130706433)
    by (vm_compute; reflexivity).
  destruct (_ || _); reflexivity.
Qed.

(** C1, as the code has it.  For every URL whose host resolves only to
    127.0.0.1 the guard raises, whether the scheme is valid or not; the
    exception is a [FetchError], the one class the guard has.  With a
    valid scheme and a host other than "localhost" it is the rejection
    of the resolved address. *)
Theorem loopback_host_raises_fetch_error (url : string) :
  (forall host, hostname (urlparse url) = Some host ->
                resolves_only_to host "127.0.0.1") ->
  (exists msg,
      resolve_and_block_private_hosts url = Raise (Exn FetchError msg))
  /\ (forall host,
        validate_public_http_url url = Ok tt ->
        hostname (urlparse url) = Some host ->
        resolve_and_block_private_hosts url
        = fetch_error ("Blocked host '" +:+ host
                       +:+ "' (resolves to private/internal IP)")).
Proof.
  intros Hdns.
  assert (forall host,
            validate_public_http_url url = Ok tt ->
            hostname (urlparse url) = Some host ->
            resolve_and_block_private_hosts url
            = fetch_error ("Blocked host '" +:+ host
                           +:+ "' (resolves to private/internal IP)"))
    as Hblocked.
  { intros host Hvalid Hhost.
    unfold resolve_and_block_private_hosts. rewrite Hvalid, Hhost.
    unfold validate_public_http_url in Hvalid. rewrite Hhost in Hvalid.
    destruct host as [|c host].
    { destruct (negb _); discriminate Hvalid. }
    destruct (Hdns _ Hhost) as (infos & -> & Hne & Hall).
    destruct infos as [|info infos]; [done|].
    destruct (Hall info (or_introl eq_refl)) as [Hfam Hip].
    cbn [flat_map]. rewrite Hfam, Hip. cbn [app existsb].
    by rewrite loopback_is_private_or_local. }
  split; [|exact Hblocked].
  destruct (validate_public_http_url url) as [[]|[c msg]] eqn:Hvalid.
  - unfold validate_public_http_url in Hvalid.
    destruct (negb _); [discriminate Hvalid|].
    destruct (hostname (urlparse url)) as [host|] eqn:Hhost;
      [|discriminate Hvalid].
    eexists. by apply (Hblocked host).
  - unfold resolve_and_block_private_hosts. rewrite Hvalid.
    exists msg. f_equal. f_equal.
    unfold validate_public_http_url, fetch_error in Hvalid.
    destruct (negb _); [congruence|].
    destruct (hostname (urlparse url)) as [[|? host]|];
      [congruence| |congruence].
    destruct (String.eqb _ _); congruence.
Qed.

End Guard.

(** A resolver and a URL parser for one internal name. *)
Definition parse_internal (url : string) : ParseResult :=
  if String.eqb url "http://internal.test/"
  then {| scheme := "http"; hostname := Some "internal.test" |}
  else if String.eqb url "ftp://internal.test/"
  then {| scheme := "ftp"; hostname := Some "internal.test" |}
  else {| scheme := ""; hostname := None |}.

Definition resolve_internal (host : string) : getaddrinfo_result :=
  if String.eqb host "internal.test"
  then Resolved [{| family := AF_INET; sockaddr_host := "127.0.0.1" |}]
  else gaierror "Name or service not known".

Definition loopback_only (o : ip_obj) : bool :=
  match o with
  | IPv4Address n => (n / 16777216 =? 127)%Z
  | IPv6Address n => (n =? 1)%Z
  end.

Definition no_flag (o : ip_obj) : bool := false.

Lemma loopback_host_raises_fetch_error_witness :
  (exists msg,
      resolve_and_block_private_hosts parse_internal resolve_internal
        (fun _ => None) loopback_only no_flag no_flag no_flag no_flag
        "http://internal.test/" = Raise (Exn FetchError msg))
  /\ (forall host,
        validate_public_http_url parse_internal "http://internal.test/"
        = Ok tt ->
        hostname (parse_internal "http://internal.test/") = Some host ->
        resolve_and_block_private_hosts parse_internal resolve_internal
          (fun _ => None) loopback_only no_flag no_flag no_flag no_flag
          "http://internal.test/"
        = fetch_error ("Blocked host '" +:+ host
                       +:+ "' (resolves to private/internal IP)")).
Proof.
  apply (loopback_host_raises_fetch_error parse_internal resolve_internal
           (fun _ => None) loopback_only no_flag no_flag no_flag no_flag
           "http://internal.test/").
  intros host Hhost. injection Hhost as <-.
  eexists. split; [reflexivity|]. split; [discriminate|].
  intros info [<-|[]]. split; reflexivity.
Defined.

(** The claim as the specification has it fails: what the guard raises
    for a host that resolves to 127.0.0.1 is a [FetchError], and no
    exception of the guard is of a class named BlockedHostError. *)
Lemma loopback_host_not_blocked_host_error :
  resolve_and_block_private_hosts parse_internal resolve_internal
    (fun _ => None) loopback_only no_flag no_flag no_flag no_flag
    "http://internal.test/"
  = Raise (Exn FetchError
             "Blocked host 'internal.test' (resolves to private/internal IP)")
  /\ ~ raises_class
         (resolve_and_block_private_hosts parse_internal resolve_internal
            (fun _ => None) loopback_only no_flag no_flag no_flag no_flag
            "http://internal.test/")
         "BlockedHostError".
Proof.
  split; [vm_compute; reflexivity|].
  intros (e & He & Hclass). vm_compute in He.
  injection He as <-. discriminate Hclass.
Qed.

(** *** What passes the guard *)

Section GuardFacts.
Variable urlparse : string -> ParseResult.
Variable getaddrinfo : string -> getaddrinfo_result.
Variable parse_ipv6 : string -> option Z.
Variables is_loopback is_private is_link_local is_multicast is_reserved
  : ip_obj -> bool.

Local Abbreviation private_or_local :=
  (_is_private_or_local parse_ipv6 is_loopback is_private is_link_local
     is_multicast is_reserved).
Local Abbreviation resolve_and_block :=
  (resolve_and_block_private_hosts urlparse getaddrinfo parse_ipv6
     is_loopback is_private is_link_local is_multicast is_reserved).

(** The addresses the guard looks at. *)
Definition addresses (infos : list addrinfo) : list string :=
  flat_map
    (fun info =>
       match family info with
       | AF_INET => [sockaddr_host info]
       | AF_INET6 => [sockaddr_host info]
       | AF_other _ => []
       end) infos.

Lemma validated_host url :
  validate_public_http_url urlparse url = Ok tt ->
  exists c host,
    hostname (urlparse url) = Some (String c host)
    /\ (scheme (urlparse url) = "http" \/ scheme (urlparse url) = "https")
    /\ String c host <> "localhost".
Proof.
  unfold validate_public_http_url.
  destruct (String.eqb (scheme (urlparse url)) "http") eqn:Hhttp;
    destruct (String.eqb (scheme (urlparse url)) "https") eqn:Hhttps;
    cbn [orb negb]; try discriminate;
    (destruct (hostname (urlparse url)) as [[|c host]|]; try discriminate;
     destruct (String.eqb (String c host) "localhost") eqn:Hlocal;
       try discriminate;
     intros _; exists c, host; apply String.eqb_neq in Hlocal;
     split; [done|]; split; [|done]).
  - left. by apply String.eqb_eq.
  - left. by apply String.eqb_eq.
  - right. by apply String.eqb_eq.
Qed.

Lemma blocked_by_private_address (url host : string)
    (infos : list addrinfo) (ip : string) :
  validate_public_http_url urlparse url = Ok tt ->
  hostname (urlparse url) = Some host ->
  getaddrinfo host = Resolved infos ->
  In ip (addresses infos) ->
  private_or_local ip = true ->
  resolve_and_block url
  = fetch_error ("Blocked host '" +:+ host
                 +:+ "' (resolves to private/internal IP)").
Proof.
  intros Hvalid Hhost Hdns Hin Hprivate.
  unfold resolve_and_block_private_hosts. rewrite Hvalid, Hhost.
  destruct (validated_host url Hvalid) as (c & host' & Hhost' & _).
  rewrite Hhost in Hhost'. injection Hhost' as ->.
  rewrite Hdns. fold (addresses infos).
  destruct (addresses infos) as [|first others] eqn:Hips; [done|].
  rewrite <- Hips.
  assert (existsb private_or_local (addresses infos) = true) as ->; [|done].
  apply existsb_exists. exists ip. rewrite Hips. done.
Qed.

(** One private, loopback or unreadable address among the answers of
    the resolver is enough: the URL is blocked, whatever the other
    answers are. *)
Theorem one_private_address_blocks (url host : string)
    (infos : list addrinfo) (ip : string) :
  validate_public_http_url urlparse url = Ok tt ->
  hostname (urlparse url) = Some host ->
  getaddrinfo host = Resolved infos ->
  In ip (addresses infos) ->
  private_or_local ip = true ->
  resolve_and_block url
  = fetch_error ("Blocked host '" +:+ host
                 +:+ "' (resolves to private/internal IP)").
Proof. apply blocked_by_private_address. Qed.

(** A URL passes the guard only if its scheme is http or https, its
    host is there and is not "localhost", the resolver answers with at
    least one address, and none of the addresses is private, loopback
    or unreadable. *)
Theorem passed_guard_is_public (url : string) :
  resolve_and_block url = Ok tt ->
  exists host infos,
    hostname (urlparse url) = Some host
    /\ host <> EmptyString /\ host <> "localhost"
    /\ (scheme (urlparse url) = "http" \/ scheme (urlparse url) = "https")
    /\ getaddrinfo host = Resolved infos
    /\ addresses infos <> []
    /\ forall ip, In ip (addresses infos) -> private_or_local ip = false.
Proof.
  unfold resolve_and_block_private_hosts.
  destruct (validate_public_http_url urlparse url) as [[]|e] eqn:Hvalid;
    [|discriminate].
  destruct (validated_host url Hvalid) as (c & host & Hhost & Hscheme & Hlocal).
  rewrite Hhost.
  destruct (getaddrinfo (String c host)) as [infos|text] eqn:Hdns;
    [|discriminate].
  fold (addresses infos).
  destruct (addresses infos) as [|first others] eqn:Hips; [discriminate|].
  destruct (existsb _ (first :: others)) eqn:Hany; [discriminate|].
  intros _. exists (String c host), infos.
  rewrite Hips. repeat split; try done.
  intros ip Hip.
  destruct (private_or_local ip) eqn:Hprivate; [|done].
  assert (existsb private_or_local (first :: others) = true) as Htrue
    by (apply existsb_exists; by exists ip).
  congruence.
Qed.

End GuardFacts.

(** A name with a public and a private address. *)
Definition resolve_mixed (host : string) : getaddrinfo_result :=
  if String.eqb host "internal.test"
  then Resolved [{| family := AF_INET; sockaddr_host := "93.184.216.34" |};
                 {| family := AF_INET6; sockaddr_host := "not an address" |};
                 {| family := AF_INET; sockaddr_host := "10.0.0.7" |}]
  else gaierror "Name or service not known".

Lemma one_private_address_blocks_witness :
  resolve_and_block_private_hosts parse_internal resolve_mixed
    (fun _ => None) loopback_only no_flag no_flag no_flag no_flag
    "http://internal.test/"
  = fetch_error ("Blocked host '" +:+ "internal.test"
                 +:+ "' (resolves to private/internal IP)").
Proof.
  apply (one_private_address_blocks parse_internal resolve_mixed
           (fun _ => None) loopback_only no_flag no_flag no_flag no_flag
           "http://internal.test/" "internal.test"
           [{| family := AF_INET; sockaddr_host := "93.184.216.34" |};
            {| family := AF_INET6; sockaddr_host := "not an address" |};
            {| family := AF_INET; sockaddr_host := "10.0.0.7" |}]
           "10.0.0.7").
  - reflexivity.
  - reflexivity.
  - reflexivity.
  - right. right. left. reflexivity.
  - vm_compute. reflexivity.
Defined.

(** A public name. *)
Definition parse_example (url : string) : ParseResult :=
  if String.eqb url "https://example.org/list"
  then {| scheme := "https"; hostname := Some "example.org" |}
  else {| scheme := ""; hostname := None |}.

Definition resolve_example (host : string) : getaddrinfo_result :=
  if String.eqb host "example.org"
  then Resolved [{| family := AF_INET; sockaddr_host := "93.184.216.34" |}]
  else gaierror "Name or service not known".

Lemma passed_guard_is_public_witness :
  exists host infos,
    hostname (parse_example "https://example.org/list") = Some host
    /\ host <> EmptyString /\ host <> "localhost"
    /\ (scheme (parse_example "https://example.org/list") = "http"
        \/ scheme (parse_example "https://example.org/list") = "https")
    /\ resolve_example host = Resolved infos
    /\ addresses infos <> []
    /\ forall ip, In ip (addresses infos) ->
         _is_private_or_local (fun _ => None) loopback_only no_flag no_flag
           no_flag no_flag ip = false.
Proof.
  apply (passed_guard_is_public parse_example resolve_example
           (fun _ => None) loopback_only no_flag no_flag no_flag no_flag
           "https://example.org/list").
  vm_compute. reflexivity.
Defined.


(** *** The prefix check *)

(** A text that starts with "127.", "10." or "192.168." is judged
    private or local whatever the address flags say: if it reads as an
    IPv4 address the prefix check catches it, and if it does not read
    as an address at all it is refused as unparsable.  (No such text is
    an IPv6 address, which is what the hypothesis on the IPv6 reader
    says.) *)
Theorem prefixed_address_is_private (parse_ipv6 : string -> option Z)
    (is_loopback is_private is_link_local is_multicast is_reserved
     : ip_obj -> bool) (ip : string) :
  existsb (fun p => startswith ip p) _PRIVATE_IP_PREFIXES = true ->
  parse_ipv6 ip = None ->
  _is_private_or_local parse_ipv6 is_loopback is_private is_link_local
    is_multicast is_reserved ip = true.
Proof.
  intros Hprefix Hv6. unfold _is_private_or_local, ip_address.
  destruct (parse_ipv4 ip) as [n|].
  - rewrite Hprefix. cbn [version]. by destruct (_ || _).
  - by rewrite Hv6.
Qed.

Lemma prefixed_address_is_private_witness :
  _is_private_or_local (fun _ => None) no_flag no_flag no_flag no_flag
    no_flag "192.168.1.20" = true
  /\ _is_private_or_local (fun _ => None) no_flag no_flag no_flag no_flag
       no_flag "10.300.1" = true.
Proof.
  split.
  - apply (prefixed_address_is_private (fun _ => None)); reflexivity.
  - apply (prefixed_address_is_private (fun _ => None)); reflexivity.
Defined.

End UrlSafety.

(** ** The HTTP fetch layer ([app/services/http_client.py]) *)

Module HttpClient.

Import UrlSafety.

(** [app/core/config.py]: the settings the fetch layer reads.  The two
    timeouts are floats; they are carried as the bits of the double. *)
Record Settings : Type := {
  http_connect_timeout_s : Z;
  http_read_timeout_s : Z;
  http_max_bytes : Z;
  block_private_networks : bool
}.

Definition DEFAULT_UA : string :=
  "Mozilla/5.0 (Windows NT 10.0; Win64; x64) "
  +:+ "AppleWebKit/537.36 (KHTML, like Gecko) "
  +:+ "Chrome/120.0.0.0 Safari/537.36".

Definition bytes : Type := list Byte.byte.

Record FetchResult : Type := {
  url : string;
  status_code : Z;
  headers : list (string * string);
  content : bytes
}.

Inductive http_method : Type := GET | POST.

(** The arguments of [requests.get] and [requests.post]. *)
Record Request : Type := {
  req_method : http_method;
  req_url : string;
  req_headers : list (string * string);
  req_params : option pydict;
  req_json : option pydict;
  req_timeout : Z * Z
}.

(** What the fetch layer reads of a [requests.Response]. *)
Record Response : Type := {
  resp_url : string;
  resp_status_code : Z;
  resp_headers : list (string * string);
  resp_content : option bytes
}.

(** A call of [requests]: a response, of any status code; a
    [requests.RequestException] (connection, timeout, DNS) with its
    text; or another exception. *)
Inductive outcome : Type :=
| Responded (resp : Response)
| RequestException (text : string)
| OtherException (e : exn).

(** [sep.join(parts)] *)
Fixpoint join (sep : string) (parts : list string) : string :=
  match parts with
  | [] => EmptyString
  | [p] => p
  | p :: ps => p +:+ sep +:+ join sep ps
  end.

Definition _merged_headers (extra : option (list (string * string)))
  : list (string * string) :=
  let merged := [("User-Agent", DEFAULT_UA)] in
  match extra with
  | Some ((_ :: _) as e) => dict_update merged e
  | _ => merged
  end.

(** Convert cookie dict to cookie header string. *)
Definition _build_cookie_header (cookies : option (list (string * string)))
  : option string :=
  match cookies with
  | Some ((_ :: _) as c) =>
      Some (join "; " (map (fun kv => fst kv +:+ "=" +:+ snd kv) c))
  | _ => None
  end.

Definition with_cookie (cookie_header : option string)
    (merged : list (string * string)) : list (string * string) :=
  match cookie_header with
  | Some (String _ _ as h) => dict_set "Cookie" h merged
  | _ => merged
  end.

(** [resp.content or b""] *)
Definition content_of (resp : Response) : bytes :=
  match resp_content resp with
  | Some c => c
  | None => []
  end.

Definition str_of_error (last_error : option string) : string :=
  match last_error with
  | Some text => text
  | None => "None"
  end.

Section Fetch.

Variable settings : Settings.

(** The guard's view of the standard library and the resolver. *)
Variable urlparse : string -> ParseResult.
Variable getaddrinfo : string -> getaddrinfo_result.
Variable parse_ipv6 : string -> option Z.
Variables is_loopback is_private is_link_local is_multicast is_reserved
  : ip_obj -> bool.

(** The network: a request changes the world [W] and has an outcome;
    [time.sleep] changes the world. *)
Context {W : Type}.
Variable transport : Request -> W -> outcome * W.
Variable sleep : Z -> W -> W.

Definition guard (url : string) : result unit :=
  if block_private_networks settings
  then resolve_and_block_private_hosts urlparse getaddrinfo parse_ipv6
         is_loopback is_private is_link_local is_multicast is_reserved url
  else Ok tt.

(** [for attempt in range(max_retries + 1)]: [n] attempts are left.
    The loops of [get_bytes] and [post_bytes] differ in the request and
    in one word of their messages ([what]: "fetch" or "POST"). *)
Fixpoint attempts (what : string) (req : Request) (max_retries : Z)
    (n : nat) (attempt : Z) (last_error : option string) (w : W)
  : result FetchResult * W :=
  match n with
  | O =>
      (fetch_error ("Failed to " +:+ what +:+ " URL: "
                    +:+ str_of_error last_error), w)
  | S n' =>
      match transport req w with
      | (Responded resp, w1) =>
          let content := content_of resp in
          if (len content >? http_max_bytes settings)%Z
          then (fetch_error ("Response too large (>"
                             +:+ str_of_Z (http_max_bytes settings)
                             +:+ " bytes)"), w1)
          else (Ok {| url := resp_url resp;
                      status_code := resp_status_code resp;
                      headers := dict_update [] (resp_headers resp);
                      content := content |}, w1)
      | (RequestException exc, w1) =>
          if (attempt <? max_retries)%Z
          then (* Wait 1s before retry *)
               attempts what req max_retries n' (attempt + 1) (Some exc)
                 (sleep 1 w1)
          else (fetch_error ("Failed to " +:+ what +:+ " URL after "
                             +:+ str_of_Z (max_retries + 1)
                             +:+ " attempts: " +:+ exc), w1)
      | (OtherException e, w1) => (Raise e, w1)
      end
  end.

Definition timeouts : Z * Z :=
  (http_connect_timeout_s settings, http_read_timeout_s settings).

(** The request [get_bytes] sends. *)
Definition get_request (url : string)
    (headers : option (list (string * string))) (params : option pydict)
    (cookies : option (list (string * string))) : Request :=
  let merged := _merged_headers headers in
  let cookie_header := _build_cookie_header cookies in
  let merged := with_cookie cookie_header merged in
  {| req_method := GET; req_url := url; req_headers := merged;
     req_params := params; req_json := None; req_timeout := timeouts |}.

(** The request [post_bytes] sends. *)
Definition post_request (url : string)
    (headers : option (list (string * string))) (body : option pydict)
    (cookies : option (list (string * string))) : Request :=
  let merged := _merged_headers headers in
  (* Ensure Content-Type for JSON *)
  let merged :=
    match body with
    | Some _ =>
        if negb (dict_has "Content-Type" merged)
        then dict_set "Content-Type" "application/json" merged
        else merged
    | None => merged
    end in
  let cookie_header := _build_cookie_header cookies in
  let merged := with_cookie cookie_header merged in
  {| req_method := POST; req_url := url; req_headers := merged;
     req_params := None; req_json := body; req_timeout := timeouts |}.

Definition get_bytes (url : string)
    (headers : option (list (string * string))) (params : option pydict)
    (cookies : option (list (string * string))) (max_retries : Z) (w : W)
  : result FetchResult * W :=
  match guard url with
  | Raise e => (Raise e, w)
  | Ok _ =>
      attempts "fetch" (get_request url headers params cookies) max_retries
        (Z.to_nat (max_retries + 1)) 0 None w
  end.

Definition post_bytes (url : string)
    (headers : option (list (string * string))) (body : option pydict)
    (cookies : option (list (string * string))) (max_retries : Z) (w : W)
  : result FetchResult * W :=
  match guard url with
  | Raise e => (Raise e, w)
  | Ok _ =>
      attempts "POST" (post_request url headers body cookies) max_retries
        (Z.to_nat (max_retries + 1)) 0 None w
  end.

End Fetch.

(** A transport that keeps, in front of the world, the requests sent. *)
Definition recording {W} (transport : Request -> W -> outcome * W)
  : Request -> list Request * W -> outcome * (list Request * W) :=
  fun req lw =>
    let '(o, w') := transport req (snd lw) in
    (o, (fst lw ++ [req], w')).

Definition recording_sleep {W} (sleep : Z -> W -> W)
  : Z -> list Request * W -> list Request * W :=
  fun s lw => (fst lw, sleep s (snd lw)).

(** The result a response is turned into. *)
Definition fetch_result_of (resp : Response) : FetchResult :=
  {| url := resp_url resp;
     status_code := resp_status_code resp;
     headers := dict_update [] (resp_headers resp);
     content := content_of resp |}.

(** The settings of [app/core/config.py] as they are by default; 5.0 and
    20.0 are the two doubles. *)
Definition default_settings : Settings :=
  {| http_connect_timeout_s := 4617315517961601024;
     http_read_timeout_s := 4626322717216342016;
     http_max_bytes := 2000000;
     block_private_networks := true |}.

(** A public host, and a server that answers 404. *)
Definition parse_public (target : string) : ParseResult :=
  if String.eqb target "http://example.org/missing"
  then {| scheme := "http"; hostname := Some "example.org" |}
  else {| scheme := ""; hostname := None |}.

Definition resolve_public (host : string) : getaddrinfo_result :=
  if String.eqb host "example.org"
  then Resolved [{| family := AF_INET; sockaddr_host := "93.184.216.34" |}]
  else gaierror "Name or service not known".

Definition not_found (body : bytes) : Response :=
  {| resp_url := "http://example.org/missing";
     resp_status_code := 404;
     resp_headers := [("Content-Type", "text/html")];
     resp_content := Some body |}.

Definition answers (resp : Response) : Request -> unit -> outcome * unit :=
  fun _ w => (Responded resp, w).

Definition no_sleep : Z -> unit -> unit := fun _ w => w.

(** The claim as the specification has it fails on a response above
    the byte cap: a 404 whose body has 2000001 bytes is not returned,
    a [FetchError] is raised. *)
Lemma oversized_error_response_raises :
  (get_bytes default_settings parse_public resolve_public (fun _ => None)
     loopback_only no_flag no_flag no_flag no_flag
     (recording (answers (not_found (repeat Byte.x00 (Z.to_nat 2000001)))))
     (recording_sleep no_sleep)
     "http://example.org/missing" None None None 3 ([], tt)).1
  = Raise (Exn FetchError "Response too large (>2000000 bytes)")
  /\ resp_status_code (not_found (repeat Byte.x00 (Z.to_nat 2000001))) >= 400
  /\ ~ exists fetched : FetchResult,
         (get_bytes default_settings parse_public resolve_public
            (fun _ => None)
            loopback_only no_flag no_flag no_flag no_flag
            (recording
               (answers (not_found (repeat Byte.x00 (Z.to_nat 2000001)))))
            (recording_sleep no_sleep)
            "http://example.org/missing" None None None 3 ([], tt)).1
         = Ok fetched.
Proof.
  assert ((get_bytes default_settings parse_public resolve_public
             (fun _ => None)
             loopback_only no_flag no_flag no_flag no_flag
             (recording
                (answers (not_found (repeat Byte.x00 (Z.to_nat 2000001)))))
             (recording_sleep no_sleep)
             "http://example.org/missing" None None None 3 ([], tt)).1
          = Raise (Exn FetchError "Response too large (>2000000 bytes)"))
    as Hraise by (vm_compute; reflexivity).
  split; [exact Hraise|]. split; [vm_compute; discriminate|].
  intros [fetched Hok]. rewrite Hraise in Hok. discriminate Hok.
Qed.

(** *** What a fetch does on the network *)

(** What the fetch layer does to the world. *)
Inductive event : Type :=
| Sent (req : Request)
| Slept (seconds : Z).

(** A transport, and a sleep, that keep the events in front of the
    world. *)
Definition tracing {W} (transport : Request -> W -> outcome * W)
  : Request -> list event * W -> outcome * (list event * W) :=
  fun req lw =>
    let '(o, w') := transport req (snd lw) in
    (o, (fst lw ++ [Sent req], w')).

Definition tracing_sleep {W} (sleep : Z -> W -> W)
  : Z -> list event * W -> list event * W :=
  fun s lw => (fst lw ++ [Slept s], sleep s (snd lw)).

Definition is_sent (e : event) : bool :=
  match e with
  | Sent _ => true
  | Slept _ => false
  end.

(** [n] times a pause of one second and the request again. *)
Fixpoint retries (req : Request) (n : nat) : list event :=
  match n with
  | O => []
  | S n' => Slept 1 :: Sent req :: retries req n'
  end.

Section Network.

Variable settings : Settings.
Context {W : Type}.
Variable transport : Request -> W -> outcome * W.
Variable sleep : Z -> W -> W.

Local Abbreviation traced :=
  (attempts settings (tracing transport) (tracing_sleep sleep)).

(** The world after [k] attempts in a row that failed at the transport
    level, each followed by the pause of one second; with it, the
    text of the last failure. *)
Fixpoint after_failures (req : Request) (k : nat)
    (last_error : option string) (w : W) : option (option string * W) :=
  match k with
  | O => Some (last_error, w)
  | S k' =>
      match transport req w with
      | (RequestException exc, w1) =>
          after_failures req k' (Some exc) (sleep 1 w1)
      | _ => None
      end
  end.

(** What the outcome of the last attempt is turned into. *)
Definition settled (what : string) (max_retries : Z) (o : outcome)
  : result FetchResult :=
  match o with
  | Responded resp =>
      if (len (content_of resp) >? http_max_bytes settings)%Z
      then fetch_error ("Response too large (>"
                        +:+ str_of_Z (http_max_bytes settings)
                        +:+ " bytes)")
      else Ok (fetch_result_of resp)
  | RequestException exc =>
      fetch_error ("Failed to " +:+ what +:+ " URL after "
                   +:+ str_of_Z (max_retries + 1)
                   +:+ " attempts: " +:+ exc)
  | OtherException e => Raise e
  end.

Lemma retries_snoc req k :
  retries req (S k) = retries req k ++ [Slept 1; Sent req].
Proof.
  induction k as [|k IH]; [done|].
  cbn [retries app] in IH |- *. by rewrite <- IH.
Qed.

(** Attempts that fail with retries left are made one after the
    other, with a pause after each. *)
Lemma attempts_after_failures what req max_retries k :
  forall n attempt last_error (lw : list event * W) le wk,
    after_failures req k last_error (snd lw) = Some (le, wk) ->
    attempt + Z.of_nat k <= max_retries ->
    traced what req max_retries (k + S n) attempt last_error lw
    = traced what req max_retries (S n) (attempt + Z.of_nat k) le
        (match k with
         | O => fst lw
         | S k' => fst lw ++ Sent req :: retries req k' ++ [Slept 1]
         end, wk).
Proof.
  induction k as [|k IH]; intros n attempt last_error lw le wk Hfail Hleft.
  - cbn [after_failures] in Hfail. injection Hfail as <- <-.
    replace (attempt + Z.of_nat 0) with attempt by lia.
    by destruct lw.
  - cbn [after_failures] in Hfail.
    destruct (transport req (snd lw)) as [o w1] eqn:Hsend.
    destruct o as [resp|exc|e]; try discriminate.
    cbn [Nat.add attempts]. unfold tracing at 1. rewrite Hsend.
    destruct (attempt <? max_retries)%Z eqn:Hlt; [|lia].
    rewrite (IH n (attempt + 1) (Some exc)
               (tracing_sleep sleep 1 (fst lw ++ [Sent req], w1)) le wk);
      [|exact Hfail|lia].
    replace (attempt + 1 + Z.of_nat k) with (attempt + Z.of_nat (S k))
      by lia.
    unfold tracing_sleep. cbn [fst snd]. f_equal. f_equal.
    destruct k as [|k']; cbn [retries]; by rewrite <- !app_assoc.
Qed.

(** The attempt that settles the run: a response, another exception,
    or a transport failure with no retry left. *)
Lemma attempts_settle what req max_retries n attempt last_error
    (lw : list event * W) :
  (forall exc, fst (transport req (snd lw)) = RequestException exc ->
               max_retries <= attempt) ->
  traced what req max_retries (S n) attempt last_error lw
  = (settled what max_retries (fst (transport req (snd lw))),
     (fst lw ++ [Sent req], snd (transport req (snd lw)))).
Proof.
  intros Hlast. cbn [attempts]. unfold tracing at 1.
  destruct (transport req (snd lw)) as [o w1].
  destruct o as [resp|exc|e]; cbn [fst snd settled].
  - by destruct (_ >? _)%Z.
  - specialize (Hlast exc eq_refl).
    by destruct (attempt <? max_retries)%Z eqn:Hlt; [lia|].
  - done.
Qed.

(** Every run is a number of failed attempts and the attempt that
    settles it. *)
Lemma attempts_shape what req max_retries n :
  forall attempt last_error (lw : list event * W),
    attempt + Z.of_nat (S n) = max_retries + 1 ->
    exists k le wk,
      (k <= n)%nat
      /\ after_failures req k last_error (snd lw) = Some (le, wk)
      /\ traced what req max_retries (S n) attempt last_error lw
         = (settled what max_retries (fst (transport req wk)),
            (fst lw ++ Sent req :: retries req k,
             snd (transport req wk)))
      /\ (forall exc,
             fst (transport req wk) = RequestException exc -> k = n).
Proof.
  induction n as [|n IH]; intros attempt last_error lw Hleft.
  - exists 0%nat, last_error, (snd lw). split; [done|]. split; [done|].
    split; [|done]. apply attempts_settle. intros exc _. lia.
  - destruct (transport req (snd lw)) as [o w1] eqn:Hsend.
    assert (fst (transport req (snd lw)) = o) as Houtcome
      by (by rewrite Hsend).
    destruct o as [resp|exc|e];
      [exists 0%nat, last_error, (snd lw); split; [lia|]; split; [done|];
       split; [apply attempts_settle|]; intros exc Hexc; congruence
      |
      |exists 0%nat, last_error, (snd lw); split; [lia|]; split; [done|];
       split; [apply attempts_settle|]; intros exc Hexc; congruence].
    destruct (IH (attempt + 1) (Some exc)
                (tracing_sleep sleep 1 (fst lw ++ [Sent req], w1)))
      as (k & le & wk & Hk & Hfail & Hrun & Hlast); [lia|].
    exists (S k), le, wk. split; [lia|]. split.
    { cbn [after_failures]. by rewrite Hsend. }
    split; [|intros exc' Hexc; f_equal; by eapply Hlast].
    cbn [attempts] in Hrun |- *. unfold tracing at 1. rewrite Hsend.
    destruct (attempt <? max_retries)%Z eqn:Hlt; [|lia].
    etransitivity; [exact Hrun|].
    unfold tracing_sleep. cbn [fst snd retries].
    by rewrite <- !app_assoc.
Qed.

(** A run in which [k] attempts fail and the next one has the outcome
    [o], which settles it. *)
Lemma attempts_run what req max_retries k le wk o w1 (w : W) :
  0 <= max_retries ->
  Z.of_nat k <= max_retries ->
  after_failures req k None w = Some (le, wk) ->
  transport req wk = (o, w1) ->
  (forall exc, o = RequestException exc -> Z.of_nat k = max_retries) ->
  traced what req max_retries (Z.to_nat (max_retries + 1)) 0 None ([], w)
  = (settled what max_retries o, (Sent req :: retries req k, w1)).
Proof.
  intros Hmax Hk Hfail Hsend Hlast.
  replace (Z.to_nat (max_retries + 1))
    with (k + S (Z.to_nat max_retries - k))%nat by lia.
  rewrite (attempts_after_failures what req max_retries k _ 0 None ([], w)
             le wk Hfail) by lia.
  rewrite attempts_settle; cbn [fst snd]; rewrite Hsend; cbn [fst snd].
  - f_equal. f_equal. destruct k as [|k']; [done|].
    rewrite retries_snoc. cbn [app]. by rewrite <- app_assoc.
  - intros exc Hexc. specialize (Hlast exc Hexc). lia.
Qed.

(** Never more requests than attempts, and a pause only between two
    requests. *)
Lemma attempts_bounded what req max_retries n :
  forall attempt last_error (lw : list event * W),
    max_retries + 1 <= attempt + Z.of_nat n ->
    exists more,
      fst (snd (traced what req max_retries n attempt last_error lw))
      = fst lw ++ more
      /\ (List.length (List.filter is_sent more) <= n)%nat
      /\ ((n = 0%nat /\ more = [])
          \/ (List.length more + 1
              <= 2 * List.length (List.filter is_sent more))%nat).
Proof.
  induction n as [|n IH]; intros attempt last_error lw Hleft.
  - exists []. cbn. rewrite app_nil_r. split; [done|]. split; [lia|by left].
  - cbn [attempts]. unfold tracing at 1.
    destruct (transport req (snd lw)) as [o w1].
    destruct o as [resp|exc|e].
    + destruct (_ >? _)%Z; exists [Sent req]; cbn;
        (split; [done|]; split; [lia|right; lia]).
    + destruct (attempt <? max_retries)%Z eqn:Hlt.
      * destruct (IH (attempt + 1) (Some exc)
                    (tracing_sleep sleep 1 (fst lw ++ [Sent req], w1)))
          as (more & Hmore & Hsent & [[Hn _]|Hlen]); [lia|lia|].
        exists (Sent req :: Slept 1 :: more). rewrite Hmore.
        unfold tracing_sleep. cbn [fst snd List.filter is_sent List.length].
        split; [by rewrite <- !app_assoc|]. split; [lia|right; lia].
      * exists [Sent req]. cbn. split; [done|]. split; [lia|right; lia].
    + exists [Sent req]. cbn. split; [done|]. split; [lia|right; lia].
Qed.

End Network.

Section Fetches.

Variable settings : Settings.
Variable urlparse : string -> ParseResult.
Variable getaddrinfo : string -> getaddrinfo_result.
Variable parse_ipv6 : string -> option Z.
Variables is_loopback is_private is_link_local is_multicast is_reserved
  : ip_obj -> bool.
Context {W : Type}.
Variable transport : Request -> W -> outcome * W.
Variable sleep : Z -> W -> W.

Local Abbreviation traced_get :=
  (get_bytes settings urlparse getaddrinfo parse_ipv6 is_loopback
     is_private is_link_local is_multicast is_reserved
     (tracing transport) (tracing_sleep sleep)).
Local Abbreviation traced_post :=
  (post_bytes settings urlparse getaddrinfo parse_ipv6 is_loopback
     is_private is_link_local is_multicast is_reserved
     (tracing transport) (tracing_sleep sleep)).
Local Abbreviation the_guard :=
  (guard settings urlparse getaddrinfo parse_ipv6 is_loopback
     is_private is_link_local is_multicast is_reserved).

(** Whatever the network does, a GET or a POST sends its request at
    most max_retries + 1 times (not at all below 0 retries), and it
    pauses only between two requests: the pauses are fewer than the
    requests. *)
Theorem requests_bounded_by_retries
    (target : string) (hdrs cookies : option (list (string * string)))
    (params body : option pydict) (max_retries : Z) (w : W) :
  Z.of_nat (List.length
              (List.filter is_sent
                 (fst (snd (traced_get target hdrs params cookies
                              max_retries ([], w))))))
  <= Z.max 0 (max_retries + 1)
  /\ Z.of_nat (List.length
                 (List.filter is_sent
                    (fst (snd (traced_post target hdrs body cookies
                                 max_retries ([], w))))))
     <= Z.max 0 (max_retries + 1)
  /\ (List.length (fst (snd (traced_get target hdrs params cookies
                               max_retries ([], w))))
      <= 2 * List.length
               (List.filter is_sent
                  (fst (snd (traced_get target hdrs params cookies
                               max_retries ([], w))))) - 1)%nat
  /\ (List.length (fst (snd (traced_post target hdrs body cookies
                               max_retries ([], w))))
      <= 2 * List.length
               (List.filter is_sent
                  (fst (snd (traced_post target hdrs body cookies
                               max_retries ([], w))))) - 1)%nat.
Proof.
  unfold get_bytes, post_bytes.
  destruct (the_guard target) as [[]|e]; [|cbn; lia].
  destruct (attempts_bounded settings transport sleep "fetch"
              (get_request settings target hdrs params cookies) max_retries
              (Z.to_nat (max_retries + 1)) 0 None ([], w))
    as (more & -> & Hsent & Hlen); [lia|].
  destruct (attempts_bounded settings transport sleep "POST"
              (post_request settings target hdrs body cookies) max_retries
              (Z.to_nat (max_retries + 1)) 0 None ([], w))
    as (more' & -> & Hsent' & Hlen'); [lia|].
  cbn [fst app].
  destruct Hlen as [[_ ->]|Hlen]; destruct Hlen' as [[_ ->]|Hlen'];
    cbn [List.length List.filter]; lia.
Qed.

(** When every attempt fails at the transport level, the first
    max_retries ones each followed by the pause and the last one with
    the error [exc], a GET that passes the guard has sent its request
    max_retries + 1 times, with a pause of one second before each
    retry and none after the last attempt, and raises the FetchError
    that counts the attempts and ends in [exc], the error of the last
    attempt. *)
Theorem fetch_gives_up_after_retries
    (target : string) (hdrs cookies : option (list (string * string)))
    (params : option pydict) (max_retries : Z) (w : W)
    (last_error : option string) (wk w' : W) (exc : string) :
  0 <= max_retries ->
  the_guard target = Ok tt ->
  after_failures transport sleep
    (get_request settings target hdrs params cookies)
    (Z.to_nat max_retries) None w = Some (last_error, wk) ->
  transport (get_request settings target hdrs params cookies) wk
  = (RequestException exc, w') ->
  traced_get target hdrs params cookies max_retries ([], w)
  = (fetch_error ("Failed to fetch URL after "
                  +:+ str_of_Z (max_retries + 1)
                  +:+ " attempts: " +:+ exc),
     (Sent (get_request settings target hdrs params cookies)
      :: retries (get_request settings target hdrs params cookies)
           (Z.to_nat max_retries), w')).
Proof.
  intros Hmax Hguard Hfail Hlast. unfold get_bytes. rewrite Hguard.
  apply (attempts_run settings transport sleep "fetch" _ max_retries
           (Z.to_nat max_retries) last_error wk (RequestException exc) w' w);
    try done; lia.
Qed.

(** C3, as the code has it.  For a GET or a POST that passes the
    guard: on whichever attempt a response arrives, the first or one
    after [k] transport failures, that request is the last one.  A
    response whose body is within the byte cap is returned as a
    [FetchResult] with its status code, 400 or above as any other; a
    response above the byte cap raises the FetchError that names the
    cap, whatever its status code.  And every run is a number [k] of
    attempts that failed at the transport level
    ([requests.RequestException]), each followed by the pause and the
    request again, and one last attempt whose outcome settles the
    result; the last attempt is a transport failure only when no
    retry is left.  So a request is sent again after a transport
    failure and after nothing else. *)
Theorem http_status_returned_without_retry
    (target : string) (hdrs cookies : option (list (string * string)))
    (params body : option pydict) (max_retries : Z) (w : W) :
  0 <= max_retries ->
  the_guard target = Ok tt ->
  (forall k last_error wk resp w1,
      Z.of_nat k <= max_retries ->
      after_failures transport sleep
        (get_request settings target hdrs params cookies) k None w
      = Some (last_error, wk) ->
      transport (get_request settings target hdrs params cookies) wk
      = (Responded resp, w1) ->
      traced_get target hdrs params cookies max_retries ([], w)
      = (if (len (content_of resp) >? http_max_bytes settings)%Z
         then fetch_error ("Response too large (>"
                           +:+ str_of_Z (http_max_bytes settings)
                           +:+ " bytes)")
         else Ok (fetch_result_of resp),
         (Sent (get_request settings target hdrs params cookies)
          :: retries (get_request settings target hdrs params cookies) k,
          w1))
      /\ status_code (fetch_result_of resp) = resp_status_code resp)
  /\ (forall k last_error wk resp w1,
        Z.of_nat k <= max_retries ->
        after_failures transport sleep
          (post_request settings target hdrs body cookies) k None w
        = Some (last_error, wk) ->
        transport (post_request settings target hdrs body cookies) wk
        = (Responded resp, w1) ->
        traced_post target hdrs body cookies max_retries ([], w)
        = (if (len (content_of resp) >? http_max_bytes settings)%Z
           then fetch_error ("Response too large (>"
                             +:+ str_of_Z (http_max_bytes settings)
                             +:+ " bytes)")
           else Ok (fetch_result_of resp),
           (Sent (post_request settings target hdrs body cookies)
            :: retries (post_request settings target hdrs body cookies) k,
            w1))
        /\ status_code (fetch_result_of resp) = resp_status_code resp)
  /\ (exists k last_error wk,
         Z.of_nat k <= max_retries
         /\ after_failures transport sleep
              (get_request settings target hdrs params cookies) k None w
            = Some (last_error, wk)
         /\ traced_get target hdrs params cookies max_retries ([], w)
            = (settled settings "fetch" max_retries
                 (fst (transport
                         (get_request settings target hdrs params cookies)
                         wk)),
               (Sent (get_request settings target hdrs params cookies)
                :: retries (get_request settings target hdrs params cookies)
                     k,
                snd (transport
                       (get_request settings target hdrs params cookies)
                       wk)))
         /\ forall exc,
              fst (transport
                     (get_request settings target hdrs params cookies) wk)
              = RequestException exc ->
              Z.of_nat k = max_retries)
  /\ (exists k last_error wk,
         Z.of_nat k <= max_retries
         /\ after_failures transport sleep
              (post_request settings target hdrs body cookies) k None w
            = Some (last_error, wk)
         /\ traced_post target hdrs body cookies max_retries ([], w)
            = (settled settings "POST" max_retries
                 (fst (transport
                         (post_request settings target hdrs body cookies)
                         wk)),
               (Sent (post_request settings target hdrs body cookies)
                :: retries (post_request settings target hdrs body cookies)
                     k,
                snd (transport
                       (post_request settings target hdrs body cookies)
                       wk)))
         /\ forall exc,
              fst (transport
                     (post_request settings target hdrs body cookies) wk)
              = RequestException exc ->
              Z.of_nat k = max_retries).
Proof.
  intros Hmax Hguard. unfold get_bytes, post_bytes. rewrite Hguard.
  assert (forall what req,
            exists k last_error wk,
              Z.of_nat k <= max_retries
              /\ after_failures transport sleep req k None w
                 = Some (last_error, wk)
              /\ attempts settings (tracing transport) (tracing_sleep sleep)
                   what req max_retries (Z.to_nat (max_retries + 1)) 0 None
                   ([], w)
                 = (settled settings what max_retries
                      (fst (transport req wk)),
                    (Sent req :: retries req k, snd (transport req wk)))
              /\ forall exc,
                   fst (transport req wk) = RequestException exc ->
                   Z.of_nat k = max_retries) as Hshape.
  { intros what req.
    replace (Z.to_nat (max_retries + 1)) with (S (Z.to_nat max_retries))
      by lia.
    destruct (attempts_shape settings transport sleep what req max_retries
                (Z.to_nat max_retries) 0 None ([], w))
      as (k & le & wk & Hk & Hfail & Hrun & Hlast); [lia|].
    exists k, le, wk. split; [lia|]. split; [done|]. split; [done|].
    intros exc Hexc. specialize (Hlast exc Hexc). lia. }
  split; [|split; [|split; [apply Hshape|apply Hshape]]].
  - intros k le wk resp w1 Hk Hfail Hresp. split; [|reflexivity].
    by apply (attempts_run settings transport sleep "fetch" _ max_retries
                k le wk (Responded resp) w1 w).
  - intros k le wk resp w1 Hk Hfail Hresp. split; [|reflexivity].
    by apply (attempts_run settings transport sleep "POST" _ max_retries
                k le wk (Responded resp) w1 w).
Qed.

(** A response above the byte cap is refused at once, whatever its
    status code and however many retries are left: one request, no
    pause, and a FetchError that names the cap. *)
Theorem oversized_response_refused
    (target : string) (hdrs cookies : option (list (string * string)))
    (params : option pydict) (max_retries : Z) (w w1 : W)
    (resp : Response) :
  0 <= max_retries ->
  the_guard target = Ok tt ->
  transport (get_request settings target hdrs params cookies) w
  = (Responded resp, w1) ->
  http_max_bytes settings < len (content_of resp) ->
  traced_get target hdrs params cookies max_retries ([], w)
  = (fetch_error ("Response too large (>"
                  +:+ str_of_Z (http_max_bytes settings) +:+ " bytes)"),
     ([Sent (get_request settings target hdrs params cookies)], w1)).
Proof.
  intros Hmax Hguard Hresp Hbig. unfold get_bytes. rewrite Hguard.
  destruct (Z.to_nat (max_retries + 1)) as [|n] eqn:Hn; [lia|].
  cbn [attempts]. unfold tracing at 1. cbn [fst snd]. rewrite Hresp.
  destruct (_ >? _)%Z eqn:Hgt; [done|lia].
Qed.

(** With the blocking of private networks on, a URL whose host has a
    private, loopback or unreadable address among its answers is not
    requested at all, by GET or by POST: the guard's FetchError is
    raised and nothing is sent. *)
Theorem private_host_never_requested
    (target host : string) (infos : list addrinfo) (ip : string)
    (hdrs cookies : option (list (string * string)))
    (params body : option pydict) (max_retries : Z) (w : W) :
  block_private_networks settings = true ->
  validate_public_http_url urlparse target = Ok tt ->
  hostname (urlparse target) = Some host ->
  getaddrinfo host = Resolved infos ->
  In ip (addresses infos) ->
  _is_private_or_local parse_ipv6 is_loopback is_private is_link_local
    is_multicast is_reserved ip = true ->
  traced_get target hdrs params cookies max_retries ([], w)
  = (fetch_error ("Blocked host '" +:+ host
                  +:+ "' (resolves to private/internal IP)"), ([], w))
  /\ traced_post target hdrs body cookies max_retries ([], w)
     = (fetch_error ("Blocked host '" +:+ host
                     +:+ "' (resolves to private/internal IP)"), ([], w)).
Proof.
  intros Hblock Hvalid Hhost Hdns Hin Hprivate.
  unfold get_bytes, post_bytes, guard. rewrite Hblock.
  rewrite (blocked_by_private_address urlparse getaddrinfo parse_ipv6
             is_loopback is_private is_link_local is_multicast is_reserved
             target host infos ip Hvalid Hhost Hdns Hin Hprivate).
  done.
Qed.

End Fetches.

(** A network that is down. *)
Definition times_out : Request -> unit -> outcome * unit :=
  fun _ w => (RequestException "timed out", w).

Lemma fetch_gives_up_after_retries_witness :
  get_bytes default_settings parse_public resolve_public (fun _ => None)
    loopback_only no_flag no_flag no_flag no_flag
    (tracing times_out) (tracing_sleep no_sleep)
    "http://example.org/missing" None None None 2 ([], tt)
  = (fetch_error ("Failed to fetch URL after "
                  +:+ str_of_Z (2 + 1) +:+ " attempts: " +:+ "timed out"),
     (Sent (get_request default_settings "http://example.org/missing"
              None None None)
      :: retries (get_request default_settings "http://example.org/missing"
                    None None None) (Z.to_nat 2), tt)).
Proof.
  apply (fetch_gives_up_after_retries default_settings parse_public
           resolve_public (fun _ => None)
           loopback_only no_flag no_flag no_flag no_flag
           times_out no_sleep "http://example.org/missing" None None None
           2 tt (Some "timed out") tt tt "timed out").
  - lia.
  - vm_compute. reflexivity.
  - reflexivity.
  - reflexivity.
Defined.

(** A network that times out once and then answers; the world counts
    the requests. *)
Definition fails_once (resp : Response) : Request -> nat -> outcome * nat :=
  fun _ n =>
    match n with
    | O => (RequestException "timed out", 1%nat)
    | S _ => (Responded resp, S n)
    end.

Definition no_pause : Z -> nat -> nat := fun _ n => n.

Lemma http_status_returned_without_retry_witness :
  get_bytes default_settings parse_public resolve_public (fun _ => None)
    loopback_only no_flag no_flag no_flag no_flag
    (tracing (fails_once (not_found [Byte.x3c; Byte.x70; Byte.x3e])))
    (tracing_sleep no_pause)
    "http://example.org/missing" None None None 3 ([], 0%nat)
  = (if (len (content_of (not_found [Byte.x3c; Byte.x70; Byte.x3e]))
         >? http_max_bytes default_settings)%Z
     then fetch_error ("Response too large (>"
                       +:+ str_of_Z (http_max_bytes default_settings)
                       +:+ " bytes)")
     else Ok (fetch_result_of (not_found [Byte.x3c; Byte.x70; Byte.x3e])),
     (Sent (get_request default_settings "http://example.org/missing"
              None None None)
      :: retries (get_request default_settings "http://example.org/missing"
                    None None None) 1, 2%nat))
  /\ status_code (fetch_result_of (not_found [Byte.x3c; Byte.x70; Byte.x3e]))
     = resp_status_code (not_found [Byte.x3c; Byte.x70; Byte.x3e]).
Proof.
  destruct (http_status_returned_without_retry default_settings
              parse_public resolve_public (fun _ => None)
              loopback_only no_flag no_flag no_flag no_flag
              (fails_once (not_found [Byte.x3c; Byte.x70; Byte.x3e]))
              no_pause
              "http://example.org/missing" None None None None 3 0%nat)
    as [Hget _].
  - lia.
  - vm_compute. reflexivity.
  - apply (Hget 1%nat (Some "timed out") 1%nat).
    + lia.
    + reflexivity.
    + reflexivity.
Defined.

(** The run of the witness, computed: one failure, one pause, and the
    404 returned as a result. *)
Example flaky_fetch_example :
  get_bytes default_settings parse_public resolve_public (fun _ => None)
    loopback_only no_flag no_flag no_flag no_flag
    (tracing (fails_once (not_found [Byte.x3c; Byte.x70; Byte.x3e])))
    (tracing_sleep no_pause)
    "http://example.org/missing" None None None 3 ([], 0%nat)
  = (Ok (fetch_result_of (not_found [Byte.x3c; Byte.x70; Byte.x3e])),
     ([Sent (get_request default_settings "http://example.org/missing"
               None None None);
       Slept 1;
       Sent (get_request default_settings "http://example.org/missing"
               None None None)], 2%nat))
  /\ status_code (fetch_result_of (not_found [Byte.x3c; Byte.x70; Byte.x3e]))
     = 404.
Proof. split; vm_compute; reflexivity. Qed.

Lemma oversized_response_refused_witness :
  get_bytes default_settings parse_public resolve_public (fun _ => None)
    loopback_only no_flag no_flag no_flag no_flag
    (tracing (answers (not_found (repeat Byte.x00 (Z.to_nat 2000001)))))
    (tracing_sleep no_sleep)
    "http://example.org/missing" None None None 3 ([], tt)
  = (fetch_error ("Response too large (>"
                  +:+ str_of_Z (http_max_bytes default_settings)
                  +:+ " bytes)"),
     ([Sent (get_request default_settings "http://example.org/missing"
               None None None)], tt)).
Proof.
  apply (oversized_response_refused default_settings parse_public
           resolve_public (fun _ => None)
           loopback_only no_flag no_flag no_flag no_flag
           (answers (not_found (repeat Byte.x00 (Z.to_nat 2000001))))
           no_sleep "http://example.org/missing" None None None 3 tt tt
           (not_found (repeat Byte.x00 (Z.to_nat 2000001)))).
  - lia.
  - vm_compute. reflexivity.
  - reflexivity.
  - vm_compute. reflexivity.
Defined.

Lemma private_host_never_requested_witness :
  get_bytes default_settings parse_internal resolve_mixed (fun _ => None)
    loopback_only no_flag no_flag no_flag no_flag
    (tracing (answers (not_found []))) (tracing_sleep no_sleep)
    "http://internal.test/" None None None 2 ([], tt)
  = (fetch_error ("Blocked host '" +:+ "internal.test"
                  +:+ "' (resolves to private/internal IP)"), ([], tt))
  /\ post_bytes default_settings parse_internal resolve_mixed (fun _ => None)
       loopback_only no_flag no_flag no_flag no_flag
       (tracing (answers (not_found []))) (tracing_sleep no_sleep)
       "http://internal.test/" None None None 2 ([], tt)
     = (fetch_error ("Blocked host '" +:+ "internal.test"
                     +:+ "' (resolves to private/internal IP)"), ([], tt)).
Proof.
  apply (private_host_never_requested default_settings parse_internal
           resolve_mixed (fun _ => None)
           loopback_only no_flag no_flag no_flag no_flag
           (answers (not_found [])) no_sleep
           "http://internal.test/" "internal.test"
           [{| family := AF_INET; sockaddr_host := "93.184.216.34" |};
            {| family := AF_INET6; sockaddr_host := "not an address" |};
            {| family := AF_INET; sockaddr_host := "10.0.0.7" |}]
           "not an address" None None None None 2 tt).
  - reflexivity.
  - reflexivity.
  - reflexivity.
  - reflexivity.
  - right. left. reflexivity.
  - vm_compute. reflexivity.
Defined.

(** *** The headers of a request *)

Lemma dict_get_update {A} k (e : list (string * A)) :
  NoDup (dict_keys e) ->
  forall d,
    dict_get k (dict_update d e)
    = match dict_get k e with
      | Some v => Some v
      | None => dict_get k d
      end.
Proof.
  unfold dict_update.
  induction e as [|[k1 v1] e IH]; intros Hnodup d; [done|].
  apply NoDup_cons in Hnodup as [Hnot Hnodup].
  cbn [fold_left fst snd dict_get]. rewrite (IH Hnodup).
  destruct (String.eqb k k1) eqn:E.
  - apply String.eqb_eq in E. subst k1.
    assert (dict_get k e = None) as ->.
    { clear -Hnot. induction e as [|[k2 v2] e IH]; [done|]. simpl.
      destruct (String.eqb k k2) eqn:E.
      - apply String.eqb_eq in E. subst. exfalso. apply Hnot.
        simpl. by left.
      - apply IH. intros Hin. apply Hnot. simpl. by right. }
    apply dict_get_set_eq.
  - destruct (dict_get k e); [done|]. apply dict_get_set_ne.
    intros ->. by rewrite String.eqb_refl in E.
Qed.

Lemma join_not_empty sep first rest :
  first <> EmptyString -> join sep (first :: rest) <> EmptyString.
Proof.
  intros Hfirst. destruct first as [|c first]; [done|].
  simpl. by destruct rest.
Qed.

(** The headers a GET carries.  A header of the caller wins over the
    default User-Agent, which is there when the caller gives none.
    When there are cookies, the Cookie header is the cookies as
    name=value joined by "; ", whatever Cookie header the caller gave;
    without cookies the caller's headers are all there is. *)
Theorem get_request_headers (settings : Settings) (target : string)
    (hdrs cookies : option (list (string * string)))
    (params : option pydict) (k : string) :
  NoDup (dict_keys (default [] hdrs)) ->
  dict_get k (req_headers (get_request settings target hdrs params cookies))
  = match cookies with
    | Some ((_ :: _) as jar) =>
        if String.eqb k "Cookie"
        then Some (join "; " (map (fun kv => fst kv +:+ "=" +:+ snd kv) jar))
        else match dict_get k (default [] hdrs) with
             | Some v => Some v
             | None =>
                 if String.eqb k "User-Agent" then Some DEFAULT_UA else None
             end
    | _ =>
        match dict_get k (default [] hdrs) with
        | Some v => Some v
        | None => if String.eqb k "User-Agent" then Some DEFAULT_UA else None
        end
    end.
Proof.
  intros Hnodup. unfold get_request. cbn [req_headers].
  assert (dict_get k (_merged_headers hdrs)
          = match dict_get k (default [] hdrs) with
            | Some v => Some v
            | None =>
                if String.eqb k "User-Agent" then Some DEFAULT_UA else None
            end) as Hmerged.
  { unfold _merged_headers. destruct hdrs as [[|h extra]|]; try done.
    by rewrite dict_get_update. }
  destruct cookies as [[|c jar]|]; try done.
  unfold _build_cookie_header, with_cookie.
  destruct (join "; " _) as [|x joined] eqn:Hjoin.
  { exfalso. revert Hjoin. apply join_not_empty.
    destruct (fst c); discriminate. }
  destruct (String.eqb k "Cookie") eqn:E.
  - apply String.eqb_eq in E. subst k. apply dict_get_set_eq.
  - rewrite dict_get_set_ne; [done|].
    intros <-. by rewrite String.eqb_refl in E.
Qed.

Lemma get_request_headers_witness :
  dict_get "Cookie"
    (req_headers
       (get_request default_settings "http://example.org/missing"
          (Some [("Cookie", "old=1"); ("User-Agent", "probe/1.0")]) None
          (Some [("sid", "abc"); ("theme", "dark")])))
  = match Some [("sid", "abc"); ("theme", "dark")] with
    | Some ((_ :: _) as jar) =>
        if String.eqb "Cookie" "Cookie"
        then Some (join "; " (map (fun kv => fst kv +:+ "=" +:+ snd kv) jar))
        else match dict_get "Cookie"
                     (default [] (Some [("Cookie", "old=1");
                                        ("User-Agent", "probe/1.0")])) with
             | Some v => Some v
             | None =>
                 if String.eqb "Cookie" "User-Agent"
                 then Some DEFAULT_UA else None
             end
    | _ =>
        match dict_get "Cookie"
                (default [] (Some [("Cookie", "old=1");
                                   ("User-Agent", "probe/1.0")])) with
        | Some v => Some v
        | None =>
            if String.eqb "Cookie" "User-Agent" then Some DEFAULT_UA else None
        end
    end.
Proof.
  apply (get_request_headers default_settings "http://example.org/missing"
           (Some [("Cookie", "old=1"); ("User-Agent", "probe/1.0")])
           (Some [("sid", "abc"); ("theme", "dark")]) None "Cookie").
  apply (bool_decide_unpack _). vm_compute. exact I.
Defined.

Example cookie_header_example :
  dict_get "Cookie"
    (req_headers
       (get_request default_settings "http://example.org/missing"
          (Some [("Cookie", "old=1"); ("User-Agent", "probe/1.0")]) None
          (Some [("sid", "abc"); ("theme", "dark")])))
  = Some "sid=abc; theme=dark".
Proof. vm_compute. reflexivity. Qed.

End HttpClient.

(** ** Records of a JSON payload ([app/services/json_extract.py]) *)

Module JsonExtract.

Record JsonRecordsResult : Type := {
  records : list value;
  path : string
}.

Definition _is_record (obj : value) : bool :=
  match obj with
  | VDict _ => true
  | _ => false
  end.

(** [isinstance(obj, list) and obj and all(_is_record(x) for x in obj)] *)
Definition _is_list_of_records (obj : value) : bool :=
  match obj with
  | VList ((_ :: _) as items) => forallb _is_record items
  | _ => false
  end.

(** The elements of a list value. *)
Definition elements_of (obj : value) : list value :=
  match obj with
  | VList items => items
  | _ => []
  end.

(** What the search appends to its queue for a node it expands: the
    values of a dictionary under [path.k], in key order; the first 50
    elements of a list under [path[idx]]. *)
Definition children (node : value) (path : string)
  : list (value * string) :=
  match node with
  | VDict d => map (fun kv => (snd kv, path +:+ "." +:+ fst kv)) d
  | VList items =>
      imap (fun idx v =>
              (v, path +:+ "[" +:+ str_of_Z (Z.of_nat idx) +:+ "]"))
        (take 50 items)
  | _ => []
  end.

(** [while queue and visited < 500]; [budget] is [500 - visited]. *)
Fixpoint search (budget : nat) (queue : list (value * string))
    (best : option JsonRecordsResult) : option JsonRecordsResult :=
  match budget with
  | O => best
  | S budget' =>
      match queue with
      | [] => best
      | (node, path) :: queue =>
          if _is_list_of_records node then
            let candidate :=
              {| records := elements_of node; path := path |} in
            let best :=
              match best with
              | None => Some candidate
              | Some b =>
                  if (len (records candidate) >? len (records b))%Z
                  then Some candidate
                  else best
              end in
            search budget' queue best
          else
            search budget' (queue ++ children node path) best
      end
  end.

Definition extract_records_from_json (payload : value)
  : option JsonRecordsResult :=
  (* Direct list-of-objects *)
  if _is_list_of_records payload
  then Some {| records := elements_of payload; path := "$" |}
  else
    match payload with
    | VDict _ | VList _ =>
        match search 500 [(payload, "$")] None with
        | Some best => Some best
        | None =>
            (* Fallback: a non-empty root dict is a single record. *)
            match payload with
            | VDict (_ :: _) => Some {| records := [payload]; path := "$" |}
            | _ => None
            end
        end
    | _ => None
    end.

(** *** The traversal *)

(** The nodes the search takes off its queue, in order. *)
Fixpoint visits (budget : nat) (queue : list (value * string))
  : list (value * string) :=
  match budget, queue with
  | S budget', (node, path) :: queue =>
      (node, path)
      :: visits budget'
           (if _is_list_of_records node then queue
            else queue ++ children node path)
  | _, _ => []
  end.

Definition candidate_of (visit : value * string) : JsonRecordsResult :=
  {| records := elements_of (fst visit); path := snd visit |}.

(** The arrays of objects among the visited nodes, in visiting order. *)
Definition candidates (payload : value) : list JsonRecordsResult :=
  map candidate_of
    (filter (fun visit => _is_list_of_records (fst visit) = true)
       (visits 500 [(payload, "$")])).

(** What the search can reach from the root: it expands every node but
    an array of objects. *)
Inductive reachable (payload : value) : value * string -> Prop :=
| reach_root : reachable payload (payload, "$")
| reach_child node path child :
    reachable payload (node, path) ->
    _is_list_of_records node = false ->
    In child (children node path) ->
    reachable payload child.

(** What the words of the specification reach: dictionaries over all
    keys, arrays over their first 50 elements, arrays of objects too. *)
Inductive reachable_through_arrays (payload : value)
  : value * string -> Prop :=
| through_root : reachable_through_arrays payload (payload, "$")
| through_child node path child :
    reachable_through_arrays payload (node, path) ->
    In child (children node path) ->
    reachable_through_arrays payload child.

(** The search keeps a candidate only if it is longer than the best. *)
Definition keep_longer (best : option JsonRecordsResult)
    (candidate : JsonRecordsResult) : option JsonRecordsResult :=
  match best with
  | None => Some candidate
  | Some b =>
      if (len (records candidate) >? len (records b))%Z
      then Some candidate
      else best
  end.

Lemma search_fold budget :
  forall queue best,
    search budget queue best
    = fold_left keep_longer
        (map candidate_of
           (filter (fun visit => _is_list_of_records (fst visit) = true)
              (visits budget queue)))
        best.
Proof.
  induction budget as [|budget IH]; intros queue best; [done|].
  destruct queue as [|[node path] queue]; [done|].
  cbn [search visits]. rewrite filter_cons. cbn [fst].
  destruct (_is_list_of_records node) eqn:Hcand.
  - rewrite decide_True by done. cbn [map fold_left]. apply IH.
  - rewrite decide_False by done. apply IH.
Qed.

Lemma fold_keep_longer (cs : list JsonRecordsResult) :
  forall b0 b,
    fold_left keep_longer cs (Some b0) = Some b ->
    (b = b0 /\ forall c, In c cs -> len (records c) <= len (records b0))
    \/ (len (records b0) < len (records b) /\
        exists i, cs !! i = Some b /\
          forall j c, cs !! j = Some c ->
            len (records c) <= len (records b)
            /\ ((j < i)%nat -> len (records c) < len (records b))).
Proof.
  induction cs as [|c cs IH]; intros b0 b Hfold.
  - left. injection Hfold as <-. split; [done|]. intros c [].
  - cbn [fold_left keep_longer] in Hfold.
    destruct (len (records c) >? len (records b0))%Z eqn:Hgt.
    + destruct (IH _ _ Hfold) as [[-> Hall]|(Hlt & i & Hi & Hmax)].
      * right. split; [lia|]. exists 0%nat. split; [done|].
        intros [|j] c' Hj; simpl in Hj.
        -- injection Hj as <-. split; [lia|lia].
        -- apply list_elem_of_lookup_2, list_elem_of_In in Hj.
           split; [by apply Hall|lia].
      * right. split; [lia|]. exists (S i). split; [done|].
        intros [|j] c' Hj; simpl in Hj.
        -- injection Hj as <-. split; lia.
        -- destruct (Hmax _ _ Hj) as [Hle Hlt']. split; [done|].
           intros Hji. apply Hlt'. lia.
    + destruct (IH _ _ Hfold) as [[-> Hall]|(Hlt & i & Hi & Hmax)].
      * left. split; [done|]. intros c' [<-|Hin]; [lia|by apply Hall].
      * right. split; [done|]. exists (S i). split; [done|].
        intros [|j] c' Hj; simpl in Hj.
        -- injection Hj as <-. split; lia.
        -- destruct (Hmax _ _ Hj) as [Hle Hlt']. split; [done|].
           intros Hji. apply Hlt'. lia.
Qed.

(** From no best at all, the result is the first of the longest. *)
Lemma fold_keep_longer_first (cs : list JsonRecordsResult) b :
  fold_left keep_longer cs None = Some b ->
  exists i, cs !! i = Some b /\
    forall j c, cs !! j = Some c ->
      len (records c) <= len (records b)
      /\ ((j < i)%nat -> len (records c) < len (records b)).
Proof.
  destruct cs as [|c cs]; [discriminate|]. cbn [fold_left keep_longer].
  intros Hfold.
  destruct (fold_keep_longer _ _ _ Hfold) as [[-> Hall]|(Hlt & i & Hi & Hmax)].
  - exists 0%nat. split; [done|]. intros [|j] c' Hj; simpl in Hj.
    + injection Hj as <-. split; lia.
    + apply list_elem_of_lookup_2, list_elem_of_In in Hj.
      split; [by apply Hall|lia].
  - exists (S i). split; [done|]. intros [|j] c' Hj; simpl in Hj.
    + injection Hj as <-. split; lia.
    + destruct (Hmax _ _ Hj) as [Hle Hlt']. split; [done|].
      intros Hji. apply Hlt'. lia.
Qed.

Lemma search_nil budget best : search budget [] best = best.
Proof. by destruct budget. Qed.

(** An array of objects at the root is the one candidate. *)
Lemma search_root_candidate budget node path :
  _is_list_of_records node = true ->
  search (S budget) [(node, path)] None
  = Some {| records := elements_of node; path := path |}.
Proof. intros Hcand. cbn [search]. rewrite Hcand. apply search_nil. Qed.

(** A root that is neither a dictionary nor a list ends the search. *)
Lemma search_leaf budget node path best :
  _is_list_of_records node = false ->
  children node path = [] ->
  search (S budget) [(node, path)] best = best.
Proof.
  intros Hcand Hleaf. cbn [search]. rewrite Hcand, Hleaf. apply search_nil.
Qed.

(** While the budget lasts, what is queued is visited. *)
Lemma visits_queue budget :
  forall queue,
    (List.length (visits budget queue) < budget)%nat ->
    forall x, In x queue -> In x (visits budget queue).
Proof.
  induction budget as [|budget IH]; intros queue Hlen x Hx; [lia|].
  destruct queue as [|[node path] queue]; [done|].
  cbn [visits] in *. cbn [List.length] in Hlen.
  destruct Hx as [<-|Hx]; [by left|]. right.
  apply IH; [lia|]. destruct (_is_list_of_records node); [done|].
  apply in_or_app. by left.
Qed.

(** While the budget lasts, the children of an expanded node are
    visited. *)
Lemma visits_children budget :
  forall queue,
    (List.length (visits budget queue) < budget)%nat ->
    forall node path child,
      In (node, path) (visits budget queue) ->
      _is_list_of_records node = false ->
      In child (children node path) ->
      In child (visits budget queue).
Proof.
  induction budget as [|budget IH];
    intros queue Hlen node path child Hin Hexp Hchild; [lia|].
  destruct queue as [|[node0 path0] queue]; [done|].
  cbn [visits] in *. cbn [List.length] in Hlen. right.
  destruct Hin as [[= -> ->]|Hin].
  - rewrite Hexp in *. apply visits_queue; [lia|].
    apply in_or_app. by right.
  - eapply IH; [lia|exact Hin|done|done].
Qed.

Lemma reachable_visited payload :
  (List.length (visits 500 [(payload, "$")]) < 500)%nat ->
  forall x, reachable payload x -> In x (visits 500 [(payload, "$")]).
Proof.
  intros Hlen x Hx. induction Hx as [|node path child _ IH Hexp Hchild].
  - apply visits_queue; [done|]. by left.
  - by eapply visits_children.
Qed.

(** What is visited is reachable. *)
Lemma visited_reachable payload budget :
  forall queue,
    (forall x, In x queue -> reachable payload x) ->
    forall x, In x (visits budget queue) -> reachable payload x.
Proof.
  induction budget as [|budget IH]; intros queue Hqueue x Hx; [done|].
  destruct queue as [|[node path] queue]; [done|].
  cbn [visits] in Hx. destruct Hx as [<-|Hx]; [apply Hqueue; by left|].
  eapply IH; [|exact Hx]. intros y Hy.
  destruct (_is_list_of_records node) eqn:Hexp.
  - apply Hqueue. by right.
  - apply in_app_or in Hy as [Hy|Hy]; [apply Hqueue; by right|].
    eapply reach_child; [|exact Hexp|exact Hy]. apply Hqueue. by left.
Qed.

(** C4, as the code has it.  When the breadth-first search returns a
    record list, it is what the extraction returns, and it is the first
    of the longest among the arrays of objects the traversal visits:
    no visited array of objects is longer, and every one visited before
    it is shorter.  The traversal takes nodes off a queue, at most 500
    of them; it expands a dictionary over all its keys, in key order,
    and a list over its first 50 elements, in index order, but it does
    not expand an array of objects: what lies inside a candidate is not
    visited.  Every visited node is reachable in this way from the
    root, and when the traversal ends before its 500th visit, every
    array of objects reachable in this way is at most as long as the
    list returned. *)
Theorem search_returns_first_longest (payload : value)
    (best : JsonRecordsResult) :
  search 500 [(payload, "$")] None = Some best ->
  extract_records_from_json payload = Some best
  /\ (exists i, candidates payload !! i = Some best /\
        forall j c, candidates payload !! j = Some c ->
          len (records c) <= len (records best)
          /\ ((j < i)%nat -> len (records c) < len (records best)))
  /\ (forall visit, In visit (visits 500 [(payload, "$")]) ->
        reachable payload visit)
  /\ ((List.length (visits 500 [(payload, "$")]) < 500)%nat ->
      forall node path,
        reachable payload (node, path) ->
        _is_list_of_records node = true ->
        len (elements_of node) <= len (records best)).
Proof.
  intros Hsearch.
  assert (exists i, candidates payload !! i = Some best /\
            forall j c, candidates payload !! j = Some c ->
              len (records c) <= len (records best)
              /\ ((j < i)%nat -> len (records c) < len (records best)))
    as Hfirst.
  { apply fold_keep_longer_first. unfold candidates.
    by rewrite <- search_fold. }
  split; [|split; [exact Hfirst|split]].
  - unfold extract_records_from_json.
    change 500%nat with (S 499) in Hsearch.
    destruct (_is_list_of_records payload) eqn:Hroot.
    + by rewrite (search_root_candidate _ _ _ Hroot) in Hsearch.
    + destruct payload;
        try (rewrite (search_leaf 499 _ "$" None Hroot eq_refl) in Hsearch;
             discriminate Hsearch);
        change (S 499) with 500%nat in Hsearch; by rewrite Hsearch.
  - intros visit Hvisit. eapply visited_reachable; [|exact Hvisit].
    intros x [<-|[]]. constructor.
  - intros Hlen node path Hreach Hcand.
    apply (reachable_visited _ Hlen) in Hreach.
    destruct Hfirst as (i & _ & Hmax).
    assert (In (candidate_of (node, path)) (candidates payload)) as Hin.
    { unfold candidates. apply in_map, list_elem_of_In, list_elem_of_filter.
      split; [done|]. by apply list_elem_of_In. }
    apply list_elem_of_In, list_elem_of_lookup in Hin as [j Hj].
    by destruct (Hmax _ _ Hj) as [Hle _].
Qed.

(** A GraphQL-like answer with two arrays of objects. *)
Definition two_lists : value :=
  VDict [("data",
          VDict [("errors", VList [VDict [("message", VStr "late")]]);
                 ("items", VList [VDict [("id", VInt 1)];
                                  VDict [("id", VInt 2)]])])].

Lemma search_returns_first_longest_witness :
  extract_records_from_json two_lists
  = Some {| records := [VDict [("id", VInt 1)]; VDict [("id", VInt 2)]];
            path := "$.data.items" |}.
Proof.
  apply (search_returns_first_longest two_lists
           {| records := [VDict [("id", VInt 1)]; VDict [("id", VInt 2)]];
              path := "$.data.items" |}).
  vm_compute. reflexivity.
Defined.

(** An array of two objects inside an array of one object. *)
Definition nested_lists : value :=
  VDict [("a", VList [VDict [("b", VList [VDict []; VDict []])]])].

(** The claim as the specification has it fails: expanding arrays over
    their elements reaches an array of two objects, and the list
    returned has one element. *)
Lemma nested_longer_list_not_returned :
  extract_records_from_json nested_lists
  = Some {| records := [VDict [("b", VList [VDict []; VDict []])]];
            path := "$.a" |}
  /\ reachable_through_arrays nested_lists
       (VList [VDict []; VDict []], "$.a[0].b")
  /\ _is_list_of_records (VList [VDict []; VDict []]) = true
  /\ len [VDict [("b", VList [VDict []; VDict []])]]
     < len (elements_of (VList [VDict []; VDict []])).
Proof.
  split; [vm_compute; reflexivity|].
  split; [|split; [reflexivity|vm_compute; reflexivity]].
  apply (through_child nested_lists
           (VDict [("b", VList [VDict []; VDict []])]) "$.a[0]");
    [|left; reflexivity].
  apply (through_child nested_lists
           (VList [VDict [("b", VList [VDict []; VDict []])]]) "$.a");
    [|left; reflexivity].
  apply (through_child nested_lists nested_lists "$");
    [|left; reflexivity].
  apply through_root.
Qed.

(** *** What a result holds *)

Lemma list_of_records_elements (obj : value) :
  _is_list_of_records obj = true ->
  elements_of obj <> []
  /\ forall x, In x (elements_of obj) -> _is_record x = true.
Proof.
  destruct obj as [| | | | |items|]; try discriminate.
  destruct items as [|first items]; [discriminate|].
  cbn [_is_list_of_records elements_of]. intros Hall.
  split; [done|]. by apply forallb_forall.
Qed.

(** Whatever the payload, the records of a result are never an empty
    list, and each of them is a JSON object: the extraction hands no
    scalar and no list to its caller as a record. *)
Theorem extracted_records_are_objects (payload : value)
    (found : JsonRecordsResult) :
  extract_records_from_json payload = Some found ->
  records found <> []
  /\ forall x, In x (records found) -> _is_record x = true.
Proof.
  unfold extract_records_from_json.
  destruct (_is_list_of_records payload) eqn:Hroot.
  { intros [= <-]. by apply list_of_records_elements. }
  assert (forall best,
            search 500 [(payload, "$")] None = Some best ->
            records best <> []
            /\ forall x, In x (records best) -> _is_record x = true)
    as Hsearch.
  { intros best Hbest. rewrite search_fold in Hbest.
    apply fold_keep_longer_first in Hbest as (i & Hi & _).
    apply list_elem_of_lookup_2, list_elem_of_In, in_map_iff in Hi
      as (visit & <- & Hvisit).
    apply list_elem_of_In, list_elem_of_filter in Hvisit as [Hcand _].
    by apply list_of_records_elements. }
  destruct payload as [| | | | |items|items]; try discriminate.
  - destruct (search 500 _ None) as [best|] eqn:Hbest; [|discriminate].
    intros [= <-]. by apply Hsearch.
  - destruct (search 500 _ None) as [best|] eqn:Hbest.
    + intros [= <-]. by apply Hsearch.
    + destruct items as [|kv items]; [discriminate|]. intros [= <-].
      split; [done|]. by intros x [<-|[]].
Qed.

Lemma extracted_records_are_objects_witness :
  records {| records := [VDict [("id", VInt 1)]; VDict [("id", VInt 2)]];
             path := "$.data.items" |} <> []
  /\ forall x,
       In x (records {| records := [VDict [("id", VInt 1)];
                                    VDict [("id", VInt 2)]];
                        path := "$.data.items" |}) ->
       _is_record x = true.
Proof.
  apply (extracted_records_are_objects two_lists).
  vm_compute. reflexivity.
Defined.

(** *** The cursor of a payload *)

(** [str(node)] for the scalars; [repr] stands for what Python prints
    for a float, a list or a dictionary. *)
Definition str_of (repr : value -> string) (node : value) : string :=
  match node with
  | VStr s => s
  | VInt z => str_of_Z z
  | VBool true => "True"
  | VBool false => "False"
  | VNone => "None"
  | other => repr other
  end.

Section Cursor.
Variable repr : value -> string.

(** The loop over the parts of the dotted path. *)
Fixpoint follow (parts : list string) (node : value) : option string :=
  match parts with
  | [] => Some (str_of repr node)
  | part :: parts' =>
      match part with
      | EmptyString => None
      | _ =>
          match node with
          | VDict d =>
              match dict_get part d with
              | None | Some VNone => None
              | Some next => follow parts' next
              end
          | _ => None
          end
      end
  end.

Definition get_top_level_cursor (payload : value) (cursor_field : string)
  : option string :=
  match cursor_field with
  | EmptyString => None
  | _ => follow (UrlSafety.split_char "." cursor_field) payload
  end.

(** A key without a dot. *)
Definition plain_key (key : string) : Prop :=
  key <> EmptyString
  /\ UrlSafety.all_chars (fun c => negb (Ascii.eqb c ".")) key = true.

Lemma split_plain_key key rest :
  UrlSafety.all_chars (fun c => negb (Ascii.eqb c ".")) key = true ->
  UrlSafety.split_char "." (key +:+ String "." rest)
  = key :: UrlSafety.split_char "." rest.
Proof.
  induction key as [|c key IH]; intros Hplain; [done|].
  cbn [UrlSafety.all_chars] in Hplain.
  apply andb_prop in Hplain as [Hc Hkey].
  simpl. destruct (Ascii.eqb c ".") eqn:E; [done|]. by rewrite (IH Hkey).
Qed.

Lemma split_one_key key :
  UrlSafety.all_chars (fun c => negb (Ascii.eqb c ".")) key = true ->
  UrlSafety.split_char "." key = [key].
Proof.
  induction key as [|c key IH]; intros Hplain; [done|].
  cbn [UrlSafety.all_chars] in Hplain.
  apply andb_prop in Hplain as [Hc Hkey].
  cbn [UrlSafety.split_char].
  destruct (Ascii.eqb c ".") eqn:E; [done|]. by rewrite (IH Hkey).
Qed.

Lemma split_not_nil s : UrlSafety.split_char "." s <> [].
Proof.
  induction s as [|c s IH]; [done|]. cbn [UrlSafety.split_char].
  destruct (Ascii.eqb c "."); [done|].
  by destruct (UrlSafety.split_char "." s).
Qed.

(** The dotted path is followed key by key.  For a key without a dot:
    the cursor at [key.rest] is the cursor at [rest] of the value under
    [key], and there is none when the payload is not an object, when the
    key is missing or when its value is null; the cursor at [key] is the
    text of the value under [key].  A payload that is not an object has
    no cursor at any path. *)
Theorem cursor_path_follows_keys (payload : value) (key rest : string) :
  plain_key key ->
  get_top_level_cursor payload (key +:+ "." +:+ rest)
  = match payload with
    | VDict d =>
        match dict_get key d with
        | None | Some VNone => None
        | Some next => get_top_level_cursor next rest
        end
    | _ => None
    end
  /\ get_top_level_cursor payload key
     = match payload with
       | VDict d =>
           match dict_get key d with
           | None | Some VNone => None
           | Some leaf => Some (str_of repr leaf)
           end
       | _ => None
       end
  /\ forall path,
       _is_record payload = false ->
       get_top_level_cursor payload path = None.
Proof.
  intros [Hkey Hplain]. destruct key as [|c key]; [done|]. split; [|split].
  - unfold get_top_level_cursor at 1.
    change (String c key +:+ "." +:+ rest)
      with (String c (key +:+ String "." rest)).
    change (String c (key +:+ String "." rest))
      with (String c key +:+ String "." rest) at 2.
    rewrite (split_plain_key _ _ Hplain). cbn [follow].
    destruct payload as [| | | | | |d]; try done.
    destruct (dict_get (String c key) d) as [next|]; [|done].
    unfold get_top_level_cursor. destruct rest as [|r rest].
    + cbn [UrlSafety.split_char follow]. by destruct next.
    + done.
  - unfold get_top_level_cursor. rewrite (split_one_key _ Hplain).
    cbn [follow]. by destruct payload.
  - intros path Hscalar. unfold get_top_level_cursor.
    destruct path as [|p path]; [done|].
    pose proof (split_not_nil (String p path)) as Hparts.
    destruct (UrlSafety.split_char "." (String p path)) as [|part parts];
      [done|].
    cbn [follow]. destruct part; [done|].
    by destruct payload.
Qed.

End Cursor.

Lemma cursor_path_follows_keys_witness :
  get_top_level_cursor (fun _ => "?")
    (VDict [("data", VDict [("after", VStr "c2")])]) ("data" +:+ "." +:+ "after")
  = match VDict [("data", VDict [("after", VStr "c2")])] with
    | VDict d =>
        match dict_get "data" d with
        | None | Some VNone => None
        | Some next => get_top_level_cursor (fun _ => "?") next "after"
        end
    | _ => None
    end
  /\ get_top_level_cursor (fun _ => "?")
       (VDict [("data", VDict [("after", VStr "c2")])]) "data"
     = match VDict [("data", VDict [("after", VStr "c2")])] with
       | VDict d =>
           match dict_get "data" d with
           | None | Some VNone => None
           | Some leaf => Some (str_of (fun _ => "?") leaf)
           end
       | _ => None
       end
  /\ forall path,
       _is_record (VDict [("data", VDict [("after", VStr "c2")])]) = false ->
       get_top_level_cursor (fun _ => "?")
         (VDict [("data", VDict [("after", VStr "c2")])]) path = None.
Proof.
  apply (cursor_path_follows_keys (fun _ => "?")
           (VDict [("data", VDict [("after", VStr "c2")])]) "data" "after").
  split; [discriminate|reflexivity].
Defined.

Example cursor_examples :
  get_top_level_cursor (fun _ => "?")
    (VDict [("data", VDict [("after", VStr "c2"); ("n", VInt 12)])])
    "data.after" = Some "c2"
  /\ get_top_level_cursor (fun _ => "?")
       (VDict [("data", VDict [("after", VStr "c2"); ("n", VInt 12)])])
       "data.n" = Some "12"
  /\ get_top_level_cursor (fun _ => "?")
       (VDict [("data", VDict [("after", VNone)])]) "data.after" = None
  /\ get_top_level_cursor (fun _ => "?")
       (VDict [("data", VDict [("after", VStr "c2")])]) "data..after" = None.
Proof. repeat split; vm_compute; reflexivity. Qed.

End JsonExtract.

(** ** Matching requested fields ([app/services/field_filter.py]) *)

Module FieldFilter.

(** [re.sub(r"[^a-z0-9]", "", name)] *)
Fixpoint keep_chars (p : ascii -> bool) (s : string) : string :=
  match s with
  | EmptyString => EmptyString
  | String c s' =>
      if p c then String c (keep_chars p s') else keep_chars p s'
  end.

Definition normalize_field_name (name : string) : string :=
  (* Lowercase *)
  let name := lower name in
  (* Remove underscores, dashes, spaces, and other non-alphanumeric *)
  keep_chars is_lower_alnum name.

Record FieldMatchResult : Type := {
  matched_fields : list (string * string);
  unmatched_requested : list string;
  all_available_fields : list string
}.

(** [sorted(all_fields)] for a set of strings: every element once, in
    ascending order of code points.  The set is given by a list of its
    elements, in any order and with repetitions. *)
Fixpoint insert_sorted (x : string) (l : list string) : list string :=
  match l with
  | [] => [x]
  | y :: l' =>
      match String.compare x y with
      | Lt => x :: l
      | Eq => l
      | Gt => y :: insert_sorted x l'
      end
  end.

Definition sorted (set : list string) : list string :=
  fold_right insert_sorted [] set.

(** The body of the loop that builds [normalized_to_actual]. *)
Definition add_normalized (normalized_to_actual : list (string * string))
    (field : string) : list (string * string) :=
  let norm := normalize_field_name field in
  (* If multiple fields normalize to the same thing, prefer shorter names *)
  match dict_get norm normalized_to_actual with
  | None => dict_set norm field normalized_to_actual
  | Some current =>
      if (str_len field <? str_len current)%Z
      then dict_set norm field normalized_to_actual
      else normalized_to_actual
  end.

(** [for norm, actual in normalized_to_actual.items(): if req_norm in
    norm or norm in req_norm: ... break] *)
Fixpoint partial_match (req_norm : string) (items : list (string * string))
  : option string :=
  match items with
  | [] => None
  | (norm, actual) :: rest =>
      if str_contains req_norm norm || str_contains norm req_norm
      then Some actual
      else partial_match req_norm rest
  end.

(** The body of the loop over the requested fields. *)
Definition match_one (normalized_to_actual : list (string * string))
    (state : list (string * string) * list string) (req : string)
  : list (string * string) * list string :=
  let '(matched, unmatched) := state in
  let req_norm := normalize_field_name req in
  match req_norm with
  | EmptyString => state
  | _ =>
      (* Try exact normalized match first *)
      match dict_get req_norm normalized_to_actual with
      | Some actual => (dict_set req actual matched, unmatched)
      | None =>
          (* Try partial match *)
          match partial_match req_norm normalized_to_actual with
          | Some actual => (dict_set req actual matched, unmatched)
          | None => (matched, unmatched ++ [req])
          end
      end
  end.

Definition match_requested_fields (records : list pydict)
    (requested_fields : list string) : FieldMatchResult :=
  match records with
  | [] =>
      {| matched_fields := [];
         unmatched_requested := requested_fields;
         all_available_fields := [] |}
  | _ =>
      (* Collect all unique field names from all records *)
      let all_fields := flat_map dict_keys records in
      let all_fields_list := sorted all_fields in
      (* Build normalized -> actual field mapping *)
      let normalized_to_actual :=
        fold_left add_normalized all_fields_list [] in
      (* Match requested fields *)
      let state :=
        fold_left (match_one normalized_to_actual) requested_fields ([], []) in
      {| matched_fields := fst state;
         unmatched_requested := snd state;
         all_available_fields := all_fields_list |}
  end.

(** *** What the matcher chooses *)

(** Either normalized name contains the other. *)
Definition overlaps (req_norm norm : string) : bool :=
  str_contains req_norm norm || str_contains norm req_norm.

(** The first of the shortest names of a list. *)
Definition shorter_first (best : option string) (field : string)
  : option string :=
  match best with
  | None => Some field
  | Some b => if (str_len field <? str_len b)%Z then Some field else best
  end.

Definition first_shortest (names : list string) : option string :=
  fold_left shorter_first names None.

(** Among the fields whose normalized name is [norm], the one the
    matcher reports. *)
Definition preferred (fields : list string) (norm : string)
  : option string :=
  first_shortest
    (filter (fun f => normalize_field_name f = norm) fields).

(** The field chosen for a request: the first field, in the order of
    [fields], with the same normalized name as the request, else the
    first one whose normalized name overlaps with it; the name
    reported is the preferred one of that normalized name. *)
Definition chosen (fields : list string) (req : string) : option string :=
  let req_norm := normalize_field_name req in
  match find (fun f => String.eqb (normalize_field_name f) req_norm) fields
  with
  | Some f => preferred fields (normalize_field_name f)
  | None =>
      match find (fun f => overlaps req_norm (normalize_field_name f)) fields
      with
      | Some f => preferred fields (normalize_field_name f)
      | None => None
      end
  end.

(** The choice as the specification words it: the field found is the
    field reported. *)
Definition chosen_as_specified (fields : list string) (req : string)
  : option string :=
  let req_norm := normalize_field_name req in
  match find (fun f => String.eqb (normalize_field_name f) req_norm) fields
  with
  | Some f => Some f
  | None => find (fun f => overlaps req_norm (normalize_field_name f)) fields
  end.

Example match_upper_case_request :
  match_requested_fields [[("a", VStr "1"); ("b", VStr "2")]] ["A"]
  = {| matched_fields := [("A", "a")];
       unmatched_requested := [];
       all_available_fields := ["a"; "b"] |}.
Proof. vm_compute. reflexivity. Qed.

Example normalize_examples :
  normalize_field_name "Company Name" = "companyname"
  /\ normalize_field_name "company_name" = "companyname"
  /\ normalize_field_name "companyName" = "companyname".
Proof. repeat split; vm_compute; reflexivity. Qed.

(** *** The map from normalized to actual names *)

Lemma dict_set_new {A} k (v : A) d :
  dict_get k d = None -> dict_set k v d = d ++ [(k, v)].
Proof.
  induction d as [|[k' v'] d IH]; simpl; [done|].
  destruct (String.eqb k k'); [done|]. intros Hd. by rewrite IH.
Qed.

Lemma dict_set_keys {A} k (v c : A) d :
  dict_get k d = Some c -> map fst (dict_set k v d) = map fst d.
Proof.
  induction d as [|[k' v'] d IH]; simpl; [done|].
  destruct (String.eqb k k') eqn:E.
  - apply String.eqb_eq in E. by subst.
  - intros Hd. simpl. by rewrite IH.
Qed.

Lemma dict_get_key {A} k (c : A) d :
  dict_get k d = Some c -> In k (map fst d).
Proof.
  induction d as [|[k' v'] d IH]; simpl; [done|].
  destruct (String.eqb k k') eqn:E.
  - apply String.eqb_eq in E. by left.
  - intros Hd. right. by apply IH.
Qed.

Lemma shorter_first_some names b :
  exists a, fold_left shorter_first names (Some b) = Some a.
Proof.
  revert b. induction names as [|f names IH]; intros b; simpl; [by eexists|].
  destruct (_ <? _)%Z; apply IH.
Qed.

Lemma first_shortest_none names : first_shortest names = None -> names = [].
Proof.
  destruct names as [|f names]; [done|]. unfold first_shortest. simpl.
  destruct (shorter_first_some names f) as [a ->]. discriminate.
Qed.

(** The entry of a normalized name is the preferred field of that name. *)
Lemma normalized_entry fields :
  forall acc norm,
    dict_get norm (fold_left add_normalized fields acc)
    = fold_left shorter_first
        (filter (fun f => normalize_field_name f = norm) fields)
        (dict_get norm acc).
Proof.
  induction fields as [|f fields IH]; intros acc norm; [done|].
  cbn [fold_left]. rewrite IH, filter_cons.
  destruct (decide (normalize_field_name f = norm)) as [<-|Hne].
  - cbn [fold_left]. f_equal. unfold add_normalized, shorter_first.
    destruct (dict_get (normalize_field_name f) acc) as [cur|] eqn:Hget.
    + destruct (_ <? _)%Z; [apply dict_get_set_eq|done].
    + apply dict_get_set_eq.
  - f_equal. unfold add_normalized.
    destruct (dict_get (normalize_field_name f) acc) as [cur|].
    + destruct (_ <? _)%Z; [by apply dict_get_set_ne|done].
    + by apply dict_get_set_ne.
Qed.

Lemma find_app {A} (P : A -> bool) l1 l2 :
  find P (l1 ++ l2)
  = match find P l1 with Some x => Some x | None => find P l2 end.
Proof.
  induction l1 as [|x l1 IH]; simpl; [done|]. by destruct (P x).
Qed.

Lemma find_none_in {A} (P : A -> bool) l x :
  find P l = None -> In x l -> P x = false.
Proof. intros Hnone Hin. by apply (find_none P l Hnone). Qed.

(** The normalized names are entered in the order of their first
    field. *)
Lemma normalized_keys (P : string -> bool) fields :
  forall acc,
    find P (map fst (fold_left add_normalized fields acc))
    = match find P (map fst acc) with
      | Some k => Some k
      | None =>
          option_map normalize_field_name
            (find (fun f => P (normalize_field_name f)) fields)
      end.
Proof.
  induction fields as [|f fields IH]; intros acc.
  - simpl. by destruct (find P (map fst acc)).
  - cbn [fold_left find]. rewrite IH. unfold add_normalized.
    destruct (dict_get (normalize_field_name f) acc) as [cur|] eqn:Hget.
    + assert (map fst (if (str_len f <? str_len cur)%Z
                       then dict_set (normalize_field_name f) f acc
                       else acc) = map fst acc) as ->.
      { destruct (_ <? _)%Z; [by eapply dict_set_keys|done]. }
      destruct (find P (map fst acc)) eqn:Hfind; [done|].
      apply dict_get_key in Hget.
      by rewrite (find_none_in _ _ _ Hfind Hget).
    + rewrite (dict_set_new _ _ _ Hget), map_app, find_app. simpl.
      destruct (find P (map fst acc)); [done|].
      by destruct (P (normalize_field_name f)).
Qed.

(** The partial match takes the first entry whose key overlaps. *)
Lemma partial_match_first req_norm items :
  partial_match req_norm items
  = match find (overlaps req_norm) (map fst items) with
    | Some k => dict_get k items
    | None => None
    end.
Proof.
  induction items as [|[norm actual] items IH]; simpl; [done|].
  fold (overlaps req_norm norm).
  destruct (overlaps req_norm norm) eqn:Hov.
  - by rewrite String.eqb_refl.
  - rewrite IH. destruct (find _ _) as [k|] eqn:Hfind; [|done].
    apply find_some in Hfind as [_ Hk].
    destruct (String.eqb k norm) eqn:E; [|done].
    apply String.eqb_eq in E. congruence.
Qed.

Lemma filter_none (P : string -> Prop) `{!forall x, Decision (P x)}
    (l : list string) :
  (forall x, In x l -> ~ P x) -> filter P l = [].
Proof.
  induction l as [|x l IH]; intros Hnone; [done|].
  rewrite filter_cons, decide_False by (apply Hnone; by left).
  apply IH. intros y Hy. apply Hnone. by right.
Qed.

(** What one request finds in the map is what [chosen] says. *)
Lemma lookup_is_chosen fields req :
  let nta := fold_left add_normalized fields [] in
  match dict_get (normalize_field_name req) nta with
  | Some actual => Some actual
  | None => partial_match (normalize_field_name req) nta
  end = chosen fields req.
Proof.
  intros nta. subst nta. unfold chosen.
  set (rn := normalize_field_name req).
  rewrite partial_match_first, normalized_keys, !normalized_entry.
  cbn [dict_get map find fold_left].
  fold (first_shortest (filter (fun f => normalize_field_name f = rn) fields)).
  fold (preferred fields rn).
  destruct (find (fun f => String.eqb (normalize_field_name f) rn) fields)
    as [f|] eqn:Hexact.
  - apply find_some in Hexact as [Hin Heq]. apply String.eqb_eq in Heq.
    rewrite Heq. destruct (preferred fields rn) as [a|] eqn:Hpref; [done|].
    apply first_shortest_none in Hpref.
    assert (f ∈ filter (fun f => normalize_field_name f = rn) fields) as Hf
      by (apply list_elem_of_filter; split; [done|by apply list_elem_of_In]).
    rewrite Hpref in Hf. by apply not_elem_of_nil in Hf.
  - assert (preferred fields rn = None) as ->.
    { unfold preferred.
      assert (filter (fun f => normalize_field_name f = rn) fields = [])
        as ->; [|done].
      apply filter_none. intros f Hf Heq.
      pose proof (find_none _ _ Hexact f Hf) as Hne. simpl in Hne.
      apply String.eqb_neq in Hne. done. }
    destruct (find (fun f => overlaps rn (normalize_field_name f)) fields)
      as [f|]; [|done].
    simpl. rewrite normalized_entry. reflexivity.
Qed.

(** *** The order of the available fields *)

(** Ascending order of code points. *)
Definition str_lt (a b : string) : Prop := String.compare a b = Lt.

Lemma ascii_compare_trans a b c :
  Ascii.compare a b = Lt -> Ascii.compare b c = Lt -> Ascii.compare a c = Lt.
Proof.
  unfold Ascii.compare. rewrite !N.compare_lt_iff. lia.
Qed.

Lemma str_lt_trans a : forall b c, str_lt a b -> str_lt b c -> str_lt a c.
Proof.
  unfold str_lt. induction a as [|x a IH]; intros [|y b] [|z c];
    simpl; try done.
  destruct (Ascii.compare x y) eqn:Hxy; try done.
  - apply Ascii.compare_eq_iff in Hxy as ->.
    destruct (Ascii.compare y z); try done. apply IH.
  - destruct (Ascii.compare y z) eqn:Hyz; try done.
    + apply Ascii.compare_eq_iff in Hyz as <-. by rewrite Hxy.
    + by rewrite (ascii_compare_trans _ _ _ Hxy Hyz).
Qed.

Lemma insert_sorted_in x l y :
  In y (insert_sorted x l) <-> y = x \/ In y l.
Proof.
  induction l as [|z l IH]; simpl; [intuition congruence|].
  destruct (String.compare x z) eqn:Hxz; simpl.
  - apply String.compare_eq_iff in Hxz as ->. intuition congruence.
  - intuition congruence.
  - rewrite IH. intuition congruence.
Qed.

Lemma insert_sorted_ascending x l :
  StronglySorted str_lt l -> StronglySorted str_lt (insert_sorted x l).
Proof.
  induction 1 as [|z l Hsorted IH Hall]; simpl.
  - repeat constructor.
  - destruct (String.compare x z) eqn:Hxz.
    + by constructor.
    + constructor; [by constructor|]. constructor; [done|].
      eapply Forall_impl; [exact Hall|]. intros w Hw.
      by apply (str_lt_trans x z w).
    + constructor; [done|]. apply Forall_forall. intros w Hw.
      apply list_elem_of_In, insert_sorted_in in Hw as [->|Hw].
      * unfold str_lt. rewrite String.compare_antisym, Hxz. done.
      * rewrite Forall_forall in Hall. by apply Hall, list_elem_of_In.
Qed.

Lemma sorted_ascending set : StronglySorted str_lt (sorted set).
Proof.
  induction set as [|x set IH]; simpl; [constructor|].
  by apply insert_sorted_ascending.
Qed.

Lemma sorted_in set x : In x (sorted set) <-> In x set.
Proof.
  induction set as [|y set IH]; simpl; [done|].
  rewrite insert_sorted_in, IH. intuition congruence.
Qed.

(** *** The preferred field of a normalized name *)

Lemma shorter_first_spec names :
  forall b0 a,
    fold_left shorter_first names (Some b0) = Some a ->
    (a = b0 /\ forall g, In g names -> str_len b0 <= str_len g)
    \/ (str_len a < str_len b0 /\
        exists before after,
          names = before ++ a :: after
          /\ (forall g, In g before -> str_len a < str_len g)
          /\ (forall g, In g after -> str_len a <= str_len g)).
Proof.
  induction names as [|f names IH]; intros b0 a Hfold.
  - left. injection Hfold as <-. split; [done|]. intros g [].
  - cbn [fold_left shorter_first] in Hfold.
    destruct (str_len f <? str_len b0)%Z eqn:Hlt.
    + destruct (IH _ _ Hfold)
        as [[-> Hall]|(Hlen & before & after & -> & Hb & Ha)].
      * right. split; [lia|]. exists [], names. split; [done|].
        split; [intros g []|done].
      * right. split; [lia|]. exists (f :: before), after.
        split; [done|]. split; [|done].
        intros g [<-|Hg]; [lia|by apply Hb].
    + destruct (IH _ _ Hfold)
        as [[-> Hall]|(Hlen & before & after & -> & Hb & Ha)].
      * left. split; [done|]. intros g [<-|Hg]; [lia|by apply Hall].
      * right. split; [done|]. exists (f :: before), after.
        split; [done|]. split; [|done].
        intros g [<-|Hg]; [lia|by apply Hb].
Qed.

Lemma filter_split (P : string -> Prop) `{!forall x, Decision (P x)}
    (l : list string) :
  forall before a after,
    filter P l = before ++ a :: after ->
    exists l1 l2,
      l = l1 ++ a :: l2 /\ filter P l1 = before /\ filter P l2 = after.
Proof.
  induction l as [|x l IH]; intros before a after Hfilter.
  - by destruct before.
  - rewrite filter_cons in Hfilter. destruct (decide (P x)) as [Hx|Hx].
    + destruct before as [|b before]; simpl in Hfilter.
      * injection Hfilter as -> Hrest. exists [], l. by rewrite Hrest.
      * injection Hfilter as -> Hrest.
        destruct (IH _ _ _ Hrest) as (l1 & l2 & -> & H1 & H2).
        exists (b :: l1), l2. split; [done|]. split; [|done].
        rewrite filter_cons, decide_True by done. by rewrite H1.
    + destruct (IH _ _ _ Hfilter) as (l1 & l2 & -> & H1 & H2).
      exists (x :: l1), l2. split; [done|]. split; [|done].
      by rewrite filter_cons, decide_False.
Qed.

(** The preferred field of a normalized name is the first, in the
    order of [fields], of the shortest fields of that name. *)
Lemma preferred_first_shortest fields norm a :
  preferred fields norm = Some a ->
  normalize_field_name a = norm
  /\ exists before after,
       fields = before ++ a :: after
       /\ (forall g, In g before -> normalize_field_name g = norm ->
                     str_len a < str_len g)
       /\ (forall g, In g after -> normalize_field_name g = norm ->
                     str_len a <= str_len g).
Proof.
  unfold preferred, first_shortest.
  destruct (filter _ fields) as [|f group] eqn:Hgroup; [done|].
  cbn [fold_left shorter_first]. intros Hfold.
  assert (exists before after,
            f :: group = before ++ a :: after
            /\ (forall g, In g before -> str_len a < str_len g)
            /\ (forall g, In g after -> str_len a <= str_len g))
    as (before & after & Hsplit & Hb & Ha).
  { destruct (shorter_first_spec _ _ _ Hfold)
      as [[-> Hall]|(Hlen & before & after & -> & Hb & Ha)].
    - exists [], group. split; [done|]. split; [intros g []|done].
    - exists (f :: before), after. split; [done|]. split; [|done].
      intros g [<-|Hg]; [lia|by apply Hb]. }
  rewrite <- Hgroup in Hsplit.
  destruct (filter_split _ _ _ _ _ Hsplit) as (l1 & l2 & -> & H1 & H2).
  assert (a ∈ filter (fun f => normalize_field_name f = norm)
                (l1 ++ a :: l2)) as Hin
    by (rewrite Hsplit; apply list_elem_of_In, in_elt).
  apply list_elem_of_filter in Hin as [Hnorm _].
  split; [done|]. exists l1, l2. split; [done|]. split.
  - intros g Hg Hn. apply Hb. rewrite <- H1.
    apply list_elem_of_In, list_elem_of_filter.
    split; [done|by apply list_elem_of_In].
  - intros g Hg Hn. apply Ha. rewrite <- H2.
    apply list_elem_of_In, list_elem_of_filter.
    split; [done|by apply list_elem_of_In].
Qed.

(** A field that shares its normalized name with no other field is
    the preferred one of that name. *)
Lemma preferred_alone fields f :
  In f fields ->
  (forall g, In g fields ->
             normalize_field_name g = normalize_field_name f -> g = f) ->
  preferred fields (normalize_field_name f) = Some f.
Proof.
  intros Hin Halone.
  destruct (preferred fields (normalize_field_name f)) as [a|] eqn:Hpref.
  - destruct (preferred_first_shortest _ _ _ Hpref)
      as (Hnorm & before & after & -> & _).
    f_equal. apply Halone; [apply in_elt|done].
  - apply first_shortest_none in Hpref.
    assert (f ∈ filter (fun g => normalize_field_name g
                                 = normalize_field_name f) fields) as Hf
      by (apply list_elem_of_filter; split; [done|by apply list_elem_of_In]).
    rewrite Hpref in Hf. by apply not_elem_of_nil in Hf.
Qed.

Lemma chosen_without_collisions fields req :
  (forall f g, In f fields -> In g fields ->
               normalize_field_name g = normalize_field_name f -> g = f) ->
  chosen fields req = chosen_as_specified fields req.
Proof.
  intros Hinj. unfold chosen, chosen_as_specified.
  destruct (find _ fields) as [f|] eqn:Hexact.
  - apply find_some in Hexact as [Hin _].
    apply preferred_alone; [done|]. intros g Hg Hn. by apply (Hinj f g).
  - clear Hexact.
    destruct (find _ fields) as [f|] eqn:Hpartial; [|done].
    apply find_some in Hpartial as [Hin _].
    apply preferred_alone; [done|]. intros g Hg Hn. by apply (Hinj f g).
Qed.

(** *** The loop over the requested fields *)

(** One turn of the loop, in terms of [chosen]. *)
Definition decide_one (fields : list string)
    (state : list (string * string) * list string) (req : string)
  : list (string * string) * list string :=
  if decide (normalize_field_name req = EmptyString) then state
  else match chosen fields req with
       | Some actual => (dict_set req actual (fst state), snd state)
       | None => (fst state, snd state ++ [req])
       end.

Lemma match_one_decides fields state req :
  match_one (fold_left add_normalized fields []) state req
  = decide_one fields state req.
Proof.
  destruct state as [m u]. unfold match_one, decide_one.
  pose proof (lookup_is_chosen fields req) as Hchosen. cbv zeta in Hchosen.
  destruct (normalize_field_name req) as [|c rn] eqn:Hnorm.
  - by rewrite decide_True.
  - rewrite decide_False by done. rewrite <- Hchosen. cbn [fst snd].
    destruct (dict_get _ _); [done|]. by destruct (partial_match _ _).
Qed.

Lemma fold_match_one fields requested state :
  fold_left (match_one (fold_left add_normalized fields [])) requested state
  = fold_left (decide_one fields) requested state.
Proof.
  revert state. induction requested as [|req requested IH]; intros state;
    [done|].
  simpl. by rewrite match_one_decides, IH.
Qed.

Lemma fold_unmatched fields requested :
  forall state,
    snd (fold_left (decide_one fields) requested state)
    = snd state
      ++ filter (fun r => normalize_field_name r <> EmptyString
                          /\ chosen fields r = None) requested.
Proof.
  induction requested as [|req requested IH]; intros state.
  - simpl. by rewrite app_nil_r.
  - cbn [fold_left]. rewrite IH, filter_cons. unfold decide_one.
    destruct (decide (normalize_field_name req = EmptyString)) as [Hn|Hn].
    + rewrite decide_False by (by intros [Hrn _]). done.
    + destruct (chosen fields req) as [a|] eqn:Hc; cbn [snd].
      * rewrite decide_False by (by intros [_ Hcr]). done.
      * rewrite decide_True by done. by rewrite <- app_assoc.
Qed.

Lemma fold_matched fields requested r :
  forall state,
    dict_get r (fst (fold_left (decide_one fields) requested state))
    = if decide (r ∈ requested
                 /\ normalize_field_name r <> EmptyString
                 /\ chosen fields r <> None)
      then chosen fields r
      else dict_get r (fst state).
Proof.
  induction requested as [|req requested IH]; intros state.
  - cbn [fold_left]. rewrite decide_False; [done|].
    intros (Hin & _). by apply not_elem_of_nil in Hin.
  - cbn [fold_left]. rewrite IH.
    destruct (decide (r ∈ requested /\ _)) as [Hrest|Hrest].
    + rewrite decide_True; [done|].
      destruct Hrest as (Hin & Hrn & Hc). split; [by right|done].
    + unfold decide_one.
      destruct (decide (normalize_field_name req = EmptyString)) as [Hn|Hn].
      * rewrite decide_False; [done|]. intros (Hin & Hrn & Hc).
        apply elem_of_cons in Hin as [->|Hin]; [done|]. by apply Hrest.
      * destruct (chosen fields req) as [a|] eqn:Hc; cbn [fst].
        -- destruct (decide (r = req)) as [->|Hne].
           ++ rewrite dict_get_set_eq, decide_True; [by rewrite Hc|].
              split; [by left|]. split; [done|]. by rewrite Hc.
           ++ rewrite dict_get_set_ne by done.
              rewrite decide_False; [done|]. intros (Hin & Hrn & Hcr).
              apply elem_of_cons in Hin as [->|Hin]; [done|]. by apply Hrest.
        -- rewrite decide_False; [done|]. intros (Hin & Hrn & Hcr).
           apply elem_of_cons in Hin as [->|Hin]; [done|]. by apply Hrest.
Qed.

(** C6, as the code has it.  For a record set that is not empty the
    available fields are the field names of the records, each once, in
    alphabetical order.  A requested field whose normalized name is
    empty is skipped: it is neither matched nor reported unmatched.
    Any other requested field is matched to what [chosen] says: the
    first available field, in alphabetical order of the actual names,
    with the same normalized name, else the first one whose normalized
    name contains the requested one or is contained in it; the name
    reported is the preferred field of that normalized name (the first
    of the shortest, [preferred_first_shortest]).  It is reported
    unmatched when there is no such field.  When no two available
    fields share a normalized name, the field reported is the field
    found, as the specification has it. *)
Theorem requested_fields_matched (records : list pydict)
    (requested_fields : list string) :
  records <> [] ->
  StronglySorted str_lt
    (all_available_fields (match_requested_fields records requested_fields))
  /\ (forall f,
        In f (all_available_fields
                (match_requested_fields records requested_fields))
        <-> exists record, In record records /\ In f (dict_keys record))
  /\ unmatched_requested (match_requested_fields records requested_fields)
     = filter
         (fun r => normalize_field_name r <> EmptyString
                   /\ chosen (all_available_fields
                                (match_requested_fields records
                                   requested_fields)) r = None)
         requested_fields
  /\ (forall req,
        In req requested_fields ->
        dict_get req
          (matched_fields (match_requested_fields records requested_fields))
        = if decide (normalize_field_name req = EmptyString) then None
          else chosen (all_available_fields
                         (match_requested_fields records requested_fields))
                 req)
  /\ ((forall f g,
          In f (all_available_fields
                  (match_requested_fields records requested_fields)) ->
          In g (all_available_fields
                  (match_requested_fields records requested_fields)) ->
          normalize_field_name g = normalize_field_name f -> g = f) ->
      forall req,
        chosen (all_available_fields
                  (match_requested_fields records requested_fields)) req
        = chosen_as_specified
            (all_available_fields
               (match_requested_fields records requested_fields)) req).
Proof.
  intros Hrecords. destruct records as [|record records]; [done|].
  unfold match_requested_fields. cbn [all_available_fields
    unmatched_requested matched_fields].
  set (fields := sorted (flat_map dict_keys (record :: records))).
  rewrite fold_match_one.
  split; [apply sorted_ascending|].
  split.
  { intros f. subst fields. rewrite sorted_in, in_flat_map. done. }
  split; [by rewrite fold_unmatched|].
  split; [|intros Hinj req; by apply chosen_without_collisions].
  intros req Hreq. rewrite fold_matched. cbn [fst dict_get].
  apply list_elem_of_In in Hreq.
  destruct (decide (normalize_field_name req = EmptyString)) as [Hn|Hn].
  - rewrite decide_False; [done|]. by intros (_ & Hrn & _).
  - destruct (chosen fields req) as [a|] eqn:Hc.
    + by rewrite decide_True.
    + rewrite decide_False; [done|]. by intros (_ & _ & Hcr).
Qed.

Definition company_records : list pydict :=
  [[("Company Name", VStr "Acme"); ("unit_price_usd", VInt 3)];
   [("Company Name", VStr "Apex"); ("rating", VInt 5)]].

Lemma requested_fields_matched_witness :
  dict_get "price"
    (matched_fields
       (match_requested_fields company_records
          ["company_name"; "price"; "--"; "colour"]))
  = if decide (normalize_field_name "price" = EmptyString) then None
    else chosen
           (all_available_fields
              (match_requested_fields company_records
                 ["company_name"; "price"; "--"; "colour"]))
           "price".
Proof.
  destruct (requested_fields_matched company_records
              ["company_name"; "price"; "--"; "colour"])
    as (_ & _ & _ & Hmatched & _).
  - discriminate.
  - apply Hmatched. right. left. reflexivity.
Defined.

Example company_fields_matched :
  match_requested_fields company_records
    ["company_name"; "price"; "--"; "colour"]
  = {| matched_fields :=
         [("company_name", "Company Name"); ("price", "unit_price_usd")];
       unmatched_requested := ["colour"];
       all_available_fields := ["Company Name"; "rating"; "unit_price_usd"] |}.
Proof. vm_compute. reflexivity. Qed.

(** Three fields, two of them with the normalized name "xyz". *)
Definition colliding_records : list pydict :=
  [[("x_y_z", VInt 1); ("xya", VInt 2); ("xyz", VInt 3)]].

(** The claim as the specification has it fails in two places.  With
    two fields of one normalized name, the field reported for the
    request "xy" is "xyz": it is not the first field in alphabetical
    order whose normalized name contains "xy" ("x_y_z"), nor the first
    such field among the names the matcher reports ("xya").  And with
    no record at all a request whose normalized name is empty is not
    skipped: it is reported unmatched. *)
Lemma collision_reports_other_field :
  all_available_fields (match_requested_fields colliding_records ["xy"])
  = ["x_y_z"; "xya"; "xyz"]
  /\ dict_get "xy"
       (matched_fields (match_requested_fields colliding_records ["xy"]))
     = Some "xyz"
  /\ chosen_as_specified
       (all_available_fields (match_requested_fields colliding_records ["xy"]))
       "xy"
     = Some "x_y_z"
  /\ chosen_as_specified ["xya"; "xyz"] "xy" = Some "xya"
  /\ dict_get "xy"
       (matched_fields (match_requested_fields colliding_records ["xy"]))
     <> chosen_as_specified
          (all_available_fields
             (match_requested_fields colliding_records ["xy"]))
          "xy"
  /\ normalize_field_name "--" = EmptyString
  /\ unmatched_requested (match_requested_fields [] ["--"]) = ["--"].
Proof.
  repeat split; try (vm_compute; reflexivity).
  vm_compute. discriminate.
Qed.

(** *** Normalized names *)

Lemma lower_alnum_is_lower c :
  is_lower_alnum c = true -> lower_char c = c.
Proof.
  destruct c as [[] [] [] [] [] [] [] []]; vm_compute; congruence.
Qed.

Lemma lower_char_twice c : lower_char (lower_char c) = lower_char c.
Proof. destruct c as [[] [] [] [] [] [] [] []]; reflexivity. Qed.

Lemma lower_twice s : lower (lower s) = lower s.
Proof.
  induction s as [|c s IH]; [done|]. simpl. by rewrite lower_char_twice, IH.
Qed.

Lemma lower_app a b : lower (a +:+ b) = lower a +:+ lower b.
Proof. induction a as [|c a IH]; [done|]. simpl. by rewrite IH. Qed.

Lemma keep_chars_app p a b :
  keep_chars p (a +:+ b) = keep_chars p a +:+ keep_chars p b.
Proof.
  induction a as [|c a IH]; [done|]. simpl.
  destruct (p c); simpl; by rewrite IH.
Qed.

Lemma normalize_kept s :
  keep_chars is_lower_alnum (lower (keep_chars is_lower_alnum s))
  = keep_chars is_lower_alnum s.
Proof.
  induction s as [|c s IH]; [done|]. simpl.
  destruct (is_lower_alnum c) eqn:Hc; [|done].
  simpl. rewrite (lower_alnum_is_lower c Hc), Hc. by rewrite IH.
Qed.

(** Normalizing twice is normalizing once, and normalizing does not see
    the case of the letters. *)
Theorem normalize_idempotent (name : string) :
  normalize_field_name (normalize_field_name name)
  = normalize_field_name name
  /\ normalize_field_name (lower name) = normalize_field_name name.
Proof.
  unfold normalize_field_name. split.
  - apply normalize_kept.
  - by rewrite lower_twice.
Qed.

(** An ASCII letter or digit. *)
Definition is_ascii_alnum (c : ascii) : bool :=
  in_range 48 57 c || in_range 65 90 c || in_range 97 122 c.

(** A separator: a string in which no character is an ASCII letter or
    a digit.  As every string here it is made of code points below
    256. *)
Definition is_separator (sep : string) : Prop :=
  UrlSafety.all_chars (fun c => negb (is_ascii_alnum c)) sep = true.

Lemma not_alnum_dropped c :
  negb (is_ascii_alnum c) = true -> is_lower_alnum (lower_char c) = false.
Proof.
  destruct c as [[] [] [] [] [] [] [] []]; vm_compute; congruence.
Qed.

Lemma separator_leaves_nothing sep :
  is_separator sep -> normalize_field_name sep = EmptyString.
Proof.
  unfold is_separator, normalize_field_name.
  induction sep as [|c sep IH]; [done|].
  cbn [UrlSafety.all_chars lower keep_chars]. intros Hsep.
  apply andb_prop in Hsep as [Hc Hsep].
  rewrite (not_alnum_dropped c Hc). by apply IH.
Qed.

(** For names of code points below 256: normalizing goes through
    concatenation, and a separator between two parts (underscores,
    dashes, blanks, dots, any characters that are not ASCII letters or
    digits) leaves no trace: "unit_price", "unit-price", "unit price"
    and "unitprice" have the same normalized name. *)
Theorem normalize_drops_separators (a sep b : string) :
  is_separator sep ->
  normalize_field_name (a +:+ b)
  = normalize_field_name a +:+ normalize_field_name b
  /\ normalize_field_name (a +:+ sep +:+ b) = normalize_field_name (a +:+ b).
Proof.
  assert (forall x y,
            normalize_field_name (x +:+ y)
            = normalize_field_name x +:+ normalize_field_name y) as Happ.
  { intros x y. unfold normalize_field_name.
    by rewrite lower_app, keep_chars_app. }
  intros Hsep. split; [apply Happ|].
  rewrite !Happ. by rewrite (separator_leaves_nothing sep Hsep).
Qed.

Lemma normalize_drops_separators_witness :
  normalize_field_name ("Unit" +:+ "Price")
  = normalize_field_name "Unit" +:+ normalize_field_name "Price"
  /\ normalize_field_name ("Unit" +:+ " _-" +:+ "Price")
     = normalize_field_name ("Unit" +:+ "Price").
Proof.
  apply (normalize_drops_separators "Unit" " _-" "Price").
  vm_compute. reflexivity.
Defined.

(** *** What a match result holds *)

Lemma chosen_is_available fields req actual :
  chosen fields req = Some actual -> In actual fields.
Proof.
  unfold chosen. intros Hchosen.
  assert (exists norm, preferred fields norm = Some actual) as [norm Hpref].
  { destruct (find _ fields) as [f|]; [by eexists|].
    destruct (find _ fields) as [f|]; [by eexists|done]. }
  destruct (preferred_first_shortest _ _ _ Hpref)
    as (_ & before & after & -> & _).
  apply in_elt.
Qed.

Lemma dict_get_in {A} k (v : A) d : dict_get k d = Some v -> In (k, v) d.
Proof.
  induction d as [|[k' v'] d IH]; [done|]. simpl.
  destruct (String.eqb k k') eqn:E.
  - apply String.eqb_eq in E. intros [= ->]. subst. by left.
  - intros Hget. right. by apply IH.
Qed.

(** The requested fields are split between the matches and the
    unmatched list.  A match names a field that some record has; a
    requested field whose normalized name is not empty is matched or
    listed as unmatched, never both and never neither; and nothing is
    matched or listed that was not requested. *)
Theorem match_result_partitions (records : list pydict)
    (requested_fields : list string) (req : string) :
  records <> [] ->
  (forall actual,
      dict_get req
        (matched_fields (match_requested_fields records requested_fields))
      = Some actual ->
      In req requested_fields
      /\ (exists record, In record records /\ In actual (dict_keys record))
      /\ ~ In req (unmatched_requested
                     (match_requested_fields records requested_fields)))
  /\ (In req (unmatched_requested
                (match_requested_fields records requested_fields)) ->
      In req requested_fields)
  /\ (In req requested_fields ->
      normalize_field_name req <> EmptyString ->
      dict_get req
        (matched_fields (match_requested_fields records requested_fields))
      <> None
      \/ In req (unmatched_requested
                   (match_requested_fields records requested_fields))).
Proof.
  intros Hrecords. destruct records as [|record records]; [done|].
  unfold match_requested_fields.
  cbn [all_available_fields unmatched_requested matched_fields].
  set (fields := sorted (flat_map dict_keys (record :: records))).
  rewrite fold_match_one, fold_unmatched, fold_matched. cbn [fst snd app].
  split; [|split].
  - intros actual Hget.
    destruct (decide (req ∈ requested_fields /\ _)) as [(Hin & Hn & Hc)|];
      [|done].
    split; [by apply list_elem_of_In|]. split.
    + apply chosen_is_available in Hget. subst fields.
      apply sorted_in, in_flat_map in Hget. done.
    + intros Hun. apply list_elem_of_In, list_elem_of_filter in Hun
        as [[_ Hnone] _]. congruence.
  - intros Hun. apply list_elem_of_In, list_elem_of_filter in Hun as [_ Hin].
    by apply list_elem_of_In.
  - intros Hin Hn. apply list_elem_of_In in Hin.
    destruct (chosen fields req) as [actual|] eqn:Hc.
    + left. by rewrite decide_True.
    + right. apply list_elem_of_In, list_elem_of_filter. done.
Qed.

Lemma match_result_partitions_witness :
  (forall actual,
      dict_get "price"
        (matched_fields
           (match_requested_fields company_records ["price"; "colour"]))
      = Some actual ->
      In "price" ["price"; "colour"]
      /\ (exists record,
             In record company_records /\ In actual (dict_keys record))
      /\ ~ In "price"
             (unmatched_requested
                (match_requested_fields company_records ["price"; "colour"])))
  /\ (In "price"
        (unmatched_requested
           (match_requested_fields company_records ["price"; "colour"])) ->
      In "price" ["price"; "colour"])
  /\ (In "price" ["price"; "colour"] ->
      normalize_field_name "price" <> EmptyString ->
      dict_get "price"
        (matched_fields
           (match_requested_fields company_records ["price"; "colour"]))
      <> None
      \/ In "price"
           (unmatched_requested
              (match_requested_fields company_records ["price"; "colour"]))).
Proof.
  apply (match_result_partitions company_records ["price"; "colour"] "price").
  discriminate.
Defined.


(** *** Filtering records *)

(** [{k: v for k, v in record.items() if k in fields_to_keep}] *)
Definition keep_fields (fields_to_keep : list string) (record : pydict)
  : pydict :=
  dict_update [] (filter (fun kv => fst kv ∈ fields_to_keep) record).

Definition filter_records_by_fields (records : list pydict)
    (requested_fields : list string) : list pydict * FieldMatchResult :=
  match requested_fields with
  | [] =>
      (* If no specific fields requested, return all *)
      (records,
       {| matched_fields := [];
          unmatched_requested := [];
          all_available_fields := sorted (flat_map dict_keys records) |})
  | _ =>
      let match_result := match_requested_fields records requested_fields in
      match matched_fields match_result with
      | [] =>
          (* No matches found, return empty records but preserve match info *)
          ([], match_result)
      | _ =>
          (* Get the actual field names to keep *)
          let fields_to_keep := dict_values (matched_fields match_result) in
          (* Filter each record *)
          (flat_map
             (fun record =>
                let filtered_record := keep_fields fields_to_keep record in
                match filtered_record with
                | [] => []
                | _ => [filtered_record]   (* Only include non-empty records *)
                end)
             records,
           match_result)
      end
  end.

Lemma dict_set_in {A} k (v : A) d kv :
  In kv (dict_set k v d) -> kv = (k, v) \/ In kv d.
Proof.
  induction d as [|[k' v'] d IH]; simpl; [intros [<-|[]]; by left|].
  destruct (String.eqb k k').
  - intros [<-|Hin]; [by left|by right; right].
  - intros [<-|Hin]; [by right; left|].
    destruct (IH Hin) as [->|Hd]; [by left|by right; right].
Qed.

Lemma dict_update_in {A} (d e : list (string * A)) kv :
  In kv (dict_update d e) -> In kv d \/ In kv e.
Proof.
  unfold dict_update. revert d.
  induction e as [|[k v] e IH]; intros d; simpl; [by left|].
  intros Hin. destruct (IH _ Hin) as [Hd|He]; [|by right; right].
  apply dict_set_in in Hd as [->|Hd]; [by right; left|by left].
Qed.

Lemma dict_get_absent {A} k (d : list (string * A)) :
  ~ In k (map fst d) -> dict_get k d = None.
Proof.
  intros Hk. destruct (dict_get k d) as [c|] eqn:Hget; [|done].
  by apply dict_get_key in Hget.
Qed.

Lemma dict_update_distinct {A} (d e : list (string * A)) :
  List.NoDup (map fst (d ++ e)) -> dict_update d e = d ++ e.
Proof.
  unfold dict_update. revert d.
  induction e as [|[k v] e IH]; intros d Hnodup; simpl.
  - by rewrite app_nil_r.
  - rewrite dict_set_new.
    + rewrite IH; rewrite <- app_assoc; done.
    + apply dict_get_absent. rewrite map_app in Hnodup. simpl in Hnodup.
      apply NoDup_remove_2 in Hnodup. intros Hin. apply Hnodup.
      apply in_or_app. by left.
Qed.

Lemma keys_of_filter {A} (P : string * A -> Prop) `{!forall x, Decision (P x)}
    (d : list (string * A)) :
  List.NoDup (map fst d) -> List.NoDup (map fst (filter P d)).
Proof.
  induction d as [|kv d IH]; [done|]. simpl. intros Hnodup.
  apply List.NoDup_cons_iff in Hnodup as [Hnot Hnodup].
  rewrite filter_cons. destruct (decide (P kv)); [|by apply IH].
  simpl. apply List.NoDup_cons; [|by apply IH].
  intros Hin. apply Hnot. apply in_map_iff in Hin as (x & <- & Hx).
  apply in_map. apply list_elem_of_In in Hx.
  apply list_elem_of_filter in Hx as [_ Hx]. by apply list_elem_of_In.
Qed.

Lemma dict_get_filter {A} (P : string * A -> Prop)
    `{!forall x, Decision (P x)} k (v : A) (d : list (string * A)) :
  dict_get k d = Some v -> P (k, v) -> dict_get k (filter P d) = Some v.
Proof.
  induction d as [|[k' v'] d IH]; [done|]. simpl.
  destruct (String.eqb k k') eqn:E.
  - apply String.eqb_eq in E. subst k'. intros [= ->] HP.
    rewrite filter_cons, decide_True by done. simpl.
    by rewrite String.eqb_refl.
  - intros Hget HP. rewrite filter_cons.
    destruct (decide (P (k', v'))); [|by apply IH].
    simpl. rewrite E. by apply IH.
Qed.

Lemma kept_records (fields_to_keep : list string) (records : list pydict)
    (out : pydict) :
  In out
    (flat_map
       (fun record =>
          match keep_fields fields_to_keep record with
          | [] => []
          | _ => [keep_fields fields_to_keep record]
          end) records)
  <-> out <> []
      /\ exists record,
           In record records /\ out = keep_fields fields_to_keep record.
Proof.
  rewrite in_flat_map. split.
  - intros (record & Hin & Hout).
    destruct (keep_fields fields_to_keep record) as [|kv kept] eqn:Hkept;
      [done|].
    destruct Hout as [<-|[]]. split; [done|]. exists record. by rewrite Hkept.
  - intros (Hne & record & Hin & ->). exists record. split; [done|].
    destruct (keep_fields fields_to_keep record); [done|by left].
Qed.

(** When fields are requested, every record of the result is not empty
    and is cut out of one record of the input: each of its entries is
    an entry of that record, under a key that is the match of some
    requested field.  No value is changed and no key is renamed. *)
Theorem filtered_records_keep_matched_fields (records : list pydict)
    (requested_fields : list string) (out : pydict) :
  requested_fields <> [] ->
  In out (fst (filter_records_by_fields records requested_fields)) ->
  out <> []
  /\ exists record,
       In record records
       /\ forall k v,
            In (k, v) out ->
            In (k, v) record
            /\ In k (dict_values
                       (matched_fields
                          (snd (filter_records_by_fields
                                  records requested_fields)))).
Proof.
  intros Hreq. unfold filter_records_by_fields.
  destruct requested_fields as [|r requested]; [done|].
  set (match_result := match_requested_fields records (r :: requested)).
  destruct (matched_fields match_result) as [|m matched] eqn:Hmatched;
    [done|].
  cbn [fst snd]. rewrite Hmatched. intros Hout.
  apply kept_records in Hout as (Hne & record & Hin & ->).
  split; [done|]. exists record. split; [done|].
  intros k v Hkv. unfold keep_fields in Hkv.
  apply dict_update_in in Hkv as [[]|Hkv].
  apply list_elem_of_In, list_elem_of_filter in Hkv as [Hkeep Hkv].
  split; [by apply list_elem_of_In|]. by apply list_elem_of_In in Hkeep.
Qed.

Lemma filtered_records_keep_matched_fields_witness :
  [("unit_price_usd", VInt 3)] <> []
  /\ exists record,
       In record company_records
       /\ forall k v,
            In (k, v) [("unit_price_usd", VInt 3)] ->
            In (k, v) record
            /\ In k (dict_values
                       (matched_fields
                          (snd (filter_records_by_fields
                                  company_records ["price"])))).
Proof.
  apply (filtered_records_keep_matched_fields company_records ["price"]).
  - discriminate.
  - vm_compute. by left.
Defined.

(** A record that has the field matched for a request is kept, and
    keeps that field with its value. *)
Theorem matched_field_survives (records : list pydict)
    (requested_fields : list string) (record : pydict)
    (req actual : string) (v : value) :
  In record records ->
  List.NoDup (dict_keys record) ->
  dict_get req
    (matched_fields (match_requested_fields records requested_fields))
  = Some actual ->
  dict_get actual record = Some v ->
  exists out,
    In out (fst (filter_records_by_fields records requested_fields))
    /\ dict_get actual out = Some v
    /\ forall k w, In (k, w) out -> In (k, w) record.
Proof.
  intros Hin Hnodup Hmatch Hget. unfold filter_records_by_fields.
  destruct requested_fields as [|r requested].
  { unfold match_requested_fields in Hmatch.
    destruct records as [|first others]; [by destruct Hin|].
    discriminate Hmatch. }
  set (match_result := match_requested_fields records (r :: requested)) in *.
  assert (In actual (dict_values (matched_fields match_result))) as Hkeep.
  { apply dict_get_in in Hmatch. unfold dict_values.
    by apply (in_map snd) in Hmatch. }
  destruct (matched_fields match_result) as [|m matched] eqn:Hmatched;
    [done|].
  cbn [fst]. rewrite <- Hmatched in Hkeep |- *.
  set (fields_to_keep := dict_values (matched_fields match_result)) in *.
  assert (keep_fields fields_to_keep record
          = filter (fun kv => fst kv ∈ fields_to_keep) record) as Hkept.
  { unfold keep_fields. rewrite dict_update_distinct; [done|].
    by apply keys_of_filter. }
  assert (dict_get actual (keep_fields fields_to_keep record) = Some v)
    as Hout.
  { rewrite Hkept. apply dict_get_filter; [done|].
    by apply list_elem_of_In. }
  exists (keep_fields fields_to_keep record). split; [|split; [done|]].
  - apply kept_records. split; [|by exists record].
    intros Hempty. by rewrite Hempty in Hout.
  - intros k w Hkw. rewrite Hkept in Hkw.
    apply list_elem_of_In, list_elem_of_filter in Hkw as [_ Hkw].
    by apply list_elem_of_In.
Qed.


Lemma matched_field_survives_witness :
  exists out,
    In out (fst (filter_records_by_fields company_records ["price"]))
    /\ dict_get "unit_price_usd" out = Some (VInt 3)
    /\ forall k w,
         In (k, w) out ->
         In (k, w)
           [("Company Name", VStr "Acme"); ("unit_price_usd", VInt 3)].
Proof.
  apply (matched_field_survives company_records ["price"]
           [("Company Name", VStr "Acme"); ("unit_price_usd", VInt 3)]
           "price" "unit_price_usd" (VInt 3)).
  - by left.
  - repeat (apply List.NoDup_cons; [simpl; intuition discriminate|]).
    apply List.NoDup_nil.
  - vm_compute. reflexivity.
  - reflexivity.
Defined.

End FieldFilter.

(** ** Records of an HTML page ([app/services/html_extract.py]) *)

Module HtmlExtract.

(** The value of an attribute: a string, or the tokens of a
    multi-valued attribute such as [class]. *)
Inductive attr : Type :=
| AttrStr (s : string)
| AttrList (tokens : list string).

(** The parsed page, as BeautifulSoup holds it. *)
Inductive node : Type :=
| NavigableString (text : string)
| Tag (name : string) (attrs : list (string * attr)) (contents : list node).

Definition tag_name (n : node) : string :=
  match n with
  | Tag name _ _ => name
  | NavigableString _ => EmptyString
  end.

Definition tag_attrs (n : node) : list (string * attr) :=
  match n with
  | Tag _ attrs _ => attrs
  | NavigableString _ => []
  end.

Definition is_tag (n : node) : bool :=
  match n with
  | Tag _ _ _ => true
  | NavigableString _ => false
  end.

(** [element.descendants], in document order. *)
Fixpoint descendants (n : node) : list node :=
  match n with
  | NavigableString _ => []
  | Tag _ _ contents => flat_map (fun c => c :: descendants c) contents
  end.

(** White space, as [str.strip()] has it below code point 256. *)
Definition is_space (c : ascii) : bool :=
  in_range 9 13 c || in_range 28 32 c
  || (code c =? 133)%Z || (code c =? 160)%Z.

Fixpoint lstrip (p : ascii -> bool) (s : string) : string :=
  match s with
  | EmptyString => EmptyString
  | String c s' => if p c then lstrip p s' else s
  end.

Fixpoint rstrip (p : ascii -> bool) (s : string) : string :=
  match s with
  | EmptyString => EmptyString
  | String c s' =>
      match rstrip p s' with
      | EmptyString => if p c then EmptyString else String c EmptyString
      | rest => String c rest
      end
  end.

(** [s.strip()] and [s.strip("_")] *)
Definition strip_chars (p : ascii -> bool) (s : string) : string :=
  rstrip p (lstrip p s).

Definition strip (s : string) : string := strip_chars is_space s.

Definition non_empty (s : string) : bool :=
  match s with
  | EmptyString => false
  | _ => true
  end.

(** [element.get_text(" ", strip=True)]: the strings below the element,
    each stripped, the empty ones left out, joined by a space.  The
    pages modelled hold text strings only: comments, and the strings
    of script and style elements, which [get_text] leaves out, are
    outside the model. *)
Definition _get_element_text (element : node) : string :=
  HttpClient.join " "
    (List.filter non_empty
       (flat_map
          (fun d =>
             match d with
             | NavigableString text => [strip text]
             | Tag _ _ _ => []
             end)
          (descendants element))).

(** [element.find_all(name)] for one of the names of [names]. *)
Definition find_all (names : list string) (element : node) : list node :=
  List.filter
    (fun d => is_tag d && existsb (String.eqb (tag_name d)) names)
    (descendants element).

(** [element.find(name)] *)
Definition find_first (name : string) (element : node) : option node :=
  head (find_all [name] element).

(** [element.find_all(True, class_=True)] *)
Definition find_all_with_class (element : node) : list node :=
  List.filter (fun d => is_tag d && dict_has "class" (tag_attrs d))
    (descendants element).

Definition chars (s : string) : list string :=
  map (fun c => String c EmptyString) (list_ascii_of_string s).

(** [child.get("class", [])], as the loop over it sees it. *)
Definition classes_of (child : node) : list string :=
  match dict_get "class" (tag_attrs child) with
  | Some (AttrList tokens) => tokens
  | Some (AttrStr s) => chars s
  | None => []
  end.

(** [re.sub(r"[^a-z0-9]+", "_", raw)]; [in_run] tells that the
    character before was replaced. *)
Fixpoint collapse_runs (in_run : bool) (s : string) : string :=
  match s with
  | EmptyString => EmptyString
  | String c s' =>
      if is_lower_alnum c then String c (collapse_runs false s')
      else if in_run then collapse_runs true s'
      else String "_" (collapse_runs true s')
  end.

Definition is_underscore (c : ascii) : bool := Ascii.eqb c "_".

(** Clean a string to make it a valid field key. *)
Definition _clean_key (raw : string) : string :=
  let raw := lower (strip raw) in
  let raw := collapse_runs false raw in
  strip_chars is_underscore raw.

(** [s.split(sep)] for a separator that is not empty; [skip] counts
    the characters of a matched separator still to be dropped. *)
Fixpoint split_from (sep s : string) (skip : nat) : list string :=
  match s with
  | EmptyString => [EmptyString]
  | String c s' =>
      match skip with
      | S k => split_from sep s' k
      | O =>
          if String.prefix sep s
          then EmptyString :: split_from sep s' (String.length sep - 1)
          else match split_from sep s' 0 with
               | p :: ps => String c p :: ps
               | [] => [String c EmptyString]
               end
      end
  end.

(** [s.split(sep)[-1]] *)
Definition last_piece (sep s : string) : string :=
  List.last (split_from sep s 0) EmptyString.

(** Extract a meaningful field name from a CSS class. *)
Definition _extract_class_suffix (class_name : string) : string :=
  (* Handle BEM-style: .block__element or .block--modifier *)
  if str_contains "__" class_name
  then _clean_key (last_piece "__" class_name)
  else if str_contains "--" class_name
  then _clean_key (last_piece "--" class_name)
  else _clean_key class_name.

(** Get an attribute value from an element. *)
Definition _get_element_attribute (element : node) (name : string)
  : option string :=
  match dict_get name (tag_attrs element) with
  | Some (AttrStr (String _ _ as s)) => Some (strip s)
  | Some (AttrList (first :: _)) => Some first
  | _ => None
  end.

(** [record[k] = v] when the optional string [v] is there and not
    empty. *)
Definition set_if (k : string) (v : option string) (record : pydict)
  : pydict :=
  match v with
  | Some (String _ _ as s) => dict_set k (VStr s) record
  | _ => record
  end.

(** [a or b] for two optional strings. *)
Definition or_else (a b : option string) : option string :=
  match a with
  | Some (String _ _) => a
  | _ => b
  end.

(** Strategy 2, for one class of one child. *)
Definition add_class_fields (child : node) (record : pydict) (cls : string)
  : pydict :=
  let field_name := _extract_class_suffix cls in
  if non_empty field_name && (2 <=? str_len field_name)%Z then
    let text := _get_element_text child in
    let record :=
      if non_empty text && negb (dict_has field_name record)
      then dict_set field_name (VStr text) record
      else record in
    (* Also get href for links *)
    let record :=
      if String.eqb (tag_name child) "a"
      then set_if (field_name +:+ "_url")
             (_get_element_attribute child "href") record
      else record in
    (* Get src for images *)
    if String.eqb (tag_name child) "img"
    then
      let record :=
        set_if (field_name +:+ "_image")
          (or_else (_get_element_attribute child "src")
                   (_get_element_attribute child "data-src")) record in
      set_if (field_name +:+ "_alt")
        (_get_element_attribute child "alt") record
    else record
  else record.

(** Strategy 3, for one attribute of the matched element. *)
Definition add_data_attribute (record : pydict) (kv : string * attr)
  : pydict :=
  let '(name, v) := kv in
  let truthy :=
    match v with
    | AttrStr s => non_empty s
    | AttrList tokens => match tokens with [] => false | _ => true end
    end in
  if startswith name "data-" && truthy then
    let field_name := _clean_key (replace name "data-" EmptyString) in
    match v with
    | AttrStr s =>
        if non_empty field_name then dict_set field_name (VStr s) record
        else record
    | AttrList _ => record
    end
  else record.

Definition meta_keys : list string := ["_index"; "link"; "src"; "alt"].

(** [any(k not in meta_keys for k in record.keys())] *)
Definition has_content_fields (record : pydict) : bool :=
  existsb (fun k => negb (existsb (String.eqb k) meta_keys))
    (dict_keys record).

(** The record of the matched element number [idx] (from 0), before
    the index key is looked at. *)
Definition fields_of_element (idx : nat) (element : node) : pydict :=
  let record : pydict := [("_index", VInt (Z.of_nat idx + 1))] in
  (* Strategy 1: the element itself is a link or image *)
  let record :=
    if String.eqb (tag_name element) "a"
    then set_if "link" (_get_element_attribute element "href") record
    else if String.eqb (tag_name element) "img"
    then
      let record :=
        set_if "src"
          (or_else (_get_element_attribute element "src")
                   (_get_element_attribute element "data-src")) record in
      set_if "alt" (_get_element_attribute element "alt") record
    else record in
  (* Strategy 2: children with class names *)
  let record :=
    fold_left
      (fun record child =>
         fold_left (add_class_fields child) (classes_of child) record)
      (find_all_with_class element) record in
  (* Strategy 3: data attributes on the parent *)
  let record := fold_left add_data_attribute (tag_attrs element) record in
  (* Strategy 4: if no structured text fields found, get full text *)
  if negb (has_content_fields record)
  then
    let full_text := _get_element_text element in
    if non_empty full_text then dict_set "text" (VStr full_text) record
    else record
  else record.

(** Remove [_index] if we have other fields. *)
Definition drop_index (record : pydict) : pydict :=
  if (len record >? 2)%Z then dict_pop "_index" record else record.

(** Only add non-empty records. *)
Definition keep_record (record : pydict) : bool :=
  (len record >? 1)%Z
  || ((len record =? 1)%Z && negb (dict_has "_index" record)).

(** The loop over the matched elements. *)
Definition records_of_elements (elements : list node) : list pydict :=
  List.filter keep_record
    (imap (fun idx element => drop_index (fields_of_element idx element))
       elements).

(** *** Tables *)

(** The records of one table; [None] when it has no header. *)
Definition records_of_table (table : node) : option (list pydict) :=
  let header_row := find_first "tr" table in
  let headers :=
    match header_row with
    | Some row => map _get_element_text (find_all ["th"] row)
    | None => []
    end in
  let headers :=
    match headers, header_row with
    | [], Some row =>
        (* Fallback: use first row cells as headers *)
        map _get_element_text (find_all ["td"] row)
    | _, _ => headers
    end in
  (* Clean headers *)
  let headers :=
    imap (fun i h =>
            if non_empty h then h
            else "col_" +:+ str_of_Z (Z.of_nat i + 1)) headers in
  match headers with
  | [] => None
  | _ =>
      let rows := find_all ["tr"] table in
      Some
        (flat_map
           (fun tr =>
              let cells :=
                map _get_element_text
                  (take (List.length headers) (find_all ["td"; "th"] tr)) in
              if negb (existsb non_empty cells) then []
              else
                [fold_left
                   (fun row ih =>
                      dict_set (snd ih)
                        (match cells !! fst ih with
                         | Some cell => VStr cell
                         | None => VNone
                         end) row)
                   (imap (fun i h => (i, h)) headers) []])
           (tail rows))
  end.

(** The loop over the tables: the best records and their number. *)
Definition keep_larger (best : list pydict * Z) (table : node)
  : list pydict * Z :=
  match records_of_table table with
  | None => best
  | Some records =>
      if (len records >? snd best)%Z then (records, len records) else best
  end.

Section Extract.

(** The parser and the selector engine: [BeautifulSoup(html, "lxml")]
    and [soup.select(css_selector)], which raises on a selector it
    cannot read. *)
Variable parse : string -> node.
Variable select : node -> string -> result (list node).

Definition extract_records_with_selector (html css_selector : string)
  : result (list pydict) :=
  let soup := parse html in
  match select soup css_selector with
  | Raise e => Raise e
  | Ok [] => Ok []
  | Ok elements => Ok (records_of_elements elements)
  end.

Definition extract_records_from_tables (html : string) : list pydict :=
  let soup := parse html in
  fst (fold_left keep_larger (find_all ["table"] soup) ([], 0)).

Definition extract_records_from_html (html : string)
    (css_selector : option string) : result (list pydict) :=
  (* Priority 1: User-provided selector *)
  match css_selector with
  | Some (String _ _ as s) =>
      if non_empty (strip s)
      then extract_records_with_selector html (strip s)
      else
        (* Priority 2: Table extraction *)
        match extract_records_from_tables html with
        | _ :: _ as table_records => Ok table_records
        | [] => (* Priority 3: No pattern found *) Ok []
        end
  | _ =>
      match extract_records_from_tables html with
      | _ :: _ as table_records => Ok table_records
      | [] => Ok []
      end
  end.

(** A table that contributes nothing: it has no header, or no row
    with a cell that is not blank. *)
Definition yields_no_records (table : node) : Prop :=
  records_of_table table = None \/ records_of_table table = Some [].

Lemma keep_larger_nothing tables :
  (forall table, In table tables -> yields_no_records table) ->
  fold_left keep_larger tables ([], 0) = ([], 0).
Proof.
  induction tables as [|table tables IH]; intros Hall; [done|].
  cbn [fold_left].
  assert (keep_larger ([], 0) table = ([], 0)) as ->.
  { unfold keep_larger. destruct (Hall table) as [-> | ->]; by try left. }
  apply IH. intros t Ht. apply Hall. by right.
Qed.

(** C9, as the code has it.  When the selector supplied is one the
    selector engine reads and it matches no element, or when no
    selector is supplied (none, or a blank one) and no table of the
    page yields a record, the extraction returns the empty list: it
    returns, and it raises nothing.  When the engine cannot read the
    selector supplied, the extraction raises the engine's exception:
    nothing catches it, and the tables are not looked at. *)
Theorem no_pattern_returns_empty (html : string)
    (css_selector : option string) :
  ((exists s, css_selector = Some s /\ strip s <> EmptyString
              /\ select (parse html) (strip s) = Ok [])
   \/ ((css_selector = None
        \/ exists s, css_selector = Some s /\ strip s = EmptyString)
       /\ forall table, In table (find_all ["table"] (parse html)) ->
                        yields_no_records table) ->
   extract_records_from_html html css_selector = Ok [])
  /\ (forall s e,
        css_selector = Some s ->
        strip s <> EmptyString ->
        select (parse html) (strip s) = Raise e ->
        extract_records_from_html html css_selector = Raise e).
Proof.
  assert (forall t : list pydict,
            match t with _ :: _ => Ok t | [] => Ok [] end = Ok t)
    as Htables by (by intros []).
  split; [|intros s e -> Hstrip Hselect;
           unfold extract_records_from_html;
           destruct s as [|c s]; [done|];
           destruct (strip (String c s)) as [|c' s'] eqn:Hs; [done|];
           cbn [non_empty]; unfold extract_records_with_selector;
           by rewrite Hselect].
  intros [(s & -> & Hstrip & Hselect)|[Hblank Hnone]].
  - unfold extract_records_from_html.
    destruct s as [|c s]; [done|].
    destruct (strip (String c s)) as [|c' s'] eqn:Hs; [done|].
    cbn [non_empty]. unfold extract_records_with_selector.
    by rewrite Hselect.
  - assert (extract_records_from_tables html = []) as Hempty.
    { unfold extract_records_from_tables.
      by rewrite (keep_larger_nothing _ Hnone). }
    unfold extract_records_from_html.
    destruct Hblank as [->|(s & -> & Hstrip)].
    + by rewrite Hempty.
    + destruct s as [|c s]; [by rewrite Hempty|].
      rewrite Hstrip. cbn [non_empty]. by rewrite Hempty.
Qed.

End Extract.

(** A page with one paragraph and one table that has only a header. *)
Definition plain_page : node :=
  Tag "html" []
    [Tag "body" []
       [Tag "p" [] [NavigableString "Nothing to list."];
        Tag "table" []
          [Tag "tr" [] [Tag "th" [] [NavigableString "Name"]]]]].

Definition parse_plain (html : string) : node := plain_page.

(** A selector engine for pages on which nothing carries a class or an
    identifier: such a selector matches no element; a selector it
    cannot read raises. *)
Definition select_nothing (soup : node) (css_selector : string)
  : result (list node) :=
  if startswith css_selector "." || startswith css_selector "#"
  then Ok []
  else Raise (Exn (Foreign "SelectorSyntaxError") css_selector).

Lemma no_pattern_returns_empty_witness :
  extract_records_from_html parse_plain select_nothing
    "<p>Nothing to list.</p><table><tr><th>Name</th></tr></table>"
    (Some " .product-card ")
  = Ok []
  /\ extract_records_from_html parse_plain select_nothing
       "<p>Nothing to list.</p><table><tr><th>Name</th></tr></table>"
       None
     = Ok [].
Proof.
  split.
  - apply (proj1 (no_pattern_returns_empty parse_plain select_nothing
                    "<p>Nothing to list.</p><table><tr><th>Name</th></tr></table>"
                    (Some " .product-card "))).
    left. exists " .product-card ". split; [reflexivity|].
    split; [vm_compute; discriminate|vm_compute; reflexivity].
  - apply (proj1 (no_pattern_returns_empty parse_plain select_nothing
                    "<p>Nothing to list.</p><table><tr><th>Name</th></tr></table>"
                    None)).
    right. split; [by left|].
    intros table Htable. vm_compute in Htable.
    destruct Htable as [<-|[]]. right. vm_compute. reflexivity.
Defined.

(** The claim as the specification has it fails on a selector the
    engine cannot read: it matches no element, no table of the page
    yields a record, and the extraction raises instead of returning
    the empty list. *)
Lemma unreadable_selector_raises :
  extract_records_from_html parse_plain select_nothing
    "<p>Nothing to list.</p><table><tr><th>Name</th></tr></table>"
    (Some "div[")
  = Raise (Exn (Foreign "SelectorSyntaxError") "div[")
  /\ (~ exists elements element,
          select_nothing
            (parse_plain
               "<p>Nothing to list.</p><table><tr><th>Name</th></tr></table>")
            "div[" = Ok elements
          /\ In element elements)
  /\ (forall table,
        In table
          (find_all ["table"]
             (parse_plain
                "<p>Nothing to list.</p><table><tr><th>Name</th></tr></table>")) ->
        yields_no_records table)
  /\ extract_records_from_html parse_plain select_nothing
       "<p>Nothing to list.</p><table><tr><th>Name</th></tr></table>"
       (Some "div[")
     <> Ok [].
Proof.
  split; [vm_compute; reflexivity|]. split; [|split].
  - intros (elements & element & Hselect & _). vm_compute in Hselect.
    discriminate Hselect.
  - intros table Htable. vm_compute in Htable.
    destruct Htable as [<-|[]]. right. vm_compute. reflexivity.
  - vm_compute. discriminate.
Qed.

(** *** The index key *)

(** A matched element with one child that carries a class. *)
Definition card : node :=
  Tag "div" [("class", AttrList ["card"])]
    [Tag "span" [("class", AttrList ["card__title"])]
       [NavigableString " Widget "]].

(** A matched link with a text and nothing else. *)
Definition plain_link : node :=
  Tag "a" [("href", AttrStr "/w/1")] [NavigableString "Widget"].

(** C7 on the code.  For a matched element whose record has one real
    field and nothing else beside the index, the index key is not
    dropped: the record emitted is {"_index": 1, "title": "Widget"}.
    The key is dropped only once the record has more than two keys, as
    for a link with a text. *)
Theorem index_kept_with_one_field :
  fields_of_element 0 card = [("_index", VInt 1); ("title", VStr "Widget")]
  /\ has_content_fields (fields_of_element 0 card) = true
  /\ records_of_elements [card]
     = [[("_index", VInt 1); ("title", VStr "Widget")]]
  /\ extract_records_with_selector (fun _ => card)
       (fun soup _ => Ok [soup]) "<div class=card>...</div>" ".card"
     = Ok [[("_index", VInt 1); ("title", VStr "Widget")]]
  /\ records_of_elements [plain_link]
     = [[("link", VStr "/w/1"); ("text", VStr "Widget")]].
Proof. repeat split; vm_compute; reflexivity. Qed.

(** The index key goes exactly when the record has more than two
    keys. *)
Lemma drop_index_two_keys (record : pydict) :
  len record <= 2 -> drop_index record = record.
Proof.
  intros Hlen. unfold drop_index.
  destruct (len record >? 2)%Z eqn:Hgt; [lia|done].
Qed.


(** *** Field keys *)

(** Words of lower-case letters and digits with single underscores
    between them; [after_underscore] tells that an underscore may not
    come next (at the start, and after an underscore), and a key does
    not end there. *)
Fixpoint clean_from (after_underscore : bool) (s : string) : bool :=
  match s with
  | EmptyString => negb after_underscore
  | String c s' =>
      if is_lower_alnum c then clean_from false s'
      else is_underscore c && negb after_underscore && clean_from true s'
  end.

Definition is_clean_key (s : string) : bool :=
  match s with
  | EmptyString => true
  | _ => clean_from true s
  end.

(** The same without the conditions on the two ends. *)
Fixpoint loose (after_underscore : bool) (s : string) : bool :=
  match s with
  | EmptyString => true
  | String c s' =>
      if is_lower_alnum c then loose false s'
      else is_underscore c && negb after_underscore && loose true s'
  end.

Lemma underscore_not_alnum c :
  is_underscore c = true -> is_lower_alnum c = false.
Proof.
  unfold is_underscore. intros Hc. apply Ascii.eqb_eq in Hc. by subst.
Qed.

Lemma alnum_not_space c : is_lower_alnum c = true -> is_space c = false.
Proof.
  destruct c as [[] [] [] [] [] [] [] []]; vm_compute; congruence.
Qed.

Lemma collapse_runs_loose in_run s :
  loose in_run (collapse_runs in_run s) = true.
Proof.
  revert in_run. induction s as [|c s IH]; intros in_run; [done|].
  cbn [collapse_runs]. destruct (is_lower_alnum c) eqn:Hc.
  - cbn [loose]. by rewrite Hc.
  - destruct in_run; [done|]. cbn [loose]. by rewrite IH.
Qed.

Lemma lstrip_loose after s :
  loose after s = true -> loose true (lstrip is_underscore s) = true.
Proof.
  revert after. induction s as [|c s IH]; intros after; [done|].
  cbn [loose lstrip]. destruct (is_underscore c) eqn:Hu.
  - rewrite (underscore_not_alnum c Hu). intros Hs.
    apply andb_prop in Hs as [_ Hs]. by apply (IH true).
  - cbn [loose]. by destruct (is_lower_alnum c).
Qed.

Lemma rstrip_loose after s :
  loose after s = true ->
  rstrip is_underscore s = EmptyString
  \/ clean_from after (rstrip is_underscore s) = true.
Proof.
  revert after. induction s as [|c s IH]; intros after; [by left|].
  cbn [loose rstrip]. destruct (is_lower_alnum c) eqn:Hc.
  - intros Hs. right.
    destruct (rstrip is_underscore s) as [|c' r] eqn:Hr.
    + destruct (is_underscore c) eqn:Hu.
      * apply underscore_not_alnum in Hu. congruence.
      * cbn. by rewrite Hc.
    + destruct (IH _ Hs) as [|Hclean]; [done|].
      cbn [clean_from]. by rewrite Hc.
  - intros Hs. apply andb_prop in Hs as [Hs Hrest].
    apply andb_prop in Hs as [Hu Hafter].
    destruct (IH _ Hrest) as [->|Hclean]; [left; by rewrite Hu|].
    right. destruct (rstrip is_underscore s) as [|c' r] eqn:Hr; [done|].
    cbn [clean_from]. by rewrite Hc, Hu, Hafter.
Qed.

Lemma clean_key_clean raw : is_clean_key (_clean_key raw) = true.
Proof.
  unfold _clean_key, strip_chars.
  pose proof (collapse_runs_loose false (lower (strip raw))) as Hloose.
  apply lstrip_loose, rstrip_loose in Hloose.
  destruct Hloose as [->|Hclean]; [done|].
  unfold is_clean_key. by destruct (rstrip is_underscore _).
Qed.

Lemma lstrip_clean p after s :
  (forall c, is_lower_alnum c = true -> p c = false) ->
  p "_"%char = false ->
  clean_from after s = true -> lstrip p s = s.
Proof.
  intros Halnum Hunder. destruct s as [|c s]; [done|].
  cbn [clean_from lstrip]. destruct (is_lower_alnum c) eqn:Hc.
  - by rewrite Halnum.
  - intros Hs. apply andb_prop in Hs as [Hs _].
    apply andb_prop in Hs as [Hu _]. apply Ascii.eqb_eq in Hu. subst c.
    by rewrite Hunder.
Qed.

Lemma rstrip_clean p after s :
  (forall c, is_lower_alnum c = true -> p c = false) ->
  p "_"%char = false ->
  clean_from after s = true -> rstrip p s = s.
Proof.
  intros Halnum Hunder. revert after.
  induction s as [|c s IH]; intros after; [done|].
  cbn [clean_from rstrip].
  assert (p c = false ->
          forall a, clean_from a s = true ->
          match rstrip p s with
          | EmptyString => if p c then EmptyString else String c EmptyString
          | String _ _ as rest => String c rest
          end = String c s) as Hstep.
  { intros Hp a Hs. rewrite (IH a Hs). rewrite Hp. by destruct s. }
  destruct (is_lower_alnum c) eqn:Hc.
  - intros Hs. apply (Hstep (Halnum c Hc) false Hs).
  - intros Hs. apply andb_prop in Hs as [Hs Hrest].
    apply andb_prop in Hs as [Hu _]. apply Ascii.eqb_eq in Hu. subst c.
    apply (Hstep Hunder true Hrest).
Qed.

Lemma lower_clean after s : clean_from after s = true -> lower s = s.
Proof.
  revert after. induction s as [|c s IH]; intros after; [done|].
  cbn [clean_from lower]. destruct (is_lower_alnum c) eqn:Hc.
  - intros Hs. by rewrite (FieldFilter.lower_alnum_is_lower c Hc), (IH _ Hs).
  - intros Hs. apply andb_prop in Hs as [Hs Hrest].
    apply andb_prop in Hs as [Hu _]. apply Ascii.eqb_eq in Hu. subst c.
    by rewrite (IH _ Hrest).
Qed.

Lemma collapse_runs_clean in_run after s :
  (in_run = true -> after = true) ->
  clean_from after s = true -> collapse_runs in_run s = s.
Proof.
  revert in_run after. induction s as [|c s IH]; intros in_run after Himp;
    [done|].
  cbn [clean_from collapse_runs]. destruct (is_lower_alnum c) eqn:Hc.
  - intros Hs. by rewrite (IH false false).
  - intros Hs. apply andb_prop in Hs as [Hs Hrest].
    apply andb_prop in Hs as [Hu Hafter]. apply Ascii.eqb_eq in Hu. subst c.
    destruct in_run.
    + rewrite Himp in Hafter; done.
    + by rewrite (IH true true).
Qed.

Lemma rstrip_underscore_clean after s :
  clean_from after s = true -> rstrip is_underscore s = s.
Proof.
  revert after. induction s as [|c s IH]; intros after; [done|].
  cbn [clean_from rstrip]. destruct (is_lower_alnum c) eqn:Hc.
  - intros Hs. rewrite (IH _ Hs). destruct s; [|done].
    destruct (is_underscore c) eqn:Hu; [|done].
    apply underscore_not_alnum in Hu. congruence.
  - intros Hs. apply andb_prop in Hs as [_ Hrest].
    rewrite (IH _ Hrest). by destruct s.
Qed.

Lemma clean_key_fixed s : is_clean_key s = true -> _clean_key s = s.
Proof.
  destruct s as [|c s]; [done|]. unfold is_clean_key.
  set (key := String c s). intros Hclean.
  unfold _clean_key, strip, strip_chars.
  rewrite (lstrip_clean is_space true key alnum_not_space eq_refl Hclean).
  rewrite (rstrip_clean is_space true key alnum_not_space eq_refl Hclean).
  rewrite (lower_clean true key Hclean).
  rewrite (collapse_runs_clean false true key) by done.
  assert (lstrip is_underscore key = key) as ->.
  { subst key. cbn [clean_from] in Hclean. cbn [lstrip].
    destruct (is_underscore c) eqn:Hu; [|done].
    rewrite (underscore_not_alnum c Hu) in Hclean.
    apply andb_prop in Hclean as [Hclean _].
    by apply andb_prop in Hclean as [_ Hclean]. }
  by apply (rstrip_underscore_clean true).
Qed.

(** Whatever the raw text, the key made of it is empty or made of
    words of lower-case ASCII letters and digits joined by single
    underscores, with no underscore at either end; and cleaning a key
    a second time changes nothing. *)
Theorem clean_key_normal_form (raw : string) :
  is_clean_key (_clean_key raw) = true
  /\ _clean_key (_clean_key raw) = _clean_key raw.
Proof.
  split; [apply clean_key_clean|]. apply clean_key_fixed, clean_key_clean.
Qed.

(** A name that is already such a key is left as it is. *)
Theorem clean_key_keeps_clean_names (name : string) :
  is_clean_key name = true -> _clean_key name = name.
Proof. apply clean_key_fixed. Qed.

Lemma clean_key_keeps_clean_names_witness :
  _clean_key "unit_price_2" = "unit_price_2".
Proof. apply (clean_key_keeps_clean_names "unit_price_2"). reflexivity. Defined.


(** *** The record of an element *)

(** The record still starts with the index entry [w]. *)
Definition starts_with_index (w : value) (record : pydict) : Prop :=
  exists rest, record = ("_index", w) :: rest.

Lemma set_after_index k v w record :
  String.eqb k "_index" = false ->
  starts_with_index w record -> starts_with_index w (dict_set k v record).
Proof.
  intros Hk [rest ->]. exists (dict_set k v rest). simpl. by rewrite Hk.
Qed.

Lemma set_if_after_index k v w record :
  String.eqb k "_index" = false ->
  starts_with_index w record -> starts_with_index w (set_if k v record).
Proof.
  intros Hk Hrecord. unfold set_if. destruct v as [[|c s]|]; try done.
  by apply set_after_index.
Qed.

Lemma clean_key_not_index s t :
  is_clean_key s = true -> non_empty s = true ->
  String.eqb (s +:+ t) "_index" = false.
Proof.
  destruct s as [|c s]; [done|]. intros Hclean _.
  cbn [is_clean_key clean_from] in Hclean. simpl.
  destruct (is_lower_alnum c) eqn:Hc.
  - destruct (Ascii.eqb c "_") eqn:Hu; [|done].
    apply underscore_not_alnum in Hu. congruence.
  - apply andb_prop in Hclean as [Hclean _].
    by apply andb_prop in Hclean as [_ Hclean].
Qed.

Lemma append_empty s : s +:+ EmptyString = s.
Proof.
  induction s as [|c s IH]; [done|].
  change (String c (s +:+ EmptyString) = String c s). by rewrite IH.
Qed.

Lemma class_suffix_clean cls : is_clean_key (_extract_class_suffix cls) = true.
Proof.
  unfold _extract_class_suffix.
  destruct (str_contains "__" cls); [apply clean_key_clean|].
  destruct (str_contains "--" cls); apply clean_key_clean.
Qed.

Lemma class_fields_after_index child w record cls :
  starts_with_index w record ->
  starts_with_index w (add_class_fields child record cls).
Proof.
  intros Hrecord. unfold add_class_fields.
  set (field_name := _extract_class_suffix cls).
  destruct (non_empty field_name) eqn:Hne; [|done].
  destruct (2 <=? str_len field_name)%Z; [|done]. cbn [andb].
  pose proof (class_suffix_clean cls) as Hclean. fold field_name in Hclean.
  assert (forall t, String.eqb (field_name +:+ t) "_index" = false) as Hkey
    by (intros t; by apply clean_key_not_index).
  assert (String.eqb field_name "_index" = false) as Hname.
  { specialize (Hkey EmptyString). by rewrite append_empty in Hkey. }
  assert (starts_with_index w
            (if non_empty (_get_element_text child)
                && negb (dict_has field_name record)
             then dict_set field_name (VStr (_get_element_text child)) record
             else record)) as Htext.
  { destruct (_ && _); [by apply set_after_index|done]. }
  assert (forall r, starts_with_index w r ->
            starts_with_index w
              (if String.eqb (tag_name child) "a"
               then set_if (field_name +:+ "_url")
                      (_get_element_attribute child "href") r
               else r)) as Hurl.
  { intros r Hr. destruct (String.eqb _ "a"); [|done].
    by apply set_if_after_index. }
  destruct (String.eqb (tag_name child) "img").
  - apply set_if_after_index; [done|]. apply set_if_after_index; [done|].
    by apply Hurl.
  - by apply Hurl.
Qed.

Lemma data_attribute_after_index w record kv :
  starts_with_index w record ->
  starts_with_index w (add_data_attribute record kv).
Proof.
  intros Hrecord. unfold add_data_attribute. destruct kv as [name v].
  destruct (startswith name "data-" && _); [|done].
  destruct v as [s|tokens]; [|done].
  destruct (non_empty _) eqn:Hne; [|done].
  apply set_after_index; [|done].
  pose proof (clean_key_not_index _ EmptyString (clean_key_clean _) Hne)
    as Hkey.
  by rewrite append_empty in Hkey.
Qed.

Lemma fold_after_index {A} (f : pydict -> A -> pydict) w items :
  (forall record x,
      starts_with_index w record -> starts_with_index w (f record x)) ->
  forall record,
    starts_with_index w record -> starts_with_index w (fold_left f items record).
Proof.
  intros Hf. induction items as [|x items IH]; intros record Hrecord; [done|].
  simpl. by apply IH, Hf.
Qed.

Lemma fields_start_with_index idx element :
  starts_with_index (VInt (Z.of_nat idx + 1)) (fields_of_element idx element).
Proof.
  unfold fields_of_element.
  set (w := VInt (Z.of_nat idx + 1)).
  assert (starts_with_index w [("_index", w)]) as Hstart by (by exists []).
  match goal with
  | |- starts_with_index w
         (if negb (has_content_fields ?r) then _ else _) =>
      assert (starts_with_index w r) as Hrecord; [|set (record := r) in *]
  end.
  { apply fold_after_index; [apply data_attribute_after_index|].
    apply fold_after_index.
    { intros record child Hrecord.
      apply fold_after_index; [|done].
      intros r cls. apply class_fields_after_index. }
    destruct (String.eqb (tag_name element) "a");
      [by apply set_if_after_index|].
    destruct (String.eqb (tag_name element) "img"); [|done].
    by repeat apply set_if_after_index. }
  destruct (negb (has_content_fields record)); [|done].
  destruct (non_empty (_get_element_text element)); [|done].
  by apply set_after_index.
Qed.

(** Whatever the element and whatever its class names and data
    attributes, no strategy overwrites or moves the index entry: the
    record built for element number [idx] (from 0) starts with
    [_index = idx + 1].  What is emitted depends on what follows it:
    with nothing else the element is left out; with one more entry the
    record is emitted with its index; with two or more the index is
    removed and the other entries are emitted in order. *)
Theorem element_record_cases (idx : nat) (element : node) :
  exists rest,
    fields_of_element idx element
    = ("_index", VInt (Z.of_nat idx + 1)) :: rest
    /\ match rest with
       | [] =>
           keep_record (drop_index (fields_of_element idx element)) = false
       | [_] =>
           keep_record (drop_index (fields_of_element idx element)) = true
           /\ drop_index (fields_of_element idx element)
              = fields_of_element idx element
       | _ =>
           keep_record (drop_index (fields_of_element idx element)) = true
           /\ drop_index (fields_of_element idx element) = rest
       end.
Proof.
  destruct (fields_start_with_index idx element) as [rest Hfields].
  exists rest. split; [done|]. rewrite Hfields.
  destruct rest as [|one [|two rest]]; [done|done|].
  unfold drop_index, keep_record, len.
  assert ((Z.of_nat
             (List.length
                (("_index", VInt (Z.of_nat idx + 1)) :: one :: two :: rest))
           >? 2)%Z = true) as ->
    by (apply Z.gtb_lt; cbn [List.length]; lia).
  cbn [dict_pop]. rewrite String.eqb_refl.
  split; [|done]. apply orb_true_iff. left. apply Z.gtb_lt.
  cbn [List.length]. lia.
Qed.


(** *** The records of a table *)

(** The keys a row gets from a list of indexed headers. *)
Definition keys_of_headers (headers : list (nat * string)) : list string :=
  dict_keys
    (fold_left (fun (row : pydict) ih => dict_set (snd ih) VNone row)
       headers []).

Lemma dict_set_same_keys {A B} k (v : A) (w : B) d e :
  dict_keys d = dict_keys e ->
  dict_keys (dict_set k v d) = dict_keys (dict_set k w e).
Proof.
  revert e. induction d as [|[k1 v1] d IH]; intros [|[k2 v2] e]; try done.
  simpl. intros [= -> Hkeys]. destruct (String.eqb k k2); simpl.
  - by rewrite Hkeys.
  - f_equal. by apply IH.
Qed.

Lemma fold_set_same_keys {A} (f g : A * string -> value) headers :
  forall d e : pydict,
    dict_keys d = dict_keys e ->
    dict_keys (fold_left (fun row ih => dict_set (snd ih) (f ih) row)
                 headers d)
    = dict_keys (fold_left (fun row ih => dict_set (snd ih) (g ih) row)
                   headers e).
Proof.
  induction headers as [|ih headers IH]; intros d e Hkeys; [done|].
  simpl. apply IH. by apply dict_set_same_keys.
Qed.

Lemma dict_set_key_in {A} k (v : A) d x :
  In x (dict_keys (dict_set k v d)) -> x = k \/ In x (dict_keys d).
Proof.
  unfold dict_keys. intros Hin. apply in_map_iff in Hin as ([k' v'] & <- & Hin).
  apply FieldFilter.dict_set_in in Hin as [[= -> ->]|Hin]; [by left|].
  right. by apply (in_map fst) in Hin.
Qed.

Lemma fold_set_keys_in {A} (f : A * string -> value) headers x :
  forall d : pydict,
    In x (dict_keys (fold_left (fun row ih => dict_set (snd ih) (f ih) row)
                       headers d)) ->
    In x (map snd headers) \/ In x (dict_keys d).
Proof.
  induction headers as [|ih headers IH]; intros d; [by right|].
  simpl. intros Hin. destruct (IH _ Hin) as [Hh|Hd]; [by left; right|].
  apply dict_set_key_in in Hd as [->|Hd]; [by left; left|by right].
Qed.

Lemma fold_set_not_empty {A} (f : A * string -> value) headers :
  forall d : pydict,
    headers <> [] \/ d <> [] ->
    fold_left (fun row ih => dict_set (snd ih) (f ih) row) headers d <> [].
Proof.
  induction headers as [|ih headers IH]; intros d Hne.
  - by destruct Hne.
  - simpl. apply IH. right. destruct d as [|[k v] d]; [done|].
    simpl. by destruct (String.eqb _ _).
Qed.

Lemma rows_share_keys (headers : list string)
    (cells_of : node -> list string) (trs : list node) (row : pydict) :
  In row
    (flat_map
       (fun tr =>
          if negb (existsb non_empty (cells_of tr)) then []
          else
            [fold_left
               (fun row ih =>
                  dict_set (snd ih)
                    (match cells_of tr !! fst ih with
                     | Some cell => VStr cell
                     | None => VNone
                     end) row)
               (imap (fun i h => (i, h)) headers) []])
       trs) ->
  dict_keys row = keys_of_headers (imap (fun i h => (i, h)) headers).
Proof.
  intros Hrow. apply in_flat_map in Hrow as (tr & _ & Hrow).
  destruct (negb _); [done|]. destruct Hrow as [<-|[]].
  unfold keys_of_headers.
  by apply (fold_set_same_keys
              (fun ih => match cells_of tr !! fst ih with
                         | Some cell => VStr cell
                         | None => VNone
                         end)
              (fun _ => VNone)).
Qed.

(** All the records of one table have the same keys in the same
    order, there is at least one key, and no key is the empty string:
    a header cell without text is named by its column. *)
Theorem table_records_share_keys (table : node) (rows : list pydict) :
  records_of_table table = Some rows ->
  exists keys,
    keys <> []
    /\ (forall k, In k keys -> k <> EmptyString)
    /\ forall row, In row rows -> dict_keys row = keys.
Proof.
  unfold records_of_table. cbv zeta.
  match goal with
  | |- match ?h with [] => _ | _ :: _ => _ end = _ -> _ =>
      set (headers := h)
  end.
  assert (forall h, In h headers -> h <> EmptyString) as Hnames.
  { intros h Hh. apply list_elem_of_In, elem_of_lookup_imap_1 in Hh
      as (i & y & -> & _).
    destruct (non_empty y) eqn:Hy; [by destruct y|done]. }
  destruct headers as [|h hs] eqn:Hheaders; [done|].
  rewrite <- Hheaders in *. intros [= <-].
  exists (keys_of_headers (imap (fun i h => (i, h)) headers)).
  split; [|split].
  - unfold keys_of_headers, dict_keys. intros Hempty.
    apply map_eq_nil in Hempty. revert Hempty. apply fold_set_not_empty.
    left. rewrite Hheaders. done.
  - intros k Hk. unfold keys_of_headers in Hk.
    apply fold_set_keys_in in Hk as [Hk|[]]. apply Hnames.
    apply in_map_iff in Hk as ([i x] & <- & Hk).
    apply list_elem_of_In, elem_of_lookup_imap_1 in Hk
      as (j & y & [= -> ->] & Hy).
    apply list_elem_of_In. by eapply list_elem_of_lookup_2.
  - intros row Hrow.
    by apply (rows_share_keys headers
                (fun tr =>
                   map _get_element_text
                     (take (List.length headers)
                        (find_all ["td"; "th"] tr)))
                (tail (find_all ["tr"] table))).
Qed.

(** A table with a header of two columns, the second one without
    text, and two rows. *)
Definition price_table : node :=
  Tag "table" []
    [Tag "tr" [] [Tag "th" [] [NavigableString "Name"]; Tag "th" [] []];
     Tag "tr" []
       [Tag "td" [] [NavigableString "Widget"];
        Tag "td" [] [NavigableString "3"]];
     Tag "tr" [] [Tag "td" [] [NavigableString "Gadget"]]].

Lemma table_records_share_keys_witness :
  exists keys,
    keys <> []
    /\ (forall k, In k keys -> k <> EmptyString)
    /\ forall row,
         In row
           [[("Name", VStr "Widget"); ("col_2", VStr "3")];
            [("Name", VStr "Gadget"); ("col_2", VNone)]] ->
         dict_keys row = keys.
Proof.
  apply (table_records_share_keys price_table). vm_compute. reflexivity.
Defined.

(** *** The best table *)

Lemma keep_larger_best (tables : list node) :
  forall best : list pydict,
    snd (fold_left keep_larger tables (best, len best))
    = len (fst (fold_left keep_larger tables (best, len best)))
    /\ ((fst (fold_left keep_larger tables (best, len best)) = best
         /\ forall t rows,
              In t tables -> records_of_table t = Some rows ->
              len rows <= len best)
        \/ (len best
            < len (fst (fold_left keep_larger tables (best, len best)))
            /\ exists before table after,
                 tables = before ++ table :: after
                 /\ records_of_table table
                    = Some (fst (fold_left keep_larger tables
                                   (best, len best)))
                 /\ (forall t rows,
                        In t before -> records_of_table t = Some rows ->
                        len rows
                        < len (fst (fold_left keep_larger tables
                                      (best, len best))))
                 /\ (forall t rows,
                        In t after -> records_of_table t = Some rows ->
                        len rows
                        <= len (fst (fold_left keep_larger tables
                                       (best, len best)))))).
Proof.
  induction tables as [|t ts IH]; intros best.
  { split; [done|]. left. split; [done|]. by intros t rows []. }
  cbn [fold_left].
  assert (exists best',
             keep_larger (best, len best) t = (best', len best')
             /\ ((best' = best
                  /\ forall rows, records_of_table t = Some rows ->
                                  len rows <= len best)
                 \/ (records_of_table t = Some best'
                     /\ len best < len best')))
    as (best' & -> & Hstep).
  { unfold keep_larger. destruct (records_of_table t) as [rows|] eqn:Hrows.
    - cbn [snd]. destruct (len rows >? len best)%Z eqn:Hgt.
      + exists rows. split; [done|]. right. split; [done|].
        by apply Z.gtb_lt.
      + exists best. split; [done|]. left. split; [done|].
        intros ? [= <-]. rewrite Z.gtb_ltb in Hgt.
        by apply Z.ltb_ge in Hgt.
    - exists best. split; [done|]. left. by split. }
  destruct (IH best') as (Hlen & Hbest). split; [done|].
  set (r := fst (fold_left keep_larger ts (best', len best'))) in *.
  destruct Hstep as [(-> & Ht)|(Ht & Hlt)].
  - destruct Hbest as [(Hr & Hts)|(Hlt & before & table & after & -> & Htable
                                   & Hbefore & Hafter)].
    + left. split; [done|]. intros t' rows [<-|Hin]; [apply Ht|].
      by apply Hts.
    + right. split; [done|]. exists (t :: before), table, after.
      split; [done|]. split; [done|]. split; [|done].
      intros t' rows [<-|Hin] Hrows; [|by eapply Hbefore].
      specialize (Ht rows Hrows). lia.
  - destruct Hbest as [(Hr & Hts)|(Hlt' & before & table & after & -> & Htable
                                   & Hbefore & Hafter)].
    + right. rewrite Hr. split; [done|]. exists [], t, ts.
      split; [done|]. split; [done|]. split; [by intros ? ? []|done].
    + right. split; [lia|]. exists (t :: before), table, after.
      split; [done|]. split; [done|]. split; [|done].
      intros t' rows [<-|Hin] Hrows; [|by eapply Hbefore].
      rewrite Ht in Hrows. injection Hrows as <-. done.
Qed.

(** The table extraction returns the records of the table of the page
    with the most records, the first such table in document order; it
    returns the empty list exactly when no table of the page yields a
    record. *)
Theorem best_table_wins (parse : string -> node) (html : string) :
  (extract_records_from_tables parse html = []
   /\ forall table,
        In table (find_all ["table"] (parse html)) ->
        yields_no_records table)
  \/ (extract_records_from_tables parse html <> []
      /\ exists before table after,
           find_all ["table"] (parse html) = before ++ table :: after
           /\ records_of_table table
              = Some (extract_records_from_tables parse html)
           /\ (forall t rows,
                  In t before -> records_of_table t = Some rows ->
                  len rows < len (extract_records_from_tables parse html))
           /\ (forall t rows,
                  In t after -> records_of_table t = Some rows ->
                  len rows <= len (extract_records_from_tables parse html))).
Proof.
  unfold extract_records_from_tables.
  destruct (keep_larger_best (find_all ["table"] (parse html)) [])
    as (_ & [(Hr & Hall)|(Hlt & Hbest)]).
  - left. change (len (@nil pydict)) with 0 in *. split; [done|].
    intros table Hin. unfold yields_no_records.
    destruct (records_of_table table) as [rows|] eqn:Hrows; [|by left].
    right. specialize (Hall table rows Hin Hrows).
    destruct rows; [done|]. unfold len in Hall. cbn [List.length] in Hall. lia.
  - right. change (len (@nil pydict)) with 0 in *. split; [|done].
    intros Hempty. rewrite Hempty in Hlt. unfold len in Hlt. simpl in Hlt. lia.
Qed.


(** *** Suggested selectors *)

(** [class_counts[cls] = class_counts.get(cls, 0) + 1] *)
Definition count_class (class_counts : list (string * Z)) (cls : string)
  : list (string * Z) :=
  dict_set cls
    (match dict_get cls class_counts with Some n => n | None => 0 end + 1)
    class_counts.

(** [{"selector": f".{cls}", "count": count}] *)
Definition suggestion (cls : string) (count : Z) : pydict :=
  [("selector", VStr ("." +:+ cls)); ("count", VInt count)].

(** [x["count"]] *)
Definition count_of (x : pydict) : Z :=
  match dict_get "count" x with
  | Some (VInt n) => n
  | _ => 0
  end.

(** [suggestions.sort(key=lambda x: x["count"], reverse=True)]: the
    sort is stable, equal counts keep their order. *)
Fixpoint insert_by_count (x : pydict) (l : list pydict) : list pydict :=
  match l with
  | [] => [x]
  | y :: l' =>
      if (count_of x <? count_of y)%Z then y :: insert_by_count x l'
      else x :: l
  end.

Definition sort_by_count (l : list pydict) : list pydict :=
  fold_right insert_by_count [] l.

Section Detect.

Variable parse : string -> node.

(** Analyze HTML and suggest CSS selectors for repeated elements. *)
Definition detect_repeated_elements (html : string) (min_count : Z)
  : list pydict :=
  let soup := parse html in
  let class_counts :=
    fold_left
      (fun class_counts element =>
         fold_left count_class (classes_of element) class_counts)
      (find_all_with_class soup) [] in
  (* Filter and sort by count *)
  let suggestions :=
    flat_map
      (fun cc : string * Z =>
         if (min_count <=? snd cc)%Z && (3 <=? str_len (fst cc))%Z
         then [suggestion (fst cc) (snd cc)]
         else [])
      class_counts in
  (* Top 10 suggestions *)
  take 10 (sort_by_count suggestions).

End Detect.

(** How many times a class name stands in a list of class names. *)
Fixpoint occurrences (cls : string) (classes : list string) : Z :=
  match classes with
  | [] => 0
  | c :: classes' =>
      (if String.eqb cls c then 1 else 0) + occurrences cls classes'
  end.

(** The class names of a page, one entry for each element that
    carries the name. *)
Definition class_names (soup : node) : list string :=
  flat_map classes_of (find_all_with_class soup).

Definition counted (cls : string) (class_counts : list (string * Z)) : Z :=
  match dict_get cls class_counts with Some n => n | None => 0 end.

Lemma fold_nested {A B C} (f : A -> B -> A) (g : C -> list B) l :
  forall d,
    fold_left (fun acc x => fold_left f (g x) acc) l d
    = fold_left f (flat_map g l) d.
Proof.
  induction l as [|x l IH]; intros d; [done|].
  simpl. by rewrite fold_left_app, IH.
Qed.

Lemma counted_fold cls classes :
  forall d,
    counted cls (fold_left count_class classes d)
    = counted cls d + occurrences cls classes.
Proof.
  induction classes as [|c classes IH]; intros d.
  - simpl. lia.
  - cbn [fold_left occurrences]. rewrite IH.
    unfold count_class, counted.
    destruct (String.eqb cls c) eqn:E.
    + apply String.eqb_eq in E. subst c. rewrite dict_get_set_eq. lia.
    + apply String.eqb_neq in E.
      rewrite dict_get_set_ne by congruence. lia.
Qed.

Lemma set_distinct_keys {A} k (v : A) d :
  List.NoDup (dict_keys d) -> List.NoDup (dict_keys (dict_set k v d)).
Proof.
  induction d as [|[k' v'] d IH]; intros Hd.
  - simpl. apply List.NoDup_cons; [by intros []|apply List.NoDup_nil].
  - simpl in *. apply List.NoDup_cons_iff in Hd as [Hnot Hd].
    destruct (String.eqb k k') eqn:E.
    + apply String.eqb_eq in E. subst k'. simpl. by apply List.NoDup_cons.
    + simpl. apply List.NoDup_cons; [|by apply IH].
      intros Hin. apply dict_set_key_in in Hin as [->|Hin]; [|done].
      by rewrite String.eqb_refl in E.
Qed.

Lemma count_distinct_keys classes :
  forall d,
    List.NoDup (dict_keys d) ->
    List.NoDup (dict_keys (fold_left count_class classes d)).
Proof.
  induction classes as [|c classes IH]; intros d Hd; [done|].
  simpl. apply IH. by apply set_distinct_keys.
Qed.

Lemma distinct_keys_get {A} k (v : A) d :
  List.NoDup (dict_keys d) -> In (k, v) d -> dict_get k d = Some v.
Proof.
  induction d as [|[k' v'] d IH]; [done|]. simpl.
  intros Hd Hin. apply List.NoDup_cons_iff in Hd as [Hnot Hd].
  destruct Hin as [[= -> ->]|Hin]; [by rewrite String.eqb_refl|].
  destruct (String.eqb k k') eqn:E; [|by apply IH].
  apply String.eqb_eq in E. subst k'. exfalso. apply Hnot.
  by apply (in_map fst) in Hin.
Qed.

Lemma insert_by_count_in x l y :
  In y (insert_by_count x l) <-> y = x \/ In y l.
Proof.
  induction l as [|z l IH]; simpl; [intuition|].
  destruct (count_of x <? count_of z)%Z; simpl; [rewrite IH|]; intuition.
Qed.

Lemma sort_by_count_in l y : In y (sort_by_count l) <-> In y l.
Proof.
  induction l as [|x l IH]; [done|]. simpl.
  rewrite insert_by_count_in, IH. intuition.
Qed.

(** Counts do not go up along the list. *)
Definition counts_descend (l : list pydict) : Prop :=
  StronglySorted (fun a b => count_of b <= count_of a) l.

Lemma insert_by_count_descends x l :
  counts_descend l -> counts_descend (insert_by_count x l).
Proof.
  unfold counts_descend. induction 1 as [|y l Hl IH Hy].
  - simpl. by repeat constructor.
  - simpl. destruct (count_of x <? count_of y)%Z eqn:Hlt.
    + apply Z.ltb_lt in Hlt. constructor; [done|].
      apply List.Forall_forall. intros z Hz.
      apply insert_by_count_in in Hz as [->|Hz]; [lia|].
      by apply (proj1 (List.Forall_forall _ _) Hy).
    + apply Z.ltb_ge in Hlt. constructor; [by constructor|].
      constructor; [done|]. apply List.Forall_forall. intros z Hz.
      pose proof (proj1 (List.Forall_forall _ _) Hy z Hz). simpl in *. lia.
Qed.

Lemma sort_by_count_descends l : counts_descend (sort_by_count l).
Proof.
  induction l as [|x l IH]; [constructor|].
  simpl. by apply insert_by_count_descends.
Qed.

Lemma take_in {A} n (l : list A) x : In x (take n l) -> In x l.
Proof.
  revert n. induction l as [|y l IH]; intros [|n]; simpl; try done.
  intros [->|Hin]; [by left|right; by eapply IH].
Qed.

Lemma take_descends n l : counts_descend l -> counts_descend (take n l).
Proof.
  unfold counts_descend. intros Hl. revert n.
  induction Hl as [|y l Hl IH Hy]; intros [|n]; simpl; try constructor.
  - apply IH.
  - apply List.Forall_forall. intros z Hz. apply take_in in Hz.
    by apply (proj1 (List.Forall_forall _ _) Hy).
Qed.

(** At most ten selectors are suggested, in the order of their counts,
    highest first.  Each one is a dot and a class name of three
    characters or more, and its count is the number of times the name
    stands in the class lists of the elements of the page, which is at
    least [min_count]. *)
Theorem suggestions_are_repeated_classes (parse : string -> node)
    (html : string) (min_count : Z) :
  len (detect_repeated_elements parse html min_count) <= 10
  /\ counts_descend (detect_repeated_elements parse html min_count)
  /\ forall s,
       In s (detect_repeated_elements parse html min_count) ->
       exists cls,
         s = suggestion cls (occurrences cls (class_names (parse html)))
         /\ min_count <= occurrences cls (class_names (parse html))
         /\ 3 <= str_len cls.
Proof.
  unfold detect_repeated_elements. cbv zeta. rewrite fold_nested.
  fold (class_names (parse html)).
  split; [|split].
  - unfold len. pose proof (List.firstn_le_length 10
      (sort_by_count
         (flat_map
            (fun cc : string * Z =>
               if (min_count <=? snd cc)%Z && (3 <=? str_len (fst cc))%Z
               then [suggestion (fst cc) (snd cc)] else [])
            (fold_left count_class (class_names (parse html)) [])))). lia.
  - apply take_descends, sort_by_count_descends.
  - intros s Hs. apply take_in, sort_by_count_in, in_flat_map in Hs
      as ([cls count] & Hin & Hs). cbn [fst snd] in Hs.
    destruct (_ && _) eqn:Hkeep; [|done]. destruct Hs as [<-|[]].
    apply andb_prop in Hkeep as [Hmin Hlen].
    apply Z.leb_le in Hmin. apply Z.leb_le in Hlen.
    assert (count = occurrences cls (class_names (parse html))) as ->.
    { apply distinct_keys_get in Hin;
        [|apply count_distinct_keys; apply List.NoDup_nil].
      pose proof (counted_fold cls (class_names (parse html)) []) as Hc.
      unfold counted in Hc. rewrite Hin in Hc. simpl in Hc. lia. }
    by exists cls.
Qed.

(** A list of three items and a footer. *)
Definition item_list : node :=
  Tag "ul" [("class", AttrList ["list"])]
    [Tag "li" [("class", AttrList ["item"; "odd"])] [NavigableString "a"];
     Tag "li" [("class", AttrList ["item"])] [NavigableString "b"];
     Tag "li" [("class", AttrList ["item"; "odd"])] [NavigableString "c"];
     Tag "p" [("class", AttrList ["footer"])] [NavigableString "d"]].

Lemma suggestions_are_repeated_classes_witness :
  exists cls,
    [("selector", VStr ".odd"); ("count", VInt 2)]
    = suggestion cls
        (occurrences cls (class_names ((fun _ => item_list) "<ul>...</ul>")))
    /\ 2 <= occurrences cls (class_names ((fun _ => item_list) "<ul>...</ul>"))
    /\ 3 <= str_len cls.
Proof.
  apply (proj2 (proj2 (suggestions_are_repeated_classes
                         (fun _ => item_list) "<ul>...</ul>" 2))).
  vm_compute. right. by left.
Defined.

End HtmlExtract.
